(** * Gumloop MCP server: a shallow embedding of [src/index.ts]

    The adapter validates the arguments of a tool call with a zod schema,
    forwards the validated arguments in one HTTP request and wraps the
    outcome as a tool result.  The development follows the source file
    top to bottom: JavaScript values and the platform functions the source
    calls, the zod combinators the schemas are built from, the nine
    schemas, the [GumloopAPI] class, the tool registry, the call handler
    and [main]. *)

From Stdlib Require Import String Ascii List ZArith Bool Lia.
From Stdlib Require Import DecimalString DecimalZ DecimalPos DecimalN.
Import ListNotations.

Local Open Scope list_scope.
Local Open Scope string_scope.

Set Warnings "-register-all".

(** ** JavaScript values *)

Module JS.

(** *** Numbers *)

(** Decimal digits and texts made of them. *)
Definition is_digit (c : ascii) : bool :=
  Nat.leb 48 (nat_of_ascii c) && Nat.leb (nat_of_ascii c) 57.

Fixpoint all_digits (s : string) : bool :=
  match s with
  | EmptyString => true
  | String c r => is_digit c && all_digits r
  end.

(** [n] occurrences of the digit zero. *)
Fixpoint zeros (n : nat) : string :=
  match n with
  | O => ""
  | S n' => String "0" (zeros n')
  end.

(** The first [n] characters of a text, and what follows them. *)
Fixpoint string_take (n : nat) (s : string) : string :=
  match n, s with
  | S n', String c r => String c (string_take n' r)
  | _, _ => ""
  end.

Fixpoint string_drop (n : nat) (s : string) : string :=
  match n, s with
  | S n', String _ r => string_drop n' r
  | _, _ => s
  end.

(** The zeros a digit string begins with, and the string without the
    zeros it ends with. *)
Fixpoint leading_zeros (s : string) : nat :=
  match s with
  | String c r => if Ascii.eqb c "0" then S (leading_zeros r) else O
  | EmptyString => O
  end.

Fixpoint strip_trailing_zeros (s : string) : string :=
  match s with
  | EmptyString => ""
  | String c r =>
      match strip_trailing_zeros r with
      | EmptyString => if Ascii.eqb c "0" then "" else String c ""
      | r' => String c r'
      end
  end.

(** A number, as [Number::toString] identifies it: zero, or a sign, the
    decimal digits of the integer [s] and the exponent [n] such that the
    value is [s * 10^(n - k)], [k] being the number of digits, or an
    infinity. The numbers of JavaScript are the decimals that are the
    shortest form of a double ([is_number], below) and the infinities.
    The two zeros, which the adapter cannot tell apart (both are falsy
    and print as [0]), are one value; [NaN], which no JSON text decodes
    to, is left out. *)
Inductive Number : Type :=
| Zero
| Finite (negative : bool) (digits : string) (n : Z)
| Infinity (negative : bool).

Definition starts_nonzero (s : string) : bool :=
  match s with
  | String c _ => negb (Ascii.eqb c "0")
  | EmptyString => false
  end.

Fixpoint ends_nonzero (s : string) : bool :=
  match s with
  | EmptyString => false
  | String c EmptyString => negb (Ascii.eqb c "0")
  | String _ r => ends_nonzero r
  end.

(** Digits without a zero at either end. *)
Definition shortest_form (x : Number) : bool :=
  match x with
  | Zero => true
  | Finite _ digits _ =>
      all_digits digits && starts_nonzero digits && ends_nonzero digits
  | Infinity _ => false
  end.

(** The decimal [0.ds * 10^n] for a digit string [ds], without the zeros
    at either end. *)
Definition normal (negative : bool) (ds : string) (n : Z) : Number :=
  let z := leading_zeros ds in
  match strip_trailing_zeros (string_drop z ds) with
  | EmptyString => Zero
  | digits => Finite negative digits (n - Z.of_nat z)
  end.

(** The integer a digit string denotes, and the digits of an integer. *)
Fixpoint digits_Z_from (acc : Z) (s : string) : Z :=
  match s with
  | EmptyString => acc
  | String c r => digits_Z_from (10 * acc + Z.of_nat (nat_of_ascii c - 48)) r
  end.

Definition digits_Z (s : string) : Z := digits_Z_from 0 s.

Definition Z_digits (z : Z) : string :=
  NilZero.string_of_uint (N.to_uint (Z.to_N z)).

(** A double: the mantissa [m] and the exponent [e] of the value
    [m * 2^e], with [2^52 <= m < 2^53] and [-1074 <= e <= 971], or
    [m < 2^52] and [e = -1074]. *)
Definition double : Type := (Z * Z)%type.

(** Round to nearest, ties to even: the double nearest to [a / b] for
    positive [a] and [b], [None] when it is beyond the largest double. *)
Definition nearest_double (a b : Z) : option double :=
  let l := (Z.log2 a - Z.log2 b)%Z in
  let e1 :=
    if Z.leb (b * 2 ^ Z.max l 0) (a * 2 ^ Z.max (- l) 0)
    then (l - 52)%Z else (l - 53)%Z in
  let e := Z.max e1 (-1074) in
  let num := (a * 2 ^ Z.max (- e) 0)%Z in
  let den := (b * 2 ^ Z.max e 0)%Z in
  let m0 := (num / den)%Z in
  let r := (num mod den)%Z in
  let m :=
    if Z.ltb den (2 * r) then (m0 + 1)%Z
    else if Z.eqb (2 * r) den then (if Z.even m0 then m0 else m0 + 1)%Z
    else m0 in
  let me := if Z.eqb m (2 ^ 53) then ((2 ^ 52)%Z, (e + 1)%Z) else (m, e) in
  if Z.ltb 971 (snd me) then None else Some me.

(** The double a decimal rounds to, sign apart. *)
Definition double_of (x : Number) : option double :=
  match x with
  | Zero => Some (0, -1074)%Z
  | Infinity _ => None
  | Finite _ ds n =>
      let s := digits_Z ds in
      let q := (n - Z.of_nat (String.length ds))%Z in
      if Z.eqb s 0 then Some (0, -1074)%Z
      else nearest_double (s * 10 ^ Z.max q 0) (10 ^ Z.max (- q) 0)
  end.

(** For [0 < a < b], the [n] with [10^(n-1) <= a / b < 10^n]. *)
Fixpoint small_exponent (fuel : nat) (a b : Z) : Z :=
  match fuel with
  | O => 0%Z
  | S f =>
      if Z.leb b (a * 10) then 0%Z
      else (small_exponent f (a * 10) b - 1)%Z
  end.

(** The [n] with [10^(n-1) <= a / b < 10^n]. *)
Definition decimal_exponent (a b : Z) : Z :=
  if Z.leb b a then Z.of_nat (String.length (Z_digits (a / b)))
  else small_exponent 400 a b.

(** The decimals of [k] digits next to the double [t], the closer one
    first (the even one on a tie). *)
Definition candidates (t : double) (k : Z) : list Number :=
  let m := fst t in
  let e := snd t in
  let a := (m * 2 ^ Z.max e 0)%Z in
  let b := (2 ^ Z.max (- e) 0)%Z in
  let n := decimal_exponent a b in
  let p := (n - k)%Z in
  let num := (a * 10 ^ Z.max (- p) 0)%Z in
  let den := (b * 10 ^ Z.max p 0)%Z in
  let lo := (num / den)%Z in
  let r := (num mod den)%Z in
  let decimal (s : Z) :=
    let ds := Z_digits s in
    normal false ds (p + Z.of_nat (String.length ds)) in
  if Z.ltb (2 * r) den then [decimal lo; decimal (lo + 1)%Z]
  else if Z.ltb den (2 * r) then [decimal (lo + 1)%Z; decimal lo]
  else if Z.even lo then [decimal lo; decimal (lo + 1)%Z]
  else [decimal (lo + 1)%Z; decimal lo].

(** Equality of doubles. *)
Definition double_eqb (a b : option double) : bool :=
  match a, b with
  | Some (m, e), Some (m', e') => Z.eqb m m' && Z.eqb e e'
  | None, None => true
  | _, _ => false
  end.

(** The decimal with the fewest digits that rounds to the double [t]:
    the [n], [k] and [s] of [Number::toString]. *)
Definition shortest (t : double) : option Number :=
  find (fun c => double_eqb (double_of c) (Some t))
       (flat_map (candidates t)
          [1; 2; 3; 4; 5; 6; 7; 8; 9; 10; 11; 12; 13; 14; 15; 16; 17]%Z).

(** A number with the given sign. *)
Definition with_sign (negative : bool) (x : Number) : Number :=
  match x with
  | Finite _ ds n => Finite negative ds n
  | Infinity _ => Infinity negative
  | Zero => Zero
  end.

(** The number of JavaScript a decimal denotes: the shortest form of the
    double nearest to it. *)
Definition to_Number (x : Number) : Number :=
  match x with
  | Finite negative _ _ =>
      match double_of x with
      | Some (m, e) =>
          if Z.eqb m 0 then Zero
          else match shortest (m, e) with
               | Some u => with_sign negative u
               | None => Infinity negative
               end
      | None => Infinity negative
      end
  | _ => x
  end.

(** Equality of numbers. *)
Definition Number_eqb (a b : Number) : bool :=
  match a, b with
  | Zero, Zero => true
  | Finite s d n, Finite s' d' n' =>
      Bool.eqb s s' && String.eqb d d' && Z.eqb n n'
  | Infinity s, Infinity s' => Bool.eqb s s'
  | _, _ => false
  end.

(** The numbers of JavaScript: the decimals that are the shortest form
    of a double, and the two infinities. *)
Definition is_number (x : Number) : bool := Number_eqb (to_Number x) x.

(** The numbers other than the infinities. *)
Definition is_finite (x : Number) : bool :=
  match x with Infinity _ => false | _ => true end.

(** [Number.MAX_VALUE]. *)
Definition largest : Number := Finite false "17976931348623157" 309.

(** The number of an integer: the double nearest to it. No integer the
    adapter converts (a literal, a position in an array) is beyond the
    largest double, where the conversion stops. *)
Definition of_Z (z : Z) : Number :=
  let ds := Z_digits (Z.abs z) in
  match to_Number (normal (Z.ltb z 0) ds (Z.of_nat (String.length ds))) with
  | Infinity negative => with_sign negative largest
  | x => x
  end.

Coercion of_Z : Z >-> Number.
Bind Scope Z_scope with Number.

(** Decimal rendering of an integer. *)
Definition Z_to_string (n : Z) : string := NilZero.string_of_int (Z.to_int n).

Definition nat_to_string (n : nat) : string := Z_to_string (Z.of_nat n).

(** [Number::toString(x, 10)]: plain decimal notation when the exponent
    [n] is between -5 and 21, scientific notation otherwise. *)
Definition Number_toString (x : Number) : string :=
  match x with
  | Zero => "0"
  | Finite negative digits n =>
      let k := Z.of_nat (String.length digits) in
      (if negative then "-" else "")
      ++ (if Z.leb (-5) n && Z.leb n 21 then
            if Z.leb k n then digits ++ zeros (Z.to_nat (n - k))
            else if Z.ltb 0 n then
              string_take (Z.to_nat n) digits ++ "."
              ++ string_drop (Z.to_nat n) digits
            else "0." ++ zeros (Z.to_nat (- n)) ++ digits
          else
            let e := (n - 1)%Z in
            let exponent :=
              (if Z.ltb e 0 then "-" else "+") ++ Z_to_string (Z.abs e) in
            match digits with
            | String d EmptyString => String d ("e" ++ exponent)
            | String d r => String d ("." ++ r ++ "e" ++ exponent)
            | EmptyString => "e" ++ exponent
            end)
  | Infinity negative => if negative then "-Infinity" else "Infinity"
  end.

(** *** Values *)

(** The values that flow through the adapter: tool arguments (decoded from
    the JSON-RPC message), zod outputs, decoded response documents.
    Strings are byte strings (the UTF-8 encoding of the JavaScript string).
    An object is its list of own enumerable properties in enumeration
    order. *)
Inductive value : Type :=
| VUndefined
| VNull
| VBool (b : bool)
| VNum (n : Number)
| VStr (s : string)
| VArr (l : list value)
| VObj (m : list (string * value)).

(** Induction principle that reaches inside arrays and objects. *)
Section value_rect.
Variable P : value -> Prop.
Hypothesis Hundef : P VUndefined.
Hypothesis Hnull : P VNull.
Hypothesis Hbool : forall b, P (VBool b).
Hypothesis Hnum : forall n, P (VNum n).
Hypothesis Hstr : forall s, P (VStr s).
Hypothesis Harr : forall l, Forall P l -> P (VArr l).
Hypothesis Hobj : forall m, Forall (fun kv => P (snd kv)) m -> P (VObj m).

Fixpoint value_ind' (v : value) : P v :=
  match v with
  | VUndefined => Hundef
  | VNull => Hnull
  | VBool b => Hbool b
  | VNum n => Hnum n
  | VStr s => Hstr s
  | VArr l =>
      Harr l ((fix go (l : list value) : Forall P l :=
                 match l with
                 | [] => Forall_nil _
                 | x :: r => Forall_cons _ (value_ind' x) (go r)
                 end) l)
  | VObj m =>
      Hobj m ((fix go (m : list (string * value))
                 : Forall (fun kv => P (snd kv)) m :=
                 match m with
                 | [] => Forall_nil _
                 | kv :: r => Forall_cons _ (value_ind' (snd kv)) (go r)
                 end) m)
  end.
End value_rect.

(** Own-property lookup in a property list. *)
Fixpoint lookup (k : string) (m : list (string * value)) : option value :=
  match m with
  | [] => None
  | (k', v) :: r => if String.eqb k k' then Some v else lookup k r
  end.

(** [data[key]]: [undefined] when the property is missing. *)
Definition get (data : value) (key : string) : value :=
  match data with
  | VObj m => match lookup key m with Some v => v | None => VUndefined end
  | _ => VUndefined
  end.

(** [key in data] for an object. *)
Definition has_key (data : value) (key : string) : bool :=
  match data with
  | VObj m => match lookup key m with Some _ => true | None => false end
  | _ => false
  end.

Arguments get : simpl never.
Arguments has_key : simpl never.

(** ToBoolean. *)
Definition truthy (v : value) : bool :=
  match v with
  | VUndefined | VNull => false
  | VBool b => b
  | VNum Zero => false
  | VNum (Finite _ _ _) | VNum (Infinity _) => true
  | VStr s => negb (String.eqb s "")
  | VArr _ | VObj _ => true
  end.

(** [a || b]. *)
Definition or_else (a b : value) : value := if truthy a then a else b.

(** [xs.join(sep)] on already rendered elements. *)
Fixpoint join (sep : string) (xs : list string) : string :=
  match xs with
  | [] => ""
  | [x] => x
  | x :: r => x ++ sep ++ join sep r
  end.

(** [String(value)]. Array elements that are [null] or [undefined] render
    as the empty string, objects as the fixed tag. *)
Fixpoint ToString (v : value) : string :=
  match v with
  | VUndefined => "undefined"
  | VNull => "null"
  | VBool true => "true"
  | VBool false => "false"
  | VNum n => Number_toString n
  | VStr s => s
  | VArr l =>
      join "," (map (fun x => match x with
                              | VUndefined | VNull => ""
                              | _ => ToString x
                              end) l)
  | VObj _ => "[object Object]"
  end.

(** Numbering of array elements, as [Array.prototype.map] passes it. *)
Fixpoint indexed_from {A : Type} (i : nat) (l : list A) : list (nat * A) :=
  match l with
  | [] => []
  | x :: r => (i, x) :: indexed_from (S i) r
  end.

Definition indexed {A : Type} (l : list A) : list (nat * A) := indexed_from 0 l.

(** [Object.entries(data)]: own enumerable string-keyed properties. *)
Definition Object_entries (data : value) : list (string * value) :=
  match data with
  | VObj m => m
  | VArr l => map (fun ix => (nat_to_string (fst ix), snd ix)) (indexed l)
  | VStr s =>
      map (fun ix => (nat_to_string (fst ix), VStr (String (snd ix) "")))
          (indexed (list_ascii_of_string s))
  | _ => []
  end.

(** *** [JSON.stringify] *)

Definition dquote : ascii := "034"%char.
Definition backslash : ascii := "092"%char.
Definition newline : ascii := "010"%char.

Definition str1 (c : ascii) : string := String c "".

(** Lowercase hexadecimal digit of a number below sixteen. *)
Definition hex_lower (n : nat) : ascii :=
  nth n (list_ascii_of_string "0123456789abcdef") "0"%char.

(** The escape of one character inside a JSON string literal. *)
Definition quote_char (c : ascii) : string :=
  let n := nat_of_ascii c in
  if Nat.eqb n 8 then String backslash "b"
  else if Nat.eqb n 9 then String backslash "t"
  else if Nat.eqb n 10 then String backslash "n"
  else if Nat.eqb n 12 then String backslash "f"
  else if Nat.eqb n 13 then String backslash "r"
  else if Nat.eqb n 34 then String backslash (str1 dquote)
  else if Nat.eqb n 92 then String backslash (str1 backslash)
  else if Nat.ltb n 32 then
    String backslash
      ("u00" ++ String (hex_lower (n / 16)) (str1 (hex_lower (n mod 16))))
  else str1 c.

Fixpoint quote_chars (s : string) : string :=
  match s with
  | EmptyString => ""
  | String c r => quote_char c ++ quote_chars r
  end.

(** QuoteJSONString. *)
Definition Quote (s : string) : string :=
  String dquote (quote_chars s ++ str1 dquote).

Definition is_empty (s : string) : bool := String.eqb s "".

(** The text between the brackets of a serialized array or object. *)
Definition wrap (opening closing gap stepback indent : string)
    (partial : list string) : string :=
  match partial with
  | [] => opening ++ closing
  | _ =>
      if is_empty gap then opening ++ join "," partial ++ closing
      else
        opening ++ str1 newline ++ indent
        ++ join ("," ++ str1 newline ++ indent) partial
        ++ str1 newline ++ stepback ++ closing
  end.

(** SerializeJSONProperty with the current indentation: [None] is the
    [undefined] that makes an object drop the property and an array print
    [null]. *)
Fixpoint serialize (gap indent : string) (v : value) : option string :=
  match v with
  | VUndefined => None
  | VNull => Some "null"
  | VBool true => Some "true"
  | VBool false => Some "false"
  | VNum n => Some (if is_finite n then Number_toString n else "null")
  | VStr s => Some (Quote s)
  | VArr l =>
      let stepback := indent in
      let indent := indent ++ gap in
      let partial :=
        map (fun x => match serialize gap indent x with
                      | Some s => s
                      | None => "null"
                      end) l in
      Some (wrap "[" "]" gap stepback indent partial)
  | VObj m =>
      let stepback := indent in
      let indent := indent ++ gap in
      let partial :=
        flat_map (fun kv => match serialize gap indent (snd kv) with
                            | Some s =>
                                [Quote (fst kv) ++ ":"
                                 ++ (if is_empty gap then "" else " ") ++ s]
                            | None => []
                            end) m in
      Some (wrap "{" "}" gap stepback indent partial)
  end.

(** [JSON.stringify(value)] and [JSON.stringify(value, null, 2)]. *)
Definition JSON_stringify (v : value) : option string := serialize "" "" v.
Definition JSON_stringify_2 (v : value) : option string := serialize "  " "" v.

(** *** [URLSearchParams] *)

Definition hex_upper (n : nat) : ascii :=
  nth n (list_ascii_of_string "0123456789ABCDEF") "0"%char.

(** Bytes the form-urlencoded serializer leaves alone:
    ASCII alphanumerics and [* - . _]. *)
Definition urlencoded_safe (c : ascii) : bool :=
  let n := nat_of_ascii c in
  (Nat.leb 48 n && Nat.leb n 57) || (Nat.leb 65 n && Nat.leb n 90)
  || (Nat.leb 97 n && Nat.leb n 122)
  || Nat.eqb n 42 || Nat.eqb n 45 || Nat.eqb n 46 || Nat.eqb n 95.

Definition urlencode_byte (c : ascii) : string :=
  let n := nat_of_ascii c in
  if Nat.eqb n 32 then "+"
  else if urlencoded_safe c then str1 c
  else String "%"%char (String (hex_upper (n / 16)) (str1 (hex_upper (n mod 16)))).

Fixpoint urlencode (s : string) : string :=
  match s with
  | EmptyString => ""
  | String c r => urlencode_byte c ++ urlencode r
  end.

(** A [URLSearchParams] object is its list of name-value pairs. *)
Definition URLSearchParams : Type := list (string * string).

Definition URLSearchParams_append (q : URLSearchParams) (name val : string)
  : URLSearchParams :=
  (q ++ [(name, val)])%list.

Definition URLSearchParams_toString (q : URLSearchParams) : string :=
  join "&" (map (fun kv => urlencode (fst kv) ++ "=" ++ urlencode (snd kv)) q).

End JS.
Import JS.

(** ** The zod combinators used by the schemas (zod 3 semantics) *)

Module Zod.

Inductive ZodParsedType : Type :=
| PT_undefined | PT_null | PT_boolean | PT_number | PT_string | PT_array
| PT_object.

Definition getParsedType (data : value) : ZodParsedType :=
  match data with
  | VUndefined => PT_undefined
  | VNull => PT_null
  | VBool _ => PT_boolean
  | VNum _ => PT_number
  | VStr _ => PT_string
  | VArr _ => PT_array
  | VObj _ => PT_object
  end.

Definition ParsedType_name (t : ZodParsedType) : string :=
  match t with
  | PT_undefined => "undefined"
  | PT_null => "null"
  | PT_boolean => "boolean"
  | PT_number => "number"
  | PT_string => "string"
  | PT_array => "array"
  | PT_object => "object"
  end.

Inductive PathElem : Type :=
| PKey (k : string)
| PIndex (i : nat).

Inductive ZodIssueCode : Type := invalid_type | custom.

(** One validation issue. [expected] and [received] are set on
    [invalid_type] issues only. *)
Record ZodIssue : Type := mkIssue {
  code : ZodIssueCode;
  expected : option ZodParsedType;
  received : option ZodParsedType;
  path : list PathElem;
  message : string
}.

(** The issue a type check adds, with the message of the default error
    map: a value that is [undefined] is reported as a missing one. *)
Definition invalid_type_issue (exp rec : ZodParsedType)
    (p : list PathElem) : ZodIssue :=
  {| code := invalid_type; expected := Some exp; received := Some rec;
     path := p;
     message := match rec with
                | PT_undefined => "Required"
                | _ => "Expected " ++ ParsedType_name exp ++ ", received "
                       ++ ParsedType_name rec
                end |}.

(** The issue a failed [refine] adds. *)
Definition custom_issue (msg : string) (p : list PathElem) : ZodIssue :=
  {| code := custom; expected := None; received := None; path := p;
     message := msg |}.

(** Schemas, built the way the source builds them. [describe] only
    attaches documentation and is left out. *)
Inductive ZodType : Type :=
| z_string
| z_optional (inner : ZodType)
| z_array (element : ZodType)
| z_object (shape : list (string * ZodType))
| z_refine (inner : ZodType) (check : value -> value) (msg : string).

(** Outcome of parsing one node: the issues it added, and the value unless
    the node aborted. *)
Definition ParseReturn : Type := (list ZodIssue * option value)%type.

Definition INVALID (i : ZodIssue) : ParseReturn := ([i], None).
Definition OK (v : value) : ParseReturn := ([], Some v).

(** [ParseStatus.mergeArray]: aborted as soon as one element is. *)
Fixpoint mergeArray (results : list (option value)) : option (list value) :=
  match results with
  | [] => Some []
  | None :: _ => None
  | Some v :: r =>
      match mergeArray r with Some l => Some (v :: l) | None => None end
  end.

(** [ParseStatus.mergeObjectSync]: a key is set when its value is defined
    or the key was present in the input. *)
Fixpoint mergeObject (pairs : list (string * option value * bool))
  : option (list (string * value)) :=
  match pairs with
  | [] => Some []
  | (_, None, _) :: _ => None
  | (k, Some v, alwaysSet) :: r =>
      match mergeObject r with
      | None => None
      | Some m =>
          let defined := match v with VUndefined => false | _ => true end in
          if negb (String.eqb k "__proto__") && (defined || alwaysSet)
          then Some ((k, v) :: m) else Some m
      end
  end.

(** [_parse]: every key of an object and every element of an array is
    parsed, so the issues of all of them are reported; unknown keys are
    stripped; a refinement runs only when its inner schema did not abort. *)
Fixpoint _parse (t : ZodType) (p : list PathElem) (input : value)
  : ParseReturn :=
  match t with
  | z_string =>
      match input with
      | VStr _ => OK input
      | _ => INVALID (invalid_type_issue PT_string (getParsedType input) p)
      end
  | z_optional inner =>
      match input with
      | VUndefined => OK VUndefined
      | _ => _parse inner p input
      end
  | z_array element =>
      match input with
      | VArr l =>
          let results :=
            map (fun ix => _parse element (p ++ [PIndex (fst ix)])%list (snd ix))
                (indexed l) in
          (concat (map fst results),
           match mergeArray (map snd results) with
           | Some l' => Some (VArr l')
           | None => None
           end)
      | _ => INVALID (invalid_type_issue PT_array (getParsedType input) p)
      end
  | z_object shape =>
      match input with
      | VObj _ =>
          let pairs :=
            (fix each (shape : list (string * ZodType))
               : list (string * ParseReturn * bool) :=
               match shape with
               | [] => []
               | (key, keyValidator) :: rest =>
                   (key,
                    _parse keyValidator (p ++ [PKey key])%list (get input key),
                    has_key input key) :: each rest
               end) shape in
          (concat (map (fun pr => fst (snd (fst pr))) pairs),
           match mergeObject
                   (map (fun pr => (fst (fst pr), snd (snd (fst pr)), snd pr))
                        pairs) with
           | Some m => Some (VObj m)
           | None => None
           end)
      | _ => INVALID (invalid_type_issue PT_object (getParsedType input) p)
      end
  | z_refine inner check msg =>
      let r := _parse inner p input in
      match snd r with
      | None => r
      | Some v =>
          if truthy (check v) then r
          else (fst r ++ [custom_issue msg p], Some v)%list
      end
  end.

(** [safeParse]: success only when no issue was added. *)
Definition safeParse (t : ZodType) (data : value) : list ZodIssue + value :=
  match _parse t [] data with
  | ([], Some v) => inr v
  | (issues, _) => inl issues
  end.

(** The JSON form of an issue, in the property order zod builds it. *)
Definition path_value (p : list PathElem) : value :=
  VArr (map (fun e => match e with
                      | PKey k => VStr k
                      | PIndex i => VNum (Z.of_nat i)
                      end) p).

Definition code_name (c : ZodIssueCode) : string :=
  match c with invalid_type => "invalid_type" | custom => "custom" end.

Definition opt_type_value (o : option ZodParsedType) : value :=
  match o with Some t => VStr (ParsedType_name t) | None => VUndefined end.

Definition issue_value (i : ZodIssue) : value :=
  match code i with
  | invalid_type =>
      VObj [("code", VStr (code_name (code i)));
            ("expected", opt_type_value (expected i));
            ("received", opt_type_value (received i));
            ("path", path_value (path i));
            ("message", VStr (message i))]
  | custom =>
      VObj [("code", VStr (code_name (code i)));
            ("message", VStr (message i));
            ("path", path_value (path i))]
  end.

(** [ZodError.prototype.message]: the issues, pretty-printed. *)
Definition ZodError_message (issues : list ZodIssue) : string :=
  match JSON_stringify_2 (VArr (map issue_value issues)) with
  | Some s => s
  | None => ""
  end.

End Zod.
Import Zod.

(** ** Validation schemas for the API endpoints *)

(** Start Automation *)
Definition StartAutomationSchema : ZodType :=
  z_object
    [("user_id", z_string);
     ("saved_item_id", z_string);
     ("project_id", z_optional z_string);
     ("pipeline_inputs",
      z_optional
        (z_array (z_object [("input_name", z_string); ("value", z_string)])))].

(** Retrieve Run Details *)
Definition RetrieveRunDetailsSchema : ZodType :=
  z_refine
    (z_object
       [("run_id", z_string);
        ("user_id", z_optional z_string);
        ("project_id", z_optional z_string)])
    (fun data => or_else (get data "user_id") (get data "project_id"))
    "Either user_id or project_id is required".

(** List Saved Flows *)
Definition ListSavedFlowsSchema : ZodType :=
  z_refine
    (z_object
       [("user_id", z_optional z_string);
        ("project_id", z_optional z_string)])
    (fun data => or_else (get data "user_id") (get data "project_id"))
    "Either user_id or project_id is required".

(** List Workbooks and Their Saved Flows *)
Definition ListWorkbooksSchema : ZodType :=
  z_refine
    (z_object
       [("user_id", z_optional z_string);
        ("project_id", z_optional z_string)])
    (fun data => or_else (get data "user_id") (get data "project_id"))
    "Either user_id or project_id is required".

(** Retrieve Input Schema *)
Definition RetrieveInputSchemaSchema : ZodType :=
  z_refine
    (z_object
       [("saved_item_id", z_string);
        ("user_id", z_optional z_string);
        ("project_id", z_optional z_string)])
    (fun data => or_else (get data "user_id") (get data "project_id"))
    "Either user_id or project_id is required".

(** Upload File *)
Definition UploadFileSchema : ZodType :=
  z_refine
    (z_object
       [("file_name", z_string);
        ("file_content", z_string);
        ("user_id", z_optional z_string);
        ("project_id", z_optional z_string)])
    (fun data => or_else (get data "user_id") (get data "project_id"))
    "Either user_id or project_id is required".

(** Upload Multiple Files *)
Definition UploadMultipleFilesSchema : ZodType :=
  z_refine
    (z_object
       [("files",
         z_array
           (z_object [("file_name", z_string); ("file_content", z_string)]));
        ("user_id", z_optional z_string);
        ("project_id", z_optional z_string)])
    (fun data => or_else (get data "user_id") (get data "project_id"))
    "Either user_id or project_id is required".

(** Download File *)
Definition DownloadFileSchema : ZodType :=
  z_object
    [("file_name", z_string);
     ("run_id", z_string);
     ("saved_item_id", z_string);
     ("user_id", z_optional z_string);
     ("project_id", z_optional z_string)].

(** Download Multiple Files *)
Definition DownloadMultipleFilesSchema : ZodType :=
  z_refine
    (z_object
       [("file_names", z_array z_string);
        ("run_id", z_string);
        ("user_id", z_optional z_string);
        ("project_id", z_optional z_string);
        ("saved_item_id", z_optional z_string)])
    (fun data => or_else (get data "user_id") (get data "project_id"))
    "Either user_id or project_id is required".

(** ** Exceptions, the fetch platform and the effect trace *)

(** What the code can throw or catch: a [ZodError], a plain [Error], or a
    value that is not an [Error] instance. *)
Inductive exn : Type :=
| ZodError (issues : list ZodIssue)
| Error (msg : string)
| Thrown (v : value).

(** [error instanceof Error ? error.message : fallback]. *)
Definition message_or (fallback : string) (e : exn) : string :=
  match e with
  | ZodError issues => ZodError_message issues
  | Error msg => msg
  | Thrown _ => fallback
  end.

Inductive Method : Type := GET | POST.

Record RequestInit : Type := mkInit {
  method : Method;
  headers : list (string * string);
  body : option string
}.

(** A response as the platform hands it over: the status line, the
    [content-type] header, what [response.json()] settles to (a rejection
    message or the decoded document) and the raw payload. *)
Record Response : Type := mkResponse {
  status : Z;
  statusText : string;
  content_type : option string;
  json : string + value;
  arrayBuffer : string
}.

(** [response.ok]: the status is in the range 200-299. *)
Definition ok (r : Response) : bool :=
  Z.leb 200 (status r) && Z.leb (status r) 299.

(** The observable effects of a call, in order. *)
Inductive event : Type :=
| EvFetch (url : string) (options : RequestInit)
| EvJson
| EvArrayBuffer.

(** Computations that log events and may throw. *)
Definition M (A : Type) : Type := (list event * (exn + A))%type.

Definition ret {A : Type} (a : A) : M A := ([], inr a).
Definition throw {A : Type} (e : exn) : M A := ([], inl e).
Definition emit (ev : event) : M unit := ([ev], inr tt).

Definition bind {A B : Type} (m : M A) (f : A -> M B) : M B :=
  match m with
  | (t, inl e) => (t, inl e)
  | (t, inr a) => let r := f a in ((t ++ fst r)%list, snd r)
  end.

Notation "x <- m ;; k" := (bind m (fun x => k))
  (at level 61, m at next level, right associativity).
Notation "m ;;; k" := (bind m (fun _ => k))
  (at level 61, right associativity).

(** [Schema.parse(args)]: throws the [ZodError] of a failed [safeParse]. *)
Definition parse (t : ZodType) (data : value) : M value :=
  match safeParse t data with
  | inr v => ret v
  | inl issues => throw (ZodError issues)
  end.

(** [s.includes(sub)]. *)
Fixpoint includes (sub s : string) : bool :=
  if String.prefix sub s then true
  else match s with
       | EmptyString => false
       | String _ r => includes sub r
       end.

(** ** API client class to handle requests *)

Record GumloopAPI : Type := mkAPI {
  baseUrl : string;
  apiKey : string
}.

(** The constructor reads the key from the environment and throws when it
    is falsy (unset or empty). *)
Definition new_GumloopAPI (env : string -> option string) : exn + GumloopAPI :=
  match env "GUMLOOP_API_KEY" with
  | Some key =>
      if is_empty key
      then inl (Error "GUMLOOP_API_KEY environment variable is required")
      else inr {| baseUrl := "https://api.gumloop.com/api/v1"; apiKey := key |}
  | None => inl (Error "GUMLOOP_API_KEY environment variable is required")
  end.

(** What [makeRequest] resolves to: a decoded JSON document, or the raw
    bytes of a file download. *)
Inductive payload : Type :=
| Document (v : value)
| Binary (bytes : string).

(** The loop that fills [queryParams] from [Object.entries(data)]. *)
Definition query_params (data : value) : URLSearchParams :=
  fold_left
    (fun queryParams kv =>
       match snd kv with
       | VUndefined | VNull => queryParams
       | v => URLSearchParams_append queryParams (fst kv) (ToString v)
       end)
    (Object_entries data) [].

Section Gateway.

(** The network: what [fetch] settles to for a request, a response or
    a rejection with an [Error] carrying the given message. *)
Variable fetch : string -> RequestInit -> string + Response.

Definition await_fetch (url : string) (options : RequestInit) : M Response :=
  ([EvFetch url options],
   match fetch url options with
   | inl msg => inl (Error msg)
   | inr response => inr response
   end).

Definition response_json (r : Response) : M payload :=
  ([EvJson],
   match json r with
   | inl msg => inl (Error msg)
   | inr v => inr (Document v)
   end).

Definition response_arrayBuffer (r : Response) : M payload :=
  ([EvArrayBuffer], inr (Binary (arrayBuffer r))).

Definition makeRequest (api : GumloopAPI) (endpoint : string)
    (method : Method) (data : value) : M payload :=
  let headers :=
    [("Authorization", "Bearer " ++ apiKey api);
     ("Content-Type", "application/json")] in
  let url := baseUrl api ++ endpoint in
  let url_body :=
    match method, truthy data with
    | GET, true =>
        (* For GET requests, append query parameters *)
        let queryString := URLSearchParams_toString (query_params data) in
        (if is_empty queryString then url else url ++ "?" ++ queryString,
         None)
    | _, true => (url, JSON_stringify data)
    | _, false => (url, None)
    end in
  let options :=
    {| method := method; headers := headers; body := snd url_body |} in
  response <- await_fetch (fst url_body) options ;;
  if negb (ok response) then
    throw (Error ("Gumloop API request failed: "
                  ++ Z_to_string (status response) ++ " - "
                  ++ statusText response))
  else
    match content_type response with
    | Some contentType =>
        if negb (is_empty contentType)
           && includes "application/json" contentType
        then response_json response
        else response_arrayBuffer response (* For file downloads *)
    | None => response_arrayBuffer response
    end.

(** Start Automation *)
Definition startAutomation (api : GumloopAPI) (params : value) : M payload :=
  makeRequest api "/start_pipeline" POST params.

(** Retrieve Run Details *)
Definition retrieveRunDetails (api : GumloopAPI) (params : value) : M payload :=
  makeRequest api "/get_pl_run" GET params.

(** List Saved Flows *)
Definition listSavedFlows (api : GumloopAPI) (params : value) : M payload :=
  makeRequest api "/list_saved_items" GET params.

(** List Workbooks and Their Saved Flows *)
Definition listWorkbooks (api : GumloopAPI) (params : value) : M payload :=
  makeRequest api "/list_workbooks" GET params.

(** Retrieve Input Schema *)
Definition retrieveInputSchema (api : GumloopAPI) (params : value) : M payload :=
  makeRequest api "/get_inputs" GET params.

(** Upload File *)
Definition uploadFile (api : GumloopAPI) (params : value) : M payload :=
  makeRequest api "/upload_file" POST params.

(** Upload Multiple Files *)
Definition uploadMultipleFiles (api : GumloopAPI) (params : value) : M payload :=
  makeRequest api "/upload_files" POST params.

(** Download File *)
Definition downloadFile (api : GumloopAPI) (params : value) : M payload :=
  makeRequest api "/download_file" POST params.

(** Download Multiple Files *)
Definition downloadMultipleFiles (api : GumloopAPI) (params : value) : M payload :=
  makeRequest api "/download_files" POST params.

(** ** The tool call handler *)

Record TextContent : Type := mkText {
  type : string;
  text : option string
}.

Record CallToolResult : Type := mkResult {
  content : list TextContent;
  isError : option bool
}.

Record CallToolRequest : Type := mkCall {
  name : string;
  arguments : value
}.

(** [JSON.stringify(result, null, 2)]: an [ArrayBuffer] has no enumerable
    property and prints as the empty object. *)
Definition stringify_result (result : payload) : option string :=
  match result with
  | Document v => JSON_stringify_2 v
  | Binary _ => Some "{}"
  end.

Definition text_result (t : option string) : CallToolResult :=
  {| content := [{| type := "text"; text := t |}]; isError := None |}.

Definition error_result (t : string) : CallToolResult :=
  {| content := [{| type := "text"; text := Some t |}];
     isError := Some true |}.

(** The body of the [try] block: the [switch] on the tool name. *)
Definition call_tool (api : GumloopAPI) (request : CallToolRequest)
  : M CallToolResult :=
  let args := arguments request in
  if String.eqb (name request) "startAutomation" then
    validatedArgs <- parse StartAutomationSchema args ;;
    result <- startAutomation api validatedArgs ;;
    ret (text_result (stringify_result result))
  else if String.eqb (name request) "retrieveRunDetails" then
    validatedArgs <- parse RetrieveRunDetailsSchema args ;;
    result <- retrieveRunDetails api validatedArgs ;;
    ret (text_result (stringify_result result))
  else if String.eqb (name request) "listSavedFlows" then
    validatedArgs <- parse ListSavedFlowsSchema args ;;
    result <- listSavedFlows api validatedArgs ;;
    ret (text_result (stringify_result result))
  else if String.eqb (name request) "listWorkbooks" then
    validatedArgs <- parse ListWorkbooksSchema args ;;
    result <- listWorkbooks api validatedArgs ;;
    ret (text_result (stringify_result result))
  else if String.eqb (name request) "retrieveInputSchema" then
    validatedArgs <- parse RetrieveInputSchemaSchema args ;;
    result <- retrieveInputSchema api validatedArgs ;;
    ret (text_result (stringify_result result))
  else if String.eqb (name request) "uploadFile" then
    validatedArgs <- parse UploadFileSchema args ;;
    result <- uploadFile api validatedArgs ;;
    ret (text_result (stringify_result result))
  else if String.eqb (name request) "uploadMultipleFiles" then
    validatedArgs <- parse UploadMultipleFilesSchema args ;;
    result <- uploadMultipleFiles api validatedArgs ;;
    ret (text_result (stringify_result result))
  else if String.eqb (name request) "downloadFile" then
    validatedArgs <- parse DownloadFileSchema args ;;
    downloadFile api validatedArgs ;;;
    (* For file downloads, the binary data is not put in the result *)
    ret (text_result
           (Some "File downloaded successfully. Binary data is available but not displayed here."))
  else if String.eqb (name request) "downloadMultipleFiles" then
    validatedArgs <- parse DownloadMultipleFilesSchema args ;;
    downloadMultipleFiles api validatedArgs ;;;
    ret (text_result
           (Some "Files downloaded successfully as a zip archive. Binary data is available but not displayed here."))
  else
    ret (error_result ("Unknown tool: " ++ name request)).

(** The handler: the [try] block with its [catch]. It returns the tool
    result together with the effects the call had. *)
Definition handler (api : GumloopAPI) (request : CallToolRequest)
  : CallToolResult * list event :=
  match call_tool api request with
  | (trace, inr result) => (result, trace)
  | (trace, inl error) =>
      (error_result ("API error: " ++ message_or "Unknown error" error),
       trace)
  end.

End Gateway.

(** ** Define tools *)

(** The JSON Schema fragments the registry advertises. Property
    descriptions are documentation only and are left out. *)
Inductive JSONSchema : Type :=
| schema_string
| schema_array (items : JSONSchema)
| schema_object (properties : list (string * JSONSchema))
                (required : list string).

Record Tool : Type := mkTool {
  tool_name : string;
  description : string;
  inputSchema : JSONSchema
}.

Definition TOOLS : list (string * Tool) :=
  [("startAutomation",
    {| tool_name := "startAutomation";
       description := "Initiates a new flow run for a specific saved automation";
       inputSchema :=
         schema_object
           [("user_id", schema_string);
            ("saved_item_id", schema_string);
            ("project_id", schema_string);
            ("pipeline_inputs",
             schema_array
               (schema_object
                  [("input_name", schema_string); ("value", schema_string)]
                  ["input_name"; "value"]))]
           ["user_id"; "saved_item_id"] |});
   ("retrieveRunDetails",
    {| tool_name := "retrieveRunDetails";
       description := "Retrieves details about a specific flow run";
       inputSchema :=
         schema_object
           [("run_id", schema_string);
            ("user_id", schema_string);
            ("project_id", schema_string)]
           ["run_id"] |});
   ("listSavedFlows",
    {| tool_name := "listSavedFlows";
       description := "Retrieves a list of all saved flows for a user or project";
       inputSchema :=
         schema_object
           [("user_id", schema_string); ("project_id", schema_string)] [] |});
   ("listWorkbooks",
    {| tool_name := "listWorkbooks";
       description :=
         "Retrieves a list of all workbooks and their associated saved flows for a user or project";
       inputSchema :=
         schema_object
           [("user_id", schema_string); ("project_id", schema_string)] [] |});
   ("retrieveInputSchema",
    {| tool_name := "retrieveInputSchema";
       description := "Retrieves the input schema for a specific saved flow";
       inputSchema :=
         schema_object
           [("saved_item_id", schema_string);
            ("user_id", schema_string);
            ("project_id", schema_string)]
           ["saved_item_id"] |});
   ("uploadFile",
    {| tool_name := "uploadFile";
       description := "Uploads a single file to the Gumloop platform";
       inputSchema :=
         schema_object
           [("file_name", schema_string);
            ("file_content", schema_string);
            ("user_id", schema_string);
            ("project_id", schema_string)]
           ["file_name"; "file_content"] |});
   ("uploadMultipleFiles",
    {| tool_name := "uploadMultipleFiles";
       description :=
         "Uploads multiple files to the Gumloop platform in a single request";
       inputSchema :=
         schema_object
           [("files",
             schema_array
               (schema_object
                  [("file_name", schema_string);
                   ("file_content", schema_string)]
                  ["file_name"; "file_content"]));
            ("user_id", schema_string);
            ("project_id", schema_string)]
           ["files"] |});
   ("downloadFile",
    {| tool_name := "downloadFile";
       description := "Downloads a specific file from the Gumloop platform";
       inputSchema :=
         schema_object
           [("file_name", schema_string);
            ("run_id", schema_string);
            ("saved_item_id", schema_string);
            ("user_id", schema_string);
            ("project_id", schema_string)]
           ["file_name"; "run_id"; "saved_item_id"] |});
   ("downloadMultipleFiles",
    {| tool_name := "downloadMultipleFiles";
       description :=
         "Downloads multiple files from the Gumloop platform as a zip archive";
       inputSchema :=
         schema_object
           [("file_names", schema_array schema_string);
            ("run_id", schema_string);
            ("user_id", schema_string);
            ("project_id", schema_string);
            ("saved_item_id", schema_string)]
           ["file_names"; "run_id"] |})].

(** ** Create and configure the MCP server *)

Inductive Request : Type :=
| ListToolsRequest
| CallToolRequest_ (request : CallToolRequest).

Inductive Reply : Type :=
| ListToolsResult (tools : list Tool)
| CallToolResult_ (result : CallToolResult).

(** The arguments of one [console.error] call. *)
Inductive console_arg : Type :=
| LogString (s : string)
| LogError (e : exn).

(** How start-up ends: the process has exited, or the server is connected
    and holds the gateway its handlers close over. *)
Inductive Process : Type :=
| Exited (exit_code : Z) (stderr : list (list console_arg))
| Serving (api : GumloopAPI).

(** [main] followed by the [catch] installed on it. [connect] is what
    [server.connect(transport)] settles to. *)
Definition main (env : string -> option string) (connect : option exn)
  : Process :=
  match new_GumloopAPI env with
  | inl error =>
      Exited 1 [[LogString "Fatal error in main():"; LogError error]]
  | inr api =>
      match connect with
      | None => Serving api
      | Some (Thrown _) =>
          Exited 1 [[LogString "Failed to start server with unknown error"]]
      | Some error =>
          Exited 1 [[LogString "Failed to start server:";
                     LogString (message_or "" error)]]
      end
  end.

Section Server.

Variable fetch : string -> RequestInit -> string + Response.

(** One request of the transport, answered by the registered handler. *)
Definition dispatch (api : GumloopAPI) (r : Request) : Reply * list event :=
  match r with
  | ListToolsRequest => (ListToolsResult (map snd TOOLS), [])
  | CallToolRequest_ request =>
      let out := handler fetch api request in
      (CallToolResult_ (fst out), snd out)
  end.

(** The request loop: requests are answered one at a time, in order. *)
Fixpoint serve (api : GumloopAPI) (requests : list Request)
  : list Reply * list event :=
  match requests with
  | [] => ([], [])
  | r :: rest =>
      let out := dispatch api r in
      let outs := serve api rest in
      (fst out :: fst outs, (snd out ++ snd outs)%list)
  end.

(** The whole process on a given environment and request stream. *)
Definition run (env : string -> option string) (connect : option exn)
    (requests : list Request) : Process * list Reply * list event :=
  match main env connect with
  | Serving api =>
      let outs := serve api requests in
      (Serving api, fst outs, snd outs)
  | exited => (exited, [], [])
  end.

End Server.

(** ** The contract of the specification *)

(** A field is present when the arguments hold a value for it. *)
Definition present (args : value) (field : string) : bool :=
  match get args field with VUndefined => false | _ => true end.

(** Required fields per tool (specification, section 4.1). *)
Definition spec_required (tool : string) : list string :=
  if String.eqb tool "startAutomation" then ["user_id"; "saved_item_id"]
  else if String.eqb tool "retrieveRunDetails" then ["run_id"]
  else if String.eqb tool "retrieveInputSchema" then ["saved_item_id"]
  else if String.eqb tool "uploadFile" then ["file_name"; "file_content"]
  else if String.eqb tool "uploadMultipleFiles" then ["files"]
  else if String.eqb tool "downloadFile"
       then ["file_name"; "run_id"; "saved_item_id"]
  else if String.eqb tool "downloadMultipleFiles" then ["file_names"; "run_id"]
  else [].

(** The tools with the constraint "user_id OR project_id required"
    (specification, section 4.1). *)
Definition either_or_tools : list string :=
  ["retrieveRunDetails"; "listSavedFlows"; "listWorkbooks";
   "retrieveInputSchema"; "uploadFile"; "uploadMultipleFiles";
   "downloadMultipleFiles"].

(** The either/or constraint as the specification words it: one of the
    pair is present. *)
Definition spec_either_or (tool : string) (args : value) : bool :=
  if existsb (String.eqb tool) either_or_tools
  then present args "user_id" || present args "project_id"
  else true.

(** The routing table (specification, section 4.2). *)
Definition spec_routes : list (string * (Method * string)) :=
  [("startAutomation", (POST, "/start_pipeline"));
   ("retrieveRunDetails", (GET, "/get_pl_run"));
   ("listSavedFlows", (GET, "/list_saved_items"));
   ("listWorkbooks", (GET, "/list_workbooks"));
   ("retrieveInputSchema", (GET, "/get_inputs"));
   ("uploadFile", (POST, "/upload_file"));
   ("uploadMultipleFiles", (POST, "/upload_files"));
   ("downloadFile", (POST, "/download_file"));
   ("downloadMultipleFiles", (POST, "/download_files"))].

(** The schema each case of the [switch] parses the arguments with. *)
Definition tool_schemas : list (string * ZodType) :=
  [("startAutomation", StartAutomationSchema);
   ("retrieveRunDetails", RetrieveRunDetailsSchema);
   ("listSavedFlows", ListSavedFlowsSchema);
   ("listWorkbooks", ListWorkbooksSchema);
   ("retrieveInputSchema", RetrieveInputSchemaSchema);
   ("uploadFile", UploadFileSchema);
   ("uploadMultipleFiles", UploadMultipleFilesSchema);
   ("downloadFile", DownloadFileSchema);
   ("downloadMultipleFiles", DownloadMultipleFilesSchema)].

(** The text a successful call of a tool reports for a payload. *)
Definition success_text (tool : string) (result : payload) : option string :=
  if String.eqb tool "downloadFile" then
    Some "File downloaded successfully. Binary data is available but not displayed here."
  else if String.eqb tool "downloadMultipleFiles" then
    Some "Files downloaded successfully as a zip archive. Binary data is available but not displayed here."
  else stringify_result result.

(** The message of the either/or refinement. *)
Definition either_or_issue : ZodIssue :=
  custom_issue "Either user_id or project_id is required" [].

(** The issue reported for a required string field that is missing. *)
Definition required_issue (field : string) : ZodIssue :=
  invalid_type_issue PT_string PT_undefined [PKey field].

(** Conformance of a value to an advertised input shape: it has the
    declared type, every required property is present, and every declared
    property that is present conforms. Undeclared properties are allowed. *)
Fixpoint conforms (s : JSONSchema) (v : value) : bool :=
  match s with
  | schema_string => match v with VStr _ => true | _ => false end
  | schema_array items =>
      match v with
      | VArr l => forallb (conforms items) l
      | _ => false
      end
  | schema_object properties required =>
      match v with
      | VObj _ =>
          forallb (present v) required
          && forallb (fun ks => match get v (fst ks) with
                                | VUndefined => true
                                | x => conforms (snd ks) x
                                end) properties
      | _ => false
      end
  end.

Definition is_optional (t : ZodType) : bool :=
  match t with z_optional _ => true | _ => false end.

(** An advertised shape and a zod schema describe the same fields: same
    keys in the same order, a zod key optional exactly when the shape does
    not require it. Refinements are not part of a shape. *)
Fixpoint compatible (s : JSONSchema) (t : ZodType) {struct t} : bool :=
  match t with
  | z_string => match s with schema_string => true | _ => false end
  | z_optional inner => compatible s inner
  | z_array element =>
      match s with
      | schema_array items => compatible items element
      | _ => false
      end
  | z_object shape =>
      match s with
      | schema_object properties required =>
          (fix each (props : list (string * JSONSchema))
                    (shape : list (string * ZodType)) {struct shape} : bool :=
             match props, shape with
             | [], [] => true
             | (k, sk) :: props', (k', tk) :: shape' =>
                 String.eqb k k'
                 && Bool.eqb (is_optional tk)
                             (negb (existsb (String.eqb k) required))
                 && compatible sk tk
                 && each props' shape'
             | _, _ => false
             end) properties shape
      | _ => false
      end
  | z_refine _ _ _ => false
  end.

(** The object schema under a refinement. *)
Definition unrefined (t : ZodType) : ZodType :=
  match t with z_refine inner _ _ => inner | _ => t end.

(** The shape of the object schema of a tool. *)
Definition shape_of (t : ZodType) : list (string * ZodType) :=
  match unrefined t with z_object shape => shape | _ => [] end.

(** One of the pair is a non-empty string. *)
Definition nonempty_string (args : value) (field : string) : bool :=
  match get args field with VStr s => negb (is_empty s) | _ => false end.

(** ** A decoder for JSON texts *)

(** The decoder reads the text of a JSON document back into a value, as
    [JSON.parse] does, for documents whose escapes denote ASCII
    characters; on any other text it gives [None]. *)
Module Decode.

Definition is_ws (c : ascii) : bool :=
  Ascii.eqb c " " || Ascii.eqb c newline || Ascii.eqb c "013"
  || Ascii.eqb c "009".

Fixpoint skip_ws (s : string) : string :=
  match s with
  | String c r => if is_ws c then skip_ws r else s
  | EmptyString => s
  end.

(** Drop a literal from the front of a text. *)
Fixpoint strip_prefix (lit s : string) : option string :=
  match lit with
  | EmptyString => Some s
  | String a lit' =>
      match s with
      | String b s' => if Ascii.eqb a b then strip_prefix lit' s' else None
      | EmptyString => None
      end
  end.

Definition hex_digit (c : ascii) : option nat :=
  let n := nat_of_ascii c in
  if Nat.leb 48 n && Nat.leb n 57 then Some (n - 48)
  else if Nat.leb 97 n && Nat.leb n 102 then Some (n - 87)
  else if Nat.leb 65 n && Nat.leb n 70 then Some (n - 55)
  else None.

Definition hex4 (a b c d : ascii) : option nat :=
  match hex_digit a, hex_digit b, hex_digit c, hex_digit d with
  | Some x, Some y, Some z, Some w => Some (((x * 16 + y) * 16 + z) * 16 + w)
  | _, _, _, _ => None
  end.

(** The character a two-character escape stands for. *)
Definition unescape (c : ascii) : option ascii :=
  if Ascii.eqb c "b" then Some "008"%char
  else if Ascii.eqb c "t" then Some "009"%char
  else if Ascii.eqb c "n" then Some "010"%char
  else if Ascii.eqb c "f" then Some "012"%char
  else if Ascii.eqb c "r" then Some "013"%char
  else if Ascii.eqb c dquote then Some dquote
  else if Ascii.eqb c backslash then Some backslash
  else if Ascii.eqb c "/" then Some "/"%char
  else None.

Definition cons_char (c : ascii) (r : option (string * string))
  : option (string * string) :=
  match r with
  | Some (str, rest) => Some (String c str, rest)
  | None => None
  end.

(** The characters of a string literal, up to its closing quote. *)
Fixpoint parse_chars (s : string) : option (string * string) :=
  match s with
  | EmptyString => None
  | String c r =>
      if Ascii.eqb c dquote then Some ("", r)
      else if Ascii.eqb c backslash then
        match r with
        | EmptyString => None
        | String e r' =>
            if Ascii.eqb e "u" then
              match r' with
              | String h1 (String h2 (String h3 (String h4 r''))) =>
                  match hex4 h1 h2 h3 h4 with
                  | Some n =>
                      if Nat.ltb n 128
                      then cons_char (ascii_of_nat n) (parse_chars r'')
                      else None
                  | None => None
                  end
              | _ => None
              end
            else
              match unescape e with
              | Some ch => cons_char ch (parse_chars r')
              | None => None
              end
        end
      else if Nat.ltb (nat_of_ascii c) 32 then None
      else cons_char c (parse_chars r)
  end.

(** The characters of a number token. *)
Definition is_num_char (c : ascii) : bool :=
  is_digit c || Ascii.eqb c "-" || Ascii.eqb c "+" || Ascii.eqb c "."
  || Ascii.eqb c "e" || Ascii.eqb c "E".

(** The longest prefix made of the characters of a number. *)
Fixpoint span_num (s : string) : string * string :=
  match s with
  | String c r =>
      if is_num_char c
      then let tr := span_num r in (String c (fst tr), snd tr)
      else ("", s)
  | EmptyString => ("", "")
  end.

(** The longest prefix made of digits. *)
Fixpoint span_digits (s : string) : string * string :=
  match s with
  | String c r =>
      if is_digit c
      then let tr := span_digits r in (String c (fst tr), snd tr)
      else ("", s)
  | EmptyString => ("", "")
  end.

(** The integer a digit string denotes. *)
Definition digits_value (ds : string) : option Z :=
  match NilZero.int_of_string ds with
  | Some d => Some (Z.of_int d)
  | None => None
  end.

(** The digits of an exponent: at least one. *)
Definition exponent_digits (ds : string) : option Z :=
  if all_digits ds && negb (String.eqb ds "") then digits_value ds else None.

(** The exponent part of a number token, if any. *)
Definition parse_exponent (s : string) : option Z :=
  match s with
  | EmptyString => Some 0%Z
  | String c r =>
      if Ascii.eqb c "e" || Ascii.eqb c "E" then
        match r with
        | String sg ds =>
            if Ascii.eqb sg "-" then option_map Z.opp (exponent_digits ds)
            else if Ascii.eqb sg "+" then exponent_digits ds
            else exponent_digits r
        | EmptyString => None
        end
      else None
  end.

(** The integer part of a JSON number: a zero, or digits that do not
    begin with a zero. *)
Definition json_int (i : string) : bool :=
  all_digits i && (starts_nonzero i || String.eqb i "0").

(** The number a token denotes: integer part, fraction digits after a
    point, exponent. *)
Definition decode_unsigned (negative : bool) (s : string) : option Number :=
  let int := span_digits s in
  if json_int (fst int) then
    let frac :=
      match snd int with
      | String c r =>
          if Ascii.eqb c "." then
            let fr := span_digits r in
            if String.eqb (fst fr) "" then None else Some fr
          else Some ("", snd int)
      | EmptyString => Some ("", "")
      end in
    match frac with
    | Some fr =>
        match parse_exponent (snd fr) with
        | Some e =>
            Some (normal negative (fst int ++ fst fr)
                    (Z.of_nat (String.length (fst int)) + e))
        | None => None
        end
    | None => None
    end
  else None.

Definition decode_number (token : string) : option Number :=
  match token with
  | String c r =>
      if Ascii.eqb c "-" then decode_unsigned true r
      else decode_unsigned false token
  | EmptyString => None
  end.

(** A number: the double nearest to the decimal the token writes, an
    infinity when it is beyond the largest double. *)
Definition parse_number (s : string) : option (value * string) :=
  let tr := span_num s in
  match decode_number (fst tr) with
  | Some x => Some (VNum (to_Number x), snd tr)
  | None => None
  end.

(** An array index: the canonical decimal text of an integer below
    [2^32 - 1]. *)
Definition array_index (k : string) : option N :=
  match NilZero.uint_of_string k with
  | Some d =>
      let i := N.of_uint d in
      if String.eqb (NilZero.string_of_uint (N.to_uint i)) k
         && N.ltb i 4294967295
      then Some i
      else None
  | None => None
  end.

(** Giving an existing property a new value. *)
Fixpoint replace_property (m : list (string * value)) (k : string) (v : value)
  : list (string * value) :=
  match m with
  | [] => []
  | (k', v') :: r =>
      if String.eqb k k' then (k', v) :: r
      else (k', v') :: replace_property r k v
  end.

(** The place of a new array index among the properties: after the
    smaller indices, before everything else. *)
Fixpoint insert_index (i : N) (k : string) (v : value)
    (m : list (string * value)) : list (string * value) :=
  match m with
  | [] => [(k, v)]
  | (k', v') :: r =>
      match array_index k' with
      | Some j =>
          if N.ltb j i then (k', v') :: insert_index i k v r
          else (k, v) :: m
      | None => (k, v) :: m
      end
  end.

(** Defining a property: a repeated key keeps its place and takes the
    later value; a new array index goes among the indices, in ascending
    order; any other new key goes last. *)
Definition set_property (m : list (string * value)) (k : string) (v : value)
  : list (string * value) :=
  if existsb (String.eqb k) (map fst m) then replace_property m k v
  else
    match array_index k with
    | Some i => insert_index i k v m
    | None => (m ++ [(k, v)])%list
    end.

Definition make_object (members : list (string * value)) : value :=
  VObj (fold_left (fun m kv => set_property m (fst kv) (snd kv)) members []).

Section Loops.

Variable parse_value : string -> option (value * string).

(** The elements of a non-empty array, up to the closing bracket. *)
Fixpoint parse_elements (n : nat) (s : string)
  : option (list value * string) :=
  match n with
  | O => None
  | S n' =>
      match parse_value s with
      | Some (v, s1) =>
          match skip_ws s1 with
          | String d s2 =>
              if Ascii.eqb d "," then
                match parse_elements n' s2 with
                | Some (vs, s3) => Some (v :: vs, s3)
                | None => None
                end
              else if Ascii.eqb d "]" then Some ([v], s2)
              else None
          | EmptyString => None
          end
      | None => None
      end
  end.

(** The members of a non-empty object, up to the closing brace. *)
Fixpoint parse_members (n : nat) (s : string)
  : option (list (string * value) * string) :=
  match n with
  | O => None
  | S n' =>
      match skip_ws s with
      | String q s0 =>
          if Ascii.eqb q dquote then
            match parse_chars s0 with
            | Some (k, s1) =>
                match skip_ws s1 with
                | String c s2 =>
                    if Ascii.eqb c ":" then
                      match parse_value s2 with
                      | Some (v, s3) =>
                          match skip_ws s3 with
                          | String d s4 =>
                              if Ascii.eqb d "," then
                                match parse_members n' s4 with
                                | Some (ms, s5) => Some ((k, v) :: ms, s5)
                                | None => None
                                end
                              else if Ascii.eqb d "}" then Some ([(k, v)], s4)
                              else None
                          | EmptyString => None
                          end
                      | None => None
                      end
                    else None
                | EmptyString => None
                end
            | None => None
            end
          else None
      | EmptyString => None
      end
  end.

End Loops.

(** One value at the front of a text; [fuel] bounds the nesting depth and
    the number of elements of an array or object. *)
Fixpoint parse_value (fuel : nat) (s : string) : option (value * string) :=
  match fuel with
  | O => None
  | S fuel' =>
      match skip_ws s with
      | EmptyString => None
      | String c r =>
          if Ascii.eqb c dquote then
            match parse_chars r with
            | Some (str, rest) => Some (VStr str, rest)
            | None => None
            end
          else if Ascii.eqb c "[" then
            match skip_ws r with
            | EmptyString => None
            | String c' r' =>
                if Ascii.eqb c' "]" then Some (VArr [], r')
                else
                  match parse_elements (parse_value fuel') fuel' r with
                  | Some (vs, rest) => Some (VArr vs, rest)
                  | None => None
                  end
            end
          else if Ascii.eqb c "{" then
            match skip_ws r with
            | EmptyString => None
            | String c' r' =>
                if Ascii.eqb c' "}" then Some (VObj [], r')
                else
                  match parse_members (parse_value fuel') fuel' r with
                  | Some (ms, rest) => Some (make_object ms, rest)
                  | None => None
                  end
            end
          else
            match strip_prefix "null" (String c r) with
            | Some rest => Some (VNull, rest)
            | None =>
                match strip_prefix "true" (String c r) with
                | Some rest => Some (VBool true, rest)
                | None =>
                    match strip_prefix "false" (String c r) with
                    | Some rest => Some (VBool false, rest)
                    | None => parse_number (String c r)
                    end
                end
            end
      end
  end.

(** [JSON.parse(text)]: one value with nothing but white space after it. *)
Definition JSON_parse (text : string) : option value :=
  match parse_value (S (String.length text)) text with
  | Some (v, rest) => if is_empty (skip_ws rest) then Some v else None
  | None => None
  end.

End Decode.
Import Decode.

(** Values with a JSON form: no [undefined] inside, and the keys of
    every object distinct. *)
Fixpoint distinct (keys : list string) : bool :=
  match keys with
  | [] => true
  | k :: r => negb (existsb (String.eqb k) r) && distinct r
  end.

Fixpoint is_json (v : value) : bool :=
  match v with
  | VUndefined => false
  | VNull | VBool _ | VNum _ | VStr _ => true
  | VArr l => forallb is_json l
  | VObj m =>
      distinct (map fst m) && forallb (fun kv => is_json (snd kv)) m
  end.

(** The order in which an object enumerates its keys: the array indices
    in ascending order, then the other keys. *)
Fixpoint property_order (keys : list string) : bool :=
  match keys with
  | [] => true
  | k :: r =>
      match array_index k with
      | Some i =>
          forallb (fun k' => match array_index k' with
                             | Some j => N.ltb i j
                             | None => true
                             end) r
      | None =>
          forallb (fun k' => match array_index k' with
                             | Some _ => false
                             | None => true
                             end) r
      end
      && property_order r
  end.

(** The values [JSON.parse] produces: every number a double or an
    infinity, the keys of every object distinct and in enumeration order,
    no [undefined] inside. *)
Fixpoint is_decoded (v : value) : bool :=
  match v with
  | VUndefined => false
  | VNull | VBool _ | VStr _ => true
  | VNum n => is_number n
  | VArr l => forallb is_decoded l
  | VObj m =>
      distinct (map fst m) && property_order (map fst m)
      && forallb (fun kv => is_decoded (snd kv)) m
  end.

(** Among them, the documents: the values without an infinity inside,
    which a JSON text can write. *)
Fixpoint is_document (v : value) : bool :=
  match v with
  | VUndefined => false
  | VNull | VBool _ | VStr _ => true
  | VNum n => is_number n && is_finite n
  | VArr l => forallb is_document l
  | VObj m =>
      distinct (map fst m) && property_order (map fst m)
      && forallb (fun kv => is_document (snd kv)) m
  end.

(** The document [JSON.stringify] writes for a value: [null] stands for
    an infinity. *)
Fixpoint json_form (v : value) : value :=
  match v with
  | VNum n => if is_finite n then v else VNull
  | VArr l => VArr (map json_form l)
  | VObj m => VObj (map (fun kv => (fst kv, json_form (snd kv))) m)
  | _ => v
  end.

(** Number of nodes of a value. *)
Fixpoint size (v : value) : nat :=
  match v with
  | VArr l => S (list_sum (map size l))
  | VObj m => S (list_sum (map (fun kv => size (snd kv)) m))
  | _ => 1
  end.

(** ** Auxiliary definitions for the proofs *)

(** The pairs an object schema computes for its keys. *)
Fixpoint parse_keys (shape : list (string * ZodType)) (p : list PathElem)
    (input : value) : list (string * ParseReturn * bool) :=
  match shape with
  | [] => []
  | (key, keyValidator) :: rest =>
      (key, _parse keyValidator (p ++ [PKey key])%list (get input key),
       has_key input key) :: parse_keys rest p input
  end.

(** [get] on the property list of an object. *)
Definition get_list (m : list (string * value)) (k : string) : value :=
  match lookup k m with Some v => v | None => VUndefined end.

(** The validator an object schema declares for a key. *)
Fixpoint validator_of (key : string) (shape : list (string * ZodType))
  : option ZodType :=
  match shape with
  | [] => None
  | (k, t) :: rest => if String.eqb key k then Some t else validator_of key rest
  end.

(** Schemas without refinements. *)
Fixpoint plain (t : ZodType) : bool :=
  match t with
  | z_string => true
  | z_optional inner => plain inner
  | z_array element => plain element
  | z_object shape =>
      (fix each (shape : list (string * ZodType)) : bool :=
         match shape with
         | [] => true
         | (_, t) :: rest => plain t && each rest
         end) shape
  | z_refine _ _ _ => false
  end.

(** Texts made of white space only. *)
Fixpoint all_ws (s : string) : bool :=
  match s with
  | EmptyString => true
  | String c r => is_ws c && all_ws r
  end.

(** Texts made of the characters of a number only. *)
Fixpoint all_num (s : string) : bool :=
  match s with
  | EmptyString => true
  | String c r => is_num_char c && all_num r
  end.

(** A text that does not begin with a digit, or with a point. *)
Definition not_digit_first (s : string) : bool :=
  match s with
  | String c _ => negb (is_digit c)
  | EmptyString => true
  end.

Definition not_point_first (s : string) : bool :=
  match s with
  | String c _ => negb (Ascii.eqb c ".")
  | EmptyString => true
  end.

(** The unsigned part of the text of a number. *)
Definition unsigned_text (ds : string) (n : Z) : string :=
  Number_toString (Finite false ds n).

(** A key that is not an array index. *)
Definition is_name (k : string) : bool :=
  match array_index k with Some _ => false | None => true end.

(** A text that does not continue a number. *)
Definition delimited (rest : string) : bool :=
  match rest with
  | EmptyString => true
  | String c _ => negb (is_num_char c)
  end.

(** The characters a serialized value can begin with. *)
Definition value_start (c : ascii) : bool :=
  is_num_char c || Ascii.eqb c dquote || Ascii.eqb c "[" || Ascii.eqb c "{"
  || Ascii.eqb c "n" || Ascii.eqb c "t" || Ascii.eqb c "f".

(** A text that begins like a serialized value. *)
Definition starts_value (s : string) : bool :=
  match s with
  | EmptyString => false
  | String c _ => value_start c
  end.

(** The text [JSON.stringify(v, null, 2)] prints for a value nested at
    the given indentation. *)
Definition print2 (indent : string) (v : value) : string :=
  match serialize "  " indent v with Some s => s | None => "null" end.

(** One printed member of an object. *)
Definition member2 (indent : string) (kv : string * value) : string :=
  Quote (fst kv) ++ ":" ++ " " ++ print2 indent (snd kv).

(** The round trip of one value: it prints, and what is printed decodes
    to the value, leaving what follows. *)
Definition round_trips (v : value) : Prop :=
  forall indent rest fuel,
    all_ws indent = true -> is_document v = true -> size v <= fuel ->
    delimited rest = true ->
    serialize "  " indent v = Some (print2 indent v)
    /\ parse_value fuel (print2 indent v ++ rest) = Some (v, rest).

(** The events that read the body of a response. *)
Definition body_read (e : event) : Prop := e = EvJson \/ e = EvArrayBuffer.

(** A value that is neither [undefined] nor [null]. *)
Definition is_present (v : value) : bool :=
  match v with VUndefined | VNull => false | _ => true end.

(** A sample gateway and sample responses, used to instantiate the
    statements below. *)
Definition sample_api : GumloopAPI :=
  {| baseUrl := "https://api.gumloop.com/api/v1"; apiKey := "secret" |}.

Definition sample_document : value :=
  VObj [("run_id", VStr "r1"); ("state", VStr "RUNNING");
        ("log", VArr [VStr "Starting"; VNull]); ("retries", VNum 0)].

Definition sample_json_response : Response :=
  {| status := 200; statusText := "OK";
     content_type := Some "application/json; charset=utf-8";
     json := inr sample_document; arrayBuffer := "" |}.

(** What [response.json()] gives for the body
    [{"run_id": "r1", "10": "tenth", "2": "second", "progress": 0.5,
      "budget": 1e21, "drift": -1.25e-7, "seq": 9007199254740993,
      "limit": 1e999, "log": ["Starting", null, 0, -120]}]:
    the indices first, the sequence number rounded, the limit infinite. *)
Definition sample_numbers : value :=
  VObj [("2", VStr "second"); ("10", VStr "tenth"); ("run_id", VStr "r1");
        ("progress", VNum (Finite false "5" 0));
        ("budget", VNum 1000000000000000000000);
        ("drift", VNum (Finite true "125" (-6)));
        ("seq", VNum 9007199254740993);
        ("limit", VNum (Infinity false));
        ("log", VArr [VStr "Starting"; VNull; VNum 0; VNum (-120)])].

Definition sample_numbers_response : Response :=
  {| status := 200; statusText := "OK";
     content_type := Some "application/json";
     json := inr sample_numbers; arrayBuffer := "" |}.

Definition sample_not_found : Response :=
  {| status := 404; statusText := "Not Found";
     content_type := Some "text/html";
     json := inl "Unexpected token"; arrayBuffer := "<html></html>" |}.

Definition sample_binary_response : Response :=
  {| status := 200; statusText := "OK";
     content_type := Some "application/octet-stream";
     json := inl "Unexpected token"; arrayBuffer := "PK" |}.

Definition sample_broken_json : Response :=
  {| status := 200; statusText := "OK";
     content_type := Some "application/json";
     json := inl "Unexpected end of JSON input"; arrayBuffer := "{" |}.

(** The registry entry of [listSavedFlows]. *)
Definition sample_tool : Tool :=
  {| tool_name := "listSavedFlows";
     description := "Retrieves a list of all saved flows for a user or project";
     inputSchema :=
       schema_object
         [("user_id", schema_string); ("project_id", schema_string)] [] |}.

(** The network that answers every request with the same response. *)
Definition always (r : Response) : string -> RequestInit -> string + Response :=
  fun _ _ => inr r.

(** ** Further definitions for the remaining code *)

(** Every required key of an advertised shape is one of its declared
    properties, at every level. *)
Fixpoint well_declared (s : JSONSchema) : bool :=
  match s with
  | schema_string => true
  | schema_array items => well_declared items
  | schema_object properties required =>
      forallb (fun k => existsb (String.eqb k) (map fst properties)) required
      && forallb (fun ks => well_declared (snd ks)) properties
  end.

(** No array schema has optional elements. *)
Fixpoint elements_required (t : ZodType) : bool :=
  match t with
  | z_string => true
  | z_optional inner => elements_required inner
  | z_array element => negb (is_optional element) && elements_required element
  | z_object shape =>
      (fix each (shape : list (string * ZodType)) : bool :=
         match shape with
         | [] => true
         | (_, t) :: rest => elements_required t && each rest
         end) shape
  | z_refine inner _ _ => elements_required inner
  end.

(** The fields among [keys] that the arguments give as strings, with
    their values, in the order of [keys]. *)
Definition string_fields (args : value) (keys : list string)
  : list (string * string) :=
  flat_map (fun k => match get args k with
                     | VStr s => [(k, s)]
                     | _ => []
                     end) keys.

(** Validators for a string, required or optional. *)
Definition string_validator (t : ZodType) : bool :=
  match t with
  | z_string => true
  | z_optional z_string => true
  | _ => false
  end.

(** Shapes whose fields are all strings. *)
Definition string_shape (shape : list (string * ZodType)) : bool :=
  forallb (fun kt => string_validator (snd kt)
                     && negb (String.eqb (fst kt) "__proto__")) shape.

(** The issues the combinators build: the one of a type check or the
    one of a refinement. *)
Definition standard_issue (i : ZodIssue) : Prop :=
  (exists exp rec p, i = invalid_type_issue exp rec p)
  \/ (exists msg p, i = custom_issue msg p).

(** ** The query string and the request body, read back *)

(** The application/x-www-form-urlencoded parser of the URL standard,
    the inverse the remote side applies to a query string. *)
Fixpoint urldecode (s : string) : option string :=
  match s with
  | EmptyString => Some ""
  | String c r =>
      if Ascii.eqb c "+" then option_map (String " "%char) (urldecode r)
      else if Ascii.eqb c "%" then
        match r with
        | String h1 (String h2 r') =>
            match Decode.hex_digit h1, Decode.hex_digit h2 with
            | Some a, Some b =>
                option_map (String (ascii_of_nat (a * 16 + b))) (urldecode r')
            | _, _ => None
            end
        | _ => None
        end
      else option_map (String c) (urldecode r)
  end.

(** The text up to the first [sep], and what follows it if there is one. *)
Fixpoint break_at (sep : ascii) (s : string) : string * option string :=
  match s with
  | EmptyString => ("", None)
  | String c r =>
      if Ascii.eqb c sep then ("", Some r)
      else let br := break_at sep r in (String c (fst br), snd br)
  end.

Fixpoint split_on (sep : ascii) (s : string) : list string :=
  match s with
  | EmptyString => [""]
  | String c r =>
      if Ascii.eqb c sep then "" :: split_on sep r
      else match split_on sep r with
           | x :: xs => String c x :: xs
           | [] => [String c ""]
           end
  end.

Definition parse_pair (segment : string) : option (string * string) :=
  let br := break_at "=" segment in
  match urldecode (fst br),
        urldecode (match snd br with Some v => v | None => "" end) with
  | Some k, Some v => Some (k, v)
  | _, _ => None
  end.

Fixpoint sequence {A : Type} (l : list (option A)) : option (list A) :=
  match l with
  | [] => Some []
  | x :: r =>
      match x, sequence r with
      | Some a, Some r' => Some (a :: r')
      | _, _ => None
      end
  end.

Definition URLSearchParams_parse (s : string) : option URLSearchParams :=
  sequence
    (map parse_pair
         (filter (fun segment => negb (String.eqb segment ""))
                 (split_on "&" s))).

(** No character of the text is [sep]. *)
Fixpoint no_char (sep : ascii) (s : string) : bool :=
  match s with
  | EmptyString => true
  | String c r => negb (Ascii.eqb c sep) && no_char sep r
  end.

(** The characters a serialized query is made of. *)
Definition query_char (c : ascii) : bool :=
  urlencoded_safe c
  || existsb (Ascii.eqb c) ["+"; "%"; "&"; "="]%char.

Fixpoint query_text (s : string) : bool :=
  match s with
  | EmptyString => true
  | String c r => query_char c && query_text r
  end.

Definition pair_text (kv : string * string) : string :=
  urlencode (fst kv) ++ "=" ++ urlencode (snd kv).

(** The text [JSON.stringify(v)] prints for a value, [null] standing for
    what has no JSON form inside an array. *)
Definition print0 (v : value) : string :=
  match serialize "" "" v with Some s => s | None => "null" end.

Definition member0 (kv : string * value) : string :=
  Quote (fst kv) ++ ":" ++ print0 (snd kv).

Definition round_trips0 (v : value) : Prop :=
  forall rest fuel,
    is_document v = true -> size v <= fuel -> delimited rest = true ->
    parse_value fuel (print0 v ++ rest) = Some (v, rest).

(** Every object schema inside a schema declares each key once, and no
    key is an array index. *)
Fixpoint distinct_shape (t : ZodType) : bool :=
  match t with
  | z_string => true
  | z_optional inner => distinct_shape inner
  | z_array element => distinct_shape element
  | z_object shape =>
      distinct (map fst shape)
      && forallb is_name (map fst shape)
      && forallb (fun kt => distinct_shape (snd kt)) shape
  | z_refine inner _ _ => distinct_shape inner
  end.

(** The fetches of a trace and the tool calls of a request stream. *)
Definition is_fetch (e : event) : bool :=
  match e with EvFetch _ _ => true | _ => false end.

Definition fetches (trace : list event) : nat :=
  length (filter is_fetch trace).

Definition is_call (r : Request) : bool :=
  match r with CallToolRequest_ _ => true | ListToolsRequest => false end.

Definition calls (requests : list Request) : nat :=
  length (filter is_call requests).

(** * Properties *)

(** ** The zod combinators *)

Section ZodType_induction.
Variable P : ZodType -> Prop.
Hypothesis Hstring : P z_string.
Hypothesis Hoptional : forall t, P t -> P (z_optional t).
Hypothesis Harray : forall t, P t -> P (z_array t).
Hypothesis Hobject :
  forall shape, Forall (fun kt => P (snd kt)) shape -> P (z_object shape).
Hypothesis Hrefine : forall t check msg, P t -> P (z_refine t check msg).

Fixpoint ZodType_ind' (t : ZodType) : P t :=
  match t with
  | z_string => Hstring
  | z_optional inner => Hoptional inner (ZodType_ind' inner)
  | z_array element => Harray element (ZodType_ind' element)
  | z_object shape =>
      Hobject shape
        ((fix go (shape : list (string * ZodType))
            : Forall (fun kt => P (snd kt)) shape :=
            match shape with
            | [] => Forall_nil _
            | kt :: r => Forall_cons _ (ZodType_ind' (snd kt)) (go r)
            end) shape)
  | z_refine inner check msg => Hrefine inner check msg (ZodType_ind' inner)
  end.
End ZodType_induction.

Lemma parse_object_eq shape p m :
  _parse (z_object shape) p (VObj m) =
  (concat (map (fun pr : string * ParseReturn * bool => fst (snd (fst pr)))
               (parse_keys shape p (VObj m))),
   match mergeObject
           (map (fun pr : string * ParseReturn * bool =>
                   (fst (fst pr), snd (snd (fst pr)), snd pr))
                (parse_keys shape p (VObj m))) with
   | Some m' => Some (VObj m')
   | None => None
   end).
Proof.
  cbn [_parse].
  assert (E : forall sh,
    (fix each (shape0 : list (string * ZodType))
       : list (string * ParseReturn * bool) :=
       match shape0 with
       | [] => []
       | (key, keyValidator) :: rest =>
           (key, _parse keyValidator (p ++ [PKey key])%list (get (VObj m) key),
            has_key (VObj m) key) :: each rest
       end) sh = parse_keys sh p (VObj m)).
  { induction sh as [|[k t] r IH]; [reflexivity|]. cbn [parse_keys]. now rewrite IH. }
  now rewrite E.
Qed.

Lemma mergeArray_none results :
  mergeArray results = None -> In None results.
Proof.
  induction results as [|[v|] r IH]; cbn; intros H.
  - discriminate.
  - right. apply IH. destruct (mergeArray r); [discriminate|reflexivity].
  - now left.
Qed.

Lemma mergeObject_none pairs :
  mergeObject pairs = None -> exists k b, In (k, None, b) pairs.
Proof.
  induction pairs as [|[[k [v|]] b] r IH]; cbn; intros H.
  - discriminate.
  - destruct (mergeObject r) eqn:E.
    + destruct (negb (k =? "__proto__") && _); discriminate.
    + destruct (IH eq_refl) as (k' & b' & Hin). exists k', b'. now right.
  - exists k, b. now left.
Qed.

(** A node that aborts has reported at least one issue. *)
Lemma aborted_has_issue t :
  forall p v issues, _parse t p v = (issues, None) -> issues <> [].
Proof.
  induction t as [|t IH|t IH|shape IH|t check msg IH] using ZodType_ind';
    intros p v issues H.
  - destruct v; cbn in H; inversion H; discriminate.
  - destruct v; cbn in H; try (now apply IH in H); inversion H.
  - destruct v as [| | | | |l|]; cbn [_parse] in H;
      try (inversion H; discriminate).
    unfold indexed in H. revert H. generalize 0 as i.
    intros i H. inversion H as [[H1 H2]]. clear H H1.
    destruct (mergeArray _) eqn:E in H2; [discriminate|]. clear H2.
    apply mergeArray_none in E.
    revert i E. induction l as [|x l IHl]; intros i E; cbn in E; [easy|].
    cbn. destruct E as [E|E].
    + destruct (_parse t (p ++ [PIndex i])%list x) as [iss r] eqn:Ex.
      cbn in E. subst r. apply IH in Ex. cbn.
      destruct iss; [easy|discriminate].
    + specialize (IHl _ E). intros C. apply app_eq_nil in C. tauto.
  - destruct v as [| | | | | |m]; try (cbn in H; inversion H; discriminate).
    rewrite parse_object_eq in H. inversion H as [[H1 H2]]. clear H H1.
    destruct (mergeObject _) eqn:E in H2; [discriminate|]. clear H2.
    apply mergeObject_none in E. destruct E as (k & b & E).
    induction shape as [|[k' t'] r IHr]; [easy|].
    inversion IH as [|? ? IHt IHrest]; subst.
    cbn [parse_keys map In concat fst snd] in E |- *.
    destruct E as [E|E].
    + destruct (_parse t' (p ++ [PKey k'])%list (get (VObj m) k'))
        as [iss o] eqn:Ex.
      cbn [fst snd] in E |- *. inversion E; subst. apply IHt in Ex.
      destruct iss; [easy|discriminate].
    + specialize (IHr IHrest E). intros C. apply app_eq_nil in C. tauto.
  - cbn in H. destruct (_parse t p v) as [iss r] eqn:E. cbn in H.
    destruct r as [x|].
    + destruct (truthy (check x)); inversion H.
    + inversion H; subst. now apply IH in E.
Qed.

Lemma mergeObject_keys pairs m k :
  mergeObject pairs = Some m ->
  lookup k m <> None -> In k (map (fun pr => fst (fst pr)) pairs).
Proof.
  revert m. induction pairs as [|[[k0 [v0|]] b0] r IH]; cbn [mergeObject];
    intros m H Hk.
  - inversion H; subst. now cbn in Hk.
  - destruct (mergeObject r) as [mr|] eqn:E; [|discriminate].
    cbn [map fst In].
    destruct (negb (k0 =? "__proto__") && _); inversion H; subst.
    + cbn [lookup] in Hk. destruct (String.eqb_spec k k0); [now left|].
      right. now apply (IH mr).
    + right. now apply (IH m).
  - discriminate.
Qed.

Lemma mergeObject_in_none l m k b :
  In (k, None, b) l -> mergeObject l = Some m -> False.
Proof.
  revert m. induction l as [|[[k0 [v0|]] b0] r IH];
    cbn [mergeObject In]; intros m Hin E; [easy| |discriminate E].
  destruct Hin as [Hin|Hin]; [discriminate Hin|].
  destruct (mergeObject r) as [mr|] eqn:Er; [|discriminate E].
  now apply (IH mr).
Qed.

Lemma distinct_not_in k r :
  existsb (String.eqb k) r = false -> ~ In k r.
Proof.
  intros H Hin. assert (existsb (String.eqb k) r = true).
  { apply existsb_exists. exists k. split; [assumption|apply String.eqb_refl]. }
  congruence.
Qed.

(** The value an object schema outputs under a key is the one the key's
    validator returned. *)
Lemma mergeObject_get pairs m k x b :
  mergeObject pairs = Some m ->
  distinct (map (fun pr => fst (fst pr)) pairs) = true ->
  In (k, Some x, b) pairs -> k <> "__proto__" ->
  get_list m k = x.
Proof.
  unfold get_list.
  revert m. induction pairs as [|[[k0 [v0|]] b0] r IH]; cbn [mergeObject];
    intros m H Hd Hin Hk; [easy| |discriminate].
  destruct (mergeObject r) as [mr|] eqn:E; [|discriminate].
  cbn [map fst distinct] in Hd. apply andb_prop in Hd. destruct Hd as [Hd1 Hd2].
  apply negb_true_iff in Hd1. apply distinct_not_in in Hd1.
  destruct Hin as [Hin|Hin].
  - inversion Hin; subst k0 v0 b0.
    assert (Hn : lookup k mr = None).
    { destruct (lookup k mr) eqn:L; [|reflexivity]. exfalso. apply Hd1.
      apply (mergeObject_keys r mr k E). congruence. }
    apply String.eqb_neq in Hk. rewrite Hk in H. cbn [negb andb] in H.
    destruct x, b; cbn in H; inversion H; subst;
      cbn [lookup]; rewrite ?String.eqb_refl, ?Hn; reflexivity.
  - assert (Hne : k <> k0).
    { intros ->. apply Hd1.
      apply (in_map (fun pr : string * option value * bool => fst (fst pr)))
        in Hin. exact Hin. }
    apply String.eqb_neq in Hne.
    destruct (negb (k0 =? "__proto__") && _); inversion H; subst.
    + cbn [lookup]. rewrite Hne. now apply IH.
    + now apply IH.
Qed.

Lemma parse_keys_in shape p input k t :
  validator_of k shape = Some t ->
  In (k, _parse t (p ++ [PKey k])%list (get input k), has_key input k)
     (parse_keys shape p input).
Proof.
  induction shape as [|[k0 t0] r IH]; cbn [validator_of parse_keys]; [easy|].
  destruct (String.eqb_spec k k0) as [->|Hne]; intros H.
  - inversion H; subst. now left.
  - right. now apply IH.
Qed.

Lemma parse_keys_names shape p input :
  map (fun pr => fst (fst pr))
      (map (fun pr : string * ParseReturn * bool =>
              (fst (fst pr), snd (snd (fst pr)), snd pr))
           (parse_keys shape p input))
  = map fst shape.
Proof.
  induction shape as [|[k t] r IH]; [reflexivity|].
  cbn [parse_keys map fst snd]. now rewrite IH.
Qed.

Lemma object_get shape p m issues out k t :
  _parse (z_object shape) p (VObj m) = (issues, Some out) ->
  distinct (map fst shape) = true ->
  validator_of k shape = Some t -> k <> "__proto__" ->
  exists x,
    snd (_parse t (p ++ [PKey k])%list (get (VObj m) k)) = Some x
    /\ get out k = x.
Proof.
  rewrite parse_object_eq. intros H Hd Hv Hk.
  inversion H as [[H1 H2]]. clear H H1.
  destruct (mergeObject _) as [m'|] eqn:E in H2; [|discriminate].
  inversion H2; subst out. clear H2.
  pose proof (parse_keys_in shape p (VObj m) k t Hv) as Hin.
  destruct (_parse t (p ++ [PKey k])%list (get (VObj m) k)) as [iss [x|]] eqn:Ex.
  - exists x. split; [reflexivity|].
    change (get (VObj m') k) with (get_list m' k).
    apply (mergeObject_get _ m' k x (has_key (VObj m) k) E).
    + now rewrite parse_keys_names.
    + apply (in_map (fun pr : string * ParseReturn * bool =>
                       (fst (fst pr), snd (snd (fst pr)), snd pr))) in Hin.
      exact Hin.
    + assumption.
  - exfalso.
    apply (in_map (fun pr : string * ParseReturn * bool =>
                     (fst (fst pr), snd (snd (fst pr)), snd pr))) in Hin.
    cbn [fst snd] in Hin.
    exact (mergeObject_in_none _ _ _ _ Hin E).
Qed.

(** An optional string validator returns its input. *)
Lemma optional_string_id p v x :
  snd (_parse (z_optional z_string) p v) = Some x -> x = v.
Proof. destruct v; cbn; intros H; inversion H; reflexivity. Qed.

Lemma required_present v required k :
  forallb (present v) required = true ->
  existsb (String.eqb k) required = true -> present v k = true.
Proof.
  intros Hf He. apply existsb_exists in He. destruct He as (k' & Hin & Heq).
  apply String.eqb_eq in Heq. subst k'. rewrite forallb_forall in Hf. auto.
Qed.

(** Arguments that conform to an advertised shape pass the zod schema
    that is compatible with it. *)
Lemma conforms_parse t :
  forall s v p, compatible s t = true -> conforms s v = true ->
  exists v', _parse t p v = ([], Some v').
Proof.
  induction t as [|t IH|t IH|shape IH|t check msg IH] using ZodType_ind';
    intros s v p Hc Hv.
  - destruct s; try discriminate. destruct v; try discriminate.
    eexists; reflexivity.
  - cbn [compatible] in Hc. destruct (IH s v p Hc Hv) as [v' E].
    destruct v; cbn [_parse]; eauto. eexists; reflexivity.
  - destruct s as [|items|]; try discriminate. cbn [compatible] in Hc.
    destruct v as [| | | | |l|]; try discriminate. cbn [conforms] in Hv.
    cbn [_parse]. unfold indexed. generalize 0 as i.
    assert (A : forall i, exists l',
      concat (map fst (map (fun ix => _parse t (p ++ [PIndex (fst ix)])%list (snd ix))
                           (indexed_from i l))) = []
      /\ mergeArray (map snd (map (fun ix => _parse t (p ++ [PIndex (fst ix)])%list (snd ix))
                           (indexed_from i l))) = Some l').
    { induction l as [|x l IHl]; intros i.
      - exists []. split; reflexivity.
      - cbn [forallb] in Hv. apply andb_prop in Hv. destruct Hv as [Hx Hl].
        destruct (IHl Hl (S i)) as (l' & E1 & E2).
        destruct (IH items x (p ++ [PIndex i])%list Hc Hx) as [x' Ex].
        exists (x' :: l'). cbn [indexed_from map fst snd concat mergeArray].
        rewrite Ex. cbn [fst snd app mergeArray]. rewrite E1, E2. split; reflexivity. }
    intros i. destruct (A i) as (l' & E1 & E2). rewrite E1, E2. eauto.
  - destruct s as [| |props required]; try discriminate.
    destruct v as [| | | | | |m]; try discriminate.
    cbn [conforms] in Hv. apply andb_prop in Hv. destruct Hv as [Hreq Hprops].
    cbn [compatible] in Hc. rewrite parse_object_eq.
    assert (A : exists m',
      concat (map (fun pr : string * ParseReturn * bool => fst (snd (fst pr)))
                  (parse_keys shape p (VObj m))) = []
      /\ mergeObject
           (map (fun pr : string * ParseReturn * bool =>
                   (fst (fst pr), snd (snd (fst pr)), snd pr))
                (parse_keys shape p (VObj m))) = Some m').
    { revert props Hc Hprops.
      induction shape as [|[k' tk] shape' IHs]; intros props Hc Hprops.
      - exists []. split; reflexivity.
      - destruct props as [|[k sk] props']; [discriminate|].
        inversion IH as [|? ? IHt IHrest]; subst. cbn [snd] in IHt.
        apply andb_prop in Hc. destruct Hc as [Hc Hrest].
        apply andb_prop in Hc. destruct Hc as [Hc Hcompat].
        apply andb_prop in Hc. destruct Hc as [Hkey Hopt].
        apply String.eqb_eq in Hkey. subst k'.
        cbn [forallb fst snd] in Hprops. apply andb_prop in Hprops.
        destruct Hprops as [Hk Hprops].
        destruct (IHs IHrest props' Hrest Hprops) as (m' & E1 & E2).
        assert (Ek : exists x, _parse tk (p ++ [PKey k])%list (get (VObj m) k)
                               = ([], Some x)).
        { destruct (get (VObj m) k) eqn:G;
            try (apply (IHt sk _ _ Hcompat); exact Hk).
          destruct (existsb (String.eqb k) required) eqn:R.
          - pose proof (required_present _ _ _ Hreq R) as Hp.
            unfold present in Hp. rewrite G in Hp. discriminate.
          - destruct tk; try discriminate. eexists; reflexivity. }
        destruct Ek as [x Ex].
        cbn [parse_keys map fst snd concat mergeObject]. rewrite Ex.
        cbn [fst snd app]. rewrite E1, E2.
        destruct (negb (k =? "__proto__") && _); eauto. }
    destruct A as (m' & E1 & E2). rewrite E1, E2. eauto.
  - discriminate.
Qed.

(** A schema without refinements reports type issues only. *)
Lemma plain_issue_codes t :
  plain t = true ->
  forall p v, Forall (fun i => code i = invalid_type) (fst (_parse t p v)).
Proof.
  induction t as [|t IH|t IH|shape IH|t check msg IH] using ZodType_ind';
    intros Hp p v.
  - destruct v; cbn; repeat constructor.
  - destruct v; cbn [_parse]; try (apply IH; exact Hp). constructor.
  - destruct v as [| | | | |l|]; try solve [cbn; repeat constructor].
    cbn [_parse fst]. unfold indexed. generalize 0 as i.
    induction l as [|x l IHl]; intros i; cbn [indexed_from map concat fst snd];
      [constructor|].
    apply Forall_app. split; [apply IH; exact Hp|apply IHl].
  - destruct v as [| | | | | |m]; try solve [cbn; repeat constructor].
    rewrite parse_object_eq. cbn [fst].
    revert Hp. induction shape as [|[k t] shape' IHs]; intros Hp;
      cbn [parse_keys map concat fst snd]; [constructor|].
    inversion IH as [|? ? IHt IHrest]; subst. cbn [snd] in IHt.
    cbn [plain] in Hp. apply andb_prop in Hp. destruct Hp as [Hp1 Hp2].
    apply Forall_app. split; [apply IHt; exact Hp1|].
    apply IHs; assumption.
  - discriminate.
Qed.

(** ** The either/or refinement *)

Lemma parse_refine_eq inner check msg p v :
  _parse (z_refine inner check msg) p v
  = match snd (_parse inner p v) with
    | None => _parse inner p v
    | Some x =>
        if truthy (check x) then _parse inner p v
        else ((fst (_parse inner p v) ++ [custom_issue msg p])%list, Some x)
    end.
Proof. reflexivity. Qed.

Section EitherOr.

Variable shape : list (string * ZodType).
Variable msg : string.
Hypothesis Hdistinct : distinct (map fst shape) = true.
Hypothesis Huser : validator_of "user_id" shape = Some (z_optional z_string).
Hypothesis Hproject :
  validator_of "project_id" shape = Some (z_optional z_string).

Let refined : ZodType :=
  z_refine (z_object shape)
    (fun data => or_else (get data "user_id") (get data "project_id")) msg.

(** The refinement sees the two fields as the caller sent them. *)
Lemma refine_sees_input args issues out :
  _parse (z_object shape) [] args = (issues, Some out) ->
  or_else (get out "user_id") (get out "project_id")
  = or_else (get args "user_id") (get args "project_id").
Proof.
  intros H. destruct args as [| | | | | |m]; try (cbn in H; discriminate H).
  destruct (object_get _ _ _ _ _ "user_id" _ H Hdistinct Huser)
    as (x & Ex & Gx); [discriminate|].
  destruct (object_get _ _ _ _ _ "project_id" _ H Hdistinct Hproject)
    as (y & Ey & Gy); [discriminate|].
  apply optional_string_id in Ex, Ey. now rewrite Gx, Gy, Ex, Ey.
Qed.

Lemma refine_accepts args out :
  _parse (z_object shape) [] args = ([], Some out) ->
  truthy (or_else (get args "user_id") (get args "project_id")) = true ->
  safeParse refined args = inr out.
Proof.
  intros H Ht. unfold safeParse, refined. rewrite parse_refine_eq, H.
  cbn [fst snd]. rewrite (refine_sees_input _ _ _ H), Ht. reflexivity.
Qed.

Lemma refine_rejects args :
  plain (z_object shape) = true ->
  truthy (or_else (get args "user_id") (get args "project_id")) = false ->
  exists issues,
    safeParse refined args = inl issues /\ issues <> []
    /\ (fst (_parse (z_object shape) [] args) = [] ->
        issues = [custom_issue msg []])
    /\ Forall (fun i => i = custom_issue msg [] \/ code i = invalid_type)
              issues.
Proof.
  intros Hplain Hf. unfold safeParse, refined. rewrite parse_refine_eq.
  pose proof (plain_issue_codes _ Hplain [] args) as Hcodes.
  destruct (_parse (z_object shape) [] args) as [iss [out|]] eqn:E;
    cbn [fst snd] in *.
  - rewrite (refine_sees_input _ _ _ E), Hf.
    exists (iss ++ [custom_issue msg []])%list. repeat split.
    + destruct iss; reflexivity.
    + destruct iss; discriminate.
    + intros ->. reflexivity.
    + apply Forall_app. split.
      * eapply Forall_impl; [|exact Hcodes]. intros i Hi. now right.
      * constructor; [now left|constructor].
  - pose proof (aborted_has_issue _ _ _ _ E) as Hne.
    exists iss. repeat split; try assumption.
    + destruct iss; [congruence|reflexivity].
    + intros ->. congruence.
    + eapply Forall_impl; [|exact Hcodes]. intros i Hi. now right.
Qed.

End EitherOr.

(** ** The effect monad and [makeRequest] *)

Lemma bind_ret {A B : Type} (a : A) (f : A -> M B) : bind (ret a) f = f a.
Proof. unfold bind, ret. cbn. now destruct (f a). Qed.

Lemma parse_accepts t args validated :
  safeParse t args = inr validated -> parse t args = ret validated.
Proof. unfold parse. now intros ->. Qed.

Lemma parse_rejects t args issues :
  safeParse t args = inl issues -> parse t args = throw (ZodError issues).
Proof. unfold parse. now intros ->. Qed.

(** Every case of the [switch] parses with the tool's schema, sends the
    validated arguments to the tool's endpoint and reports the tool's
    success text. *)
Lemma call_tool_dispatch fetch api tool S m p args :
  In (tool, S) tool_schemas -> In (tool, (m, p)) spec_routes ->
  call_tool fetch api {| name := tool; arguments := args |}
  = (validatedArgs <- parse S args ;;
     result <- makeRequest fetch api p m validatedArgs ;;
     ret (text_result (success_text tool result))).
Proof.
  intros HS HR. unfold tool_schemas, spec_routes in *. cbn [In] in HS, HR.
  repeat (destruct HS as [HS|HS];
          [inversion HS; subst; clear HS;
           repeat (destruct HR as [HR|HR];
                   [inversion HR; subst; clear HR; reflexivity|]);
           contradiction|]).
  contradiction.
Qed.

Lemma append_assoc (a b c : string) : (a ++ b) ++ c = a ++ (b ++ c).
Proof. induction a as [|x a IH]; cbn; [reflexivity|now rewrite IH]. Qed.

Lemma append_nil_r (a : string) : a ++ "" = a.
Proof. induction a as [|x a IH]; cbn; [reflexivity|now rewrite IH]. Qed.

(** [makeRequest] performs exactly one fetch, with the given method, to the
    given endpoint (followed by a query string at most), then reads the
    body at most once; it never throws a [ZodError]. *)
Lemma makeRequest_sends fetch api endpoint m data :
  exists url options rest outcome,
    makeRequest fetch api endpoint m data
    = (EvFetch url options :: rest, outcome)
    /\ method options = m
    /\ (exists q, url = baseUrl api ++ endpoint ++ q
                  /\ (q = "" \/ exists q', q = "?" ++ q'))
    /\ Forall body_read rest
    /\ (forall issues, outcome <> inl (ZodError issues)).
Proof.
  unfold makeRequest. cbv zeta.
  match goal with
  | |- context [await_fetch _ ?u ?o] =>
      remember u as url eqn:Eu; remember o as options eqn:Eo
  end.
  assert (Hm : method options = m) by (subst options; reflexivity).
  assert (Hq : exists q, url = baseUrl api ++ endpoint ++ q
                         /\ (q = "" \/ exists q', q = "?" ++ q')).
  { subst url. destruct m, (truthy data); cbn [fst];
      try (exists ""; rewrite append_nil_r; split; [reflexivity|now left]).
    destruct (is_empty _).
    - exists "". rewrite append_nil_r. split; [reflexivity|now left].
    - eexists. rewrite append_assoc. split; [reflexivity|]. right. eauto. }
  clear Eu Eo. unfold bind, await_fetch.
  destruct (fetch url options) as [e|response].
  - exists url, options, [], (inl (Error e)).
    repeat split; try assumption; [constructor|discriminate].
  - destruct (negb (ok response)).
    + do 4 eexists. split; [reflexivity|].
      repeat split; try assumption; [constructor|discriminate].
    + destruct (content_type response) as [ct|];
        [destruct (negb (is_empty ct) && includes "application/json" ct)|];
        unfold response_json, response_arrayBuffer; cbn [fst snd app];
        do 4 eexists; (split; [reflexivity|]);
        repeat split; try assumption;
        try (constructor; [unfold body_read; tauto|constructor]);
        destruct (json response); discriminate.
Qed.

(** A failing status makes [makeRequest] throw after the fetch, before any
    read of the body. *)
Lemma makeRequest_not_ok fetch api endpoint m data response :
  (forall url options, fetch url options = inr response) ->
  ok response = false ->
  exists url options,
    makeRequest fetch api endpoint m data
    = ([EvFetch url options],
       inl (Error ("Gumloop API request failed: "
                   ++ Z_to_string (status response) ++ " - "
                   ++ statusText response))).
Proof.
  intros Hf Hok. unfold makeRequest, bind, await_fetch.
  rewrite Hf, Hok. cbn. eauto.
Qed.

Lemma includes_nonempty sub s :
  includes sub s = true -> sub <> "" -> is_empty s = false.
Proof.
  intros H Hs. destruct s; [|reflexivity].
  destruct sub; [congruence|discriminate H].
Qed.

(** A successful JSON response makes [makeRequest] resolve to the decoded
    document. *)
Lemma makeRequest_json fetch api endpoint m data response contentType d :
  (forall url options, fetch url options = inr response) ->
  ok response = true ->
  content_type response = Some contentType ->
  includes "application/json" contentType = true ->
  json response = inr d ->
  exists url options,
    makeRequest fetch api endpoint m data
    = ([EvFetch url options; EvJson], inr (Document d)).
Proof.
  intros Hf Hok Hct Hinc Hj. unfold makeRequest, bind, await_fetch.
  rewrite Hf, Hok, Hct, Hinc.
  rewrite (includes_nonempty _ _ Hinc) by discriminate.
  unfold response_json. rewrite Hj. cbn. eauto.
Qed.

Lemma schema_has_route tool S :
  In (tool, S) tool_schemas -> exists m p, In (tool, (m, p)) spec_routes.
Proof.
  intros H. unfold tool_schemas in H. cbn [In] in H.
  repeat (destruct H as [H|H];
          [inversion H; subst; do 2 eexists; cbn; tauto|]).
  contradiction.
Qed.

Lemma handler_of_call_tool fetch api request :
  handler fetch api request
  = match call_tool fetch api request with
    | (trace, inr result) => (result, trace)
    | (trace, inl error) =>
        (error_result ("API error: " ++ message_or "Unknown error" error),
         trace)
    end.
Proof. reflexivity. Qed.

(** A call whose arguments pass the schema reaches the network: one fetch,
    to the route of the tool. *)
Lemma validated_call_is_routed fetch api tool S m p args validated :
  In (tool, S) tool_schemas -> In (tool, (m, p)) spec_routes ->
  safeParse S args = inr validated ->
  exists url options rest outcome,
    call_tool fetch api {| name := tool; arguments := args |}
    = (EvFetch url options :: rest, outcome)
    /\ method options = m
    /\ (exists q, url = baseUrl api ++ p ++ q
                  /\ (q = "" \/ exists q', q = "?" ++ q'))
    /\ Forall body_read rest
    /\ (forall issues, outcome <> inl (ZodError issues)).
Proof.
  intros HS HR Hv. rewrite (call_tool_dispatch _ _ _ _ _ _ _ HS HR).
  rewrite (parse_accepts _ _ _ Hv), bind_ret.
  destruct (makeRequest_sends fetch api p m validated)
    as (url & options & rest & outcome & E & Hm & Hq & Hr & Hz).
  rewrite E. exists url, options, rest.
  destruct outcome as [e|result]; unfold bind, ret; cbn [fst snd].
  - exists (inl e). repeat split; try assumption.
    intros issues C. apply (Hz issues). congruence.
  - eexists. rewrite app_nil_r. repeat split; try assumption. discriminate.
Qed.

(** ** Routing of valid calls *)

Ltac in_list := solve [repeat (first [left; reflexivity | right])].

Lemma truthy_or_else a b : truthy (or_else a b) = truthy a || truthy b.
Proof. unfold or_else. destruct (truthy a) eqn:E; [now rewrite E|reflexivity]. Qed.

Lemma nonempty_truthy args :
  nonempty_string args "user_id" || nonempty_string args "project_id" = true ->
  truthy (or_else (get args "user_id") (get args "project_id")) = true.
Proof.
  rewrite truthy_or_else. unfold nonempty_string, is_empty. intros H.
  apply orb_true_iff in H. apply orb_true_iff.
  destruct H as [H|H]; [left|right];
    match type of H with
    | match ?a with _ => _ end = true => destruct a; try discriminate H
    end; exact H.
Qed.

Lemma plain_schema_validates S s args :
  conforms s args = true -> compatible s S = true ->
  exists validated, safeParse S args = inr validated.
Proof.
  intros Hc Hs. destruct (conforms_parse S s args [] Hs Hc) as [v E].
  exists v. unfold safeParse. now rewrite E.
Qed.

Lemma refined_schema_validates shape msg s args :
  conforms s args = true -> compatible s (z_object shape) = true ->
  distinct (map fst shape) = true ->
  validator_of "user_id" shape = Some (z_optional z_string) ->
  validator_of "project_id" shape = Some (z_optional z_string) ->
  nonempty_string args "user_id" || nonempty_string args "project_id" = true ->
  exists validated,
    safeParse
      (z_refine (z_object shape)
         (fun data => or_else (get data "user_id") (get data "project_id"))
         msg) args = inr validated.
Proof.
  intros Hc Hs Hd Hu Hp Hn.
  destruct (conforms_parse (z_object shape) s args [] Hs Hc) as [v E].
  exists v. apply (refine_accepts shape msg Hd Hu Hp args v E).
  now apply nonempty_truthy.
Qed.

(** Arguments that conform to the advertised shape of a tool, with one of
    the pair a non-empty string where the tool asks for it, pass the
    schema of the tool. *)
Lemma conforming_args_validate tool t args :
  In (tool, t) TOOLS ->
  conforms (inputSchema t) args = true ->
  (In tool either_or_tools ->
   nonempty_string args "user_id" || nonempty_string args "project_id" = true) ->
  exists S validated,
    In (tool, S) tool_schemas /\ safeParse S args = inr validated.
Proof.
  intros HT Hc He. unfold TOOLS in HT. cbn [In] in HT.
  destruct HT as [HT|[HT|[HT|[HT|[HT|[HT|[HT|[HT|[HT|[]]]]]]]]]];
    inversion HT; subst; clear HT; cbn [inputSchema] in Hc.
  - destruct (plain_schema_validates StartAutomationSchema _ args Hc eq_refl)
      as [v E].
    exists StartAutomationSchema, v. split; [in_list|exact E].
  - destruct (refined_schema_validates (shape_of RetrieveRunDetailsSchema)
                "Either user_id or project_id is required"
                _ args Hc eq_refl eq_refl eq_refl eq_refl (He ltac:(in_list)))
      as [v E].
    exists RetrieveRunDetailsSchema, v. split; [in_list|exact E].
  - destruct (refined_schema_validates (shape_of ListSavedFlowsSchema)
                "Either user_id or project_id is required"
                _ args Hc eq_refl eq_refl eq_refl eq_refl (He ltac:(in_list)))
      as [v E].
    exists ListSavedFlowsSchema, v. split; [in_list|exact E].
  - destruct (refined_schema_validates (shape_of ListWorkbooksSchema)
                "Either user_id or project_id is required"
                _ args Hc eq_refl eq_refl eq_refl eq_refl (He ltac:(in_list)))
      as [v E].
    exists ListWorkbooksSchema, v. split; [in_list|exact E].
  - destruct (refined_schema_validates (shape_of RetrieveInputSchemaSchema)
                "Either user_id or project_id is required"
                _ args Hc eq_refl eq_refl eq_refl eq_refl (He ltac:(in_list)))
      as [v E].
    exists RetrieveInputSchemaSchema, v. split; [in_list|exact E].
  - destruct (refined_schema_validates (shape_of UploadFileSchema)
                "Either user_id or project_id is required"
                _ args Hc eq_refl eq_refl eq_refl eq_refl (He ltac:(in_list)))
      as [v E].
    exists UploadFileSchema, v. split; [in_list|exact E].
  - destruct (refined_schema_validates (shape_of UploadMultipleFilesSchema)
                "Either user_id or project_id is required"
                _ args Hc eq_refl eq_refl eq_refl eq_refl (He ltac:(in_list)))
      as [v E].
    exists UploadMultipleFilesSchema, v. split; [in_list|exact E].
  - destruct (plain_schema_validates DownloadFileSchema _ args Hc eq_refl)
      as [v E].
    exists DownloadFileSchema, v. split; [in_list|exact E].
  - destruct (refined_schema_validates (shape_of DownloadMultipleFilesSchema)
                "Either user_id or project_id is required"
                _ args Hc eq_refl eq_refl eq_refl eq_refl (He ltac:(in_list)))
      as [v E].
    exists DownloadMultipleFilesSchema, v. split; [in_list|exact E].
Qed.

(** C1 (as stated, refuted): the arguments
    [{user_id: "u1", saved_item_id: "s1", project_id: null}] of
    [startAutomation] hold every required field, and the tool has no
    either/or constraint, yet the schema rejects the call with a
    [ZodError] (the optional [project_id] is not a string) and no request
    is sent. *)
Lemma C1_counterexample_null_optional :
  forallb (present (VObj [("user_id", VStr "u1"); ("saved_item_id", VStr "s1");
                          ("project_id", VNull)]))
          (spec_required "startAutomation") = true
  /\ spec_either_or "startAutomation"
       (VObj [("user_id", VStr "u1"); ("saved_item_id", VStr "s1");
              ("project_id", VNull)]) = true
  /\ call_tool (always sample_json_response) sample_api
       {| name := "startAutomation";
          arguments := VObj [("user_id", VStr "u1");
                             ("saved_item_id", VStr "s1");
                             ("project_id", VNull)] |}
     = ([], inl (ZodError
                   [invalid_type_issue PT_string PT_null [PKey "project_id"]])).
Proof. repeat split; reflexivity. Qed.

(** C1 (amended): for every one of the nine tools, a call whose arguments
    conform to the advertised input shape (required fields present, every
    declared field that is present of its declared type) and, for the
    tools with the either/or constraint, have a non-empty string as
    [user_id] or [project_id], passes the schema of the tool and is
    dispatched to exactly the (method, path) pair of the routing table:
    one fetch with that method to the base address followed by that path
    (and a query string at most); no [ZodError] is raised. *)
Theorem C1_conforming_call_is_routed fetch api tool t args :
  In (tool, t) TOOLS ->
  conforms (inputSchema t) args = true ->
  (In tool either_or_tools ->
   nonempty_string args "user_id" || nonempty_string args "project_id" = true) ->
  exists S m p validated url options rest outcome,
    In (tool, S) tool_schemas /\ In (tool, (m, p)) spec_routes
    /\ safeParse S args = inr validated
    /\ call_tool fetch api {| name := tool; arguments := args |}
       = (EvFetch url options :: rest, outcome)
    /\ method options = m
    /\ (exists q, url = baseUrl api ++ p ++ q
                  /\ (q = "" \/ exists q', q = "?" ++ q'))
    /\ Forall body_read rest
    /\ (forall issues, outcome <> inl (ZodError issues)).
Proof.
  intros HT Hc He.
  destruct (conforming_args_validate tool t args HT Hc He)
    as (S & validated & HS & Hv).
  destruct (schema_has_route tool S HS) as (m & p & HR).
  destruct (validated_call_is_routed fetch api tool S m p args validated
              HS HR Hv) as (url & options & rest & outcome & H).
  exists S, m, p, validated, url, options, rest, outcome. tauto.
Qed.

Lemma C1_witness :
  exists S m p validated url options rest outcome,
    In ("retrieveRunDetails", S) tool_schemas
    /\ In ("retrieveRunDetails", (m, p)) spec_routes
    /\ safeParse S (VObj [("run_id", VStr "r1"); ("user_id", VStr "u1")])
       = inr validated
    /\ call_tool (always sample_json_response) sample_api
         {| name := "retrieveRunDetails";
            arguments := VObj [("run_id", VStr "r1"); ("user_id", VStr "u1")] |}
       = (EvFetch url options :: rest, outcome)
    /\ method options = m
    /\ (exists q, url = baseUrl sample_api ++ p ++ q
                  /\ (q = "" \/ exists q', q = "?" ++ q'))
    /\ Forall body_read rest
    /\ (forall issues, outcome <> inl (ZodError issues)).
Proof.
  apply (C1_conforming_call_is_routed (always sample_json_response) sample_api
           "retrieveRunDetails"
           {| tool_name := "retrieveRunDetails";
              description := "Retrieves details about a specific flow run";
              inputSchema :=
                schema_object
                  [("run_id", schema_string); ("user_id", schema_string);
                   ("project_id", schema_string)] ["run_id"] |}
           (VObj [("run_id", VStr "r1"); ("user_id", VStr "u1")])).
  - right. left. reflexivity.
  - reflexivity.
  - intros _. reflexivity.
Defined.

(** ** Rejected calls *)

(** A call whose arguments fail the schema throws the [ZodError] before
    any effect, and the handler reports it as an error result. *)
Lemma rejected_call fetch api tool S args issues :
  In (tool, S) tool_schemas -> safeParse S args = inl issues ->
  call_tool fetch api {| name := tool; arguments := args |}
  = ([], inl (ZodError issues))
  /\ handler fetch api {| name := tool; arguments := args |}
     = (error_result ("API error: " ++ ZodError_message issues), []).
Proof.
  intros HS E. destruct (schema_has_route tool S HS) as (m & p & HR).
  assert (Hc : call_tool fetch api {| name := tool; arguments := args |}
               = ([], inl (ZodError issues))).
  { rewrite (call_tool_dispatch _ _ _ _ _ _ _ HS HR).
    now rewrite (parse_rejects _ _ _ E). }
  split; [exact Hc|]. now rewrite handler_of_call_tool, Hc.
Qed.

(** The advertised shape of every tool agrees with the object schema the
    handler parses with. *)
Lemma registry_compatible tool t S :
  In (tool, t) TOOLS -> In (tool, S) tool_schemas ->
  compatible (inputSchema t) (unrefined S) = true.
Proof.
  intros HT HS. unfold TOOLS, tool_schemas in *. cbn [In] in HT, HS.
  repeat (destruct HT as [HT|HT];
          [inversion HT; subst; clear HT;
           repeat (destruct HS as [HS|HS];
                   [inversion HS; subst; clear HS; reflexivity|]);
           contradiction|]).
  contradiction.
Qed.

Lemma conforms_no_issue s t args :
  conforms s args = true -> compatible s t = true ->
  fst (_parse t [] args) = [].
Proof.
  intros Hc Hs. destruct (conforms_parse t s args [] Hs Hc) as [v E].
  now rewrite E.
Qed.

(** The seven schemas with the either/or refinement. *)
Lemma either_or_schema tool :
  In tool either_or_tools ->
  exists S,
    In (tool, S) tool_schemas
    /\ S = z_refine (z_object (shape_of S))
             (fun data => or_else (get data "user_id") (get data "project_id"))
             "Either user_id or project_id is required"
    /\ distinct (map fst (shape_of S)) = true
    /\ validator_of "user_id" (shape_of S) = Some (z_optional z_string)
    /\ validator_of "project_id" (shape_of S) = Some (z_optional z_string)
    /\ plain (z_object (shape_of S)) = true.
Proof.
  intros H. unfold either_or_tools in H. cbn [In] in H.
  destruct H as [H|[H|[H|[H|[H|[H|[H|[]]]]]]]]; subst tool.
  - exists RetrieveRunDetailsSchema. repeat split; try reflexivity. in_list.
  - exists ListSavedFlowsSchema. repeat split; try reflexivity. in_list.
  - exists ListWorkbooksSchema. repeat split; try reflexivity. in_list.
  - exists RetrieveInputSchemaSchema. repeat split; try reflexivity. in_list.
  - exists UploadFileSchema. repeat split; try reflexivity. in_list.
  - exists UploadMultipleFilesSchema. repeat split; try reflexivity. in_list.
  - exists DownloadMultipleFilesSchema. repeat split; try reflexivity. in_list.
Qed.

(** When neither of the pair is truthy, a tool with the either/or
    constraint rejects the call before any effect; when the arguments
    conform to the advertised shape, the only issue is the refinement's. *)
Lemma either_or_rejected fetch api tool args :
  In tool either_or_tools ->
  truthy (or_else (get args "user_id") (get args "project_id")) = false ->
  exists issues,
    issues <> []
    /\ call_tool fetch api {| name := tool; arguments := args |}
       = ([], inl (ZodError issues))
    /\ handler fetch api {| name := tool; arguments := args |}
       = (error_result ("API error: " ++ ZodError_message issues), [])
    /\ (forall t, In (tool, t) TOOLS ->
        conforms (inputSchema t) args = true -> issues = [either_or_issue])
    /\ Forall (fun i => i = either_or_issue \/ code i = invalid_type) issues.
Proof.
  intros Hin Hf.
  destruct (either_or_schema tool Hin) as (S & HS & ES & Hd & Hu & Hp & Hpl).
  destruct (refine_rejects (shape_of S)
              "Either user_id or project_id is required" Hd Hu Hp args Hpl Hf)
    as (issues & E & Hne & Honly & Hcodes).
  rewrite <- ES in E.
  destruct (rejected_call fetch api tool S args issues HS E) as [Hc Hh].
  exists issues. repeat split; try assumption.
  intros t HT Hconf. apply Honly.
  pose proof (registry_compatible tool t S HT HS) as Hcompat.
  rewrite ES in Hcompat. cbn [unrefined] in Hcompat.
  exact (conforms_no_issue _ _ _ Hconf Hcompat).
Qed.

Lemma includes_eq sub s :
  includes sub s
  = if String.prefix sub s then true
    else match s with
         | EmptyString => false
         | String _ r => includes sub r
         end.
Proof. destruct s; reflexivity. Qed.

Lemma prefix_refl s : String.prefix s s = true.
Proof.
  induction s as [|c s IH]; cbn; [reflexivity|].
  destruct (ascii_dec c c); [exact IH|congruence].
Qed.

Lemma includes_self pre sub : includes sub (pre ++ sub) = true.
Proof.
  induction pre as [|c pre IH].
  - cbn [append]. now rewrite includes_eq, prefix_refl.
  - change (String c pre ++ sub) with (String c (pre ++ sub)).
    rewrite includes_eq, IH. now destruct (String.prefix sub _).
Qed.

(** C2: for every tool with the either/or constraint, a call in which both
    [user_id] and [project_id] are omitted is rejected with a [ZodError]
    before any effect: the trace of the call is empty, so no request is
    sent. Every issue of the error is the either/or issue or a type issue
    of a declared field; when the other arguments conform to the
    advertised shape the error is exactly the either/or issue, whose
    message names the constraint. *)
Theorem C2_omitted_pair_is_rejected fetch api tool args :
  In tool either_or_tools ->
  get args "user_id" = VUndefined -> get args "project_id" = VUndefined ->
  exists issues,
    issues <> []
    /\ call_tool fetch api {| name := tool; arguments := args |}
       = ([], inl (ZodError issues))
    /\ handler fetch api {| name := tool; arguments := args |}
       = (error_result ("API error: " ++ ZodError_message issues), [])
    /\ (forall t, In (tool, t) TOOLS ->
        conforms (inputSchema t) args = true -> issues = [either_or_issue])
    /\ Forall (fun i => i = either_or_issue \/ code i = invalid_type) issues
    /\ includes "Either user_id or project_id is required"
         ("API error: " ++ ZodError_message [either_or_issue]) = true.
Proof.
  intros Hin Hu Hp.
  destruct (either_or_rejected fetch api tool args Hin) as (issues & H).
  { now rewrite Hu, Hp. }
  exists issues. repeat split; tauto.
Qed.

Lemma C2_witness :
  exists issues,
    issues <> []
    /\ call_tool (always sample_json_response) sample_api
         {| name := "uploadFile";
            arguments := VObj [("file_name", VStr "a.csv");
                               ("file_content", VStr "YQ==")] |}
       = ([], inl (ZodError issues))
    /\ handler (always sample_json_response) sample_api
         {| name := "uploadFile";
            arguments := VObj [("file_name", VStr "a.csv");
                               ("file_content", VStr "YQ==")] |}
       = (error_result ("API error: " ++ ZodError_message issues), [])
    /\ (forall t, In ("uploadFile", t) TOOLS ->
        conforms (inputSchema t)
          (VObj [("file_name", VStr "a.csv"); ("file_content", VStr "YQ==")])
        = true -> issues = [either_or_issue])
    /\ Forall (fun i => i = either_or_issue \/ code i = invalid_type) issues
    /\ includes "Either user_id or project_id is required"
         ("API error: " ++ ZodError_message [either_or_issue]) = true.
Proof.
  apply (C2_omitted_pair_is_rejected (always sample_json_response) sample_api
           "uploadFile"
           (VObj [("file_name", VStr "a.csv"); ("file_content", VStr "YQ==")])).
  - in_list.
  - reflexivity.
  - reflexivity.
Defined.

(** C10: for every tool with the either/or constraint, an empty string as
    [user_id] with [project_id] absent, or an empty string as [project_id]
    with [user_id] absent, fails the refinement: the call is rejected with
    a [ZodError] before any effect, and when the arguments conform to the
    advertised shape (the empty string is of the declared type) the error
    is exactly the either/or issue. *)
Theorem C10_empty_string_counts_as_absent fetch api tool args :
  In tool either_or_tools ->
  (get args "user_id" = VStr "" /\ get args "project_id" = VUndefined)
  \/ (get args "project_id" = VStr "" /\ get args "user_id" = VUndefined) ->
  exists issues,
    issues <> []
    /\ call_tool fetch api {| name := tool; arguments := args |}
       = ([], inl (ZodError issues))
    /\ handler fetch api {| name := tool; arguments := args |}
       = (error_result ("API error: " ++ ZodError_message issues), [])
    /\ (forall t, In (tool, t) TOOLS ->
        conforms (inputSchema t) args = true -> issues = [either_or_issue]).
Proof.
  intros Hin Hcase.
  destruct (either_or_rejected fetch api tool args Hin) as (issues & H).
  { destruct Hcase as [[-> ->]|[-> ->]]; reflexivity. }
  exists issues. tauto.
Qed.

Lemma C10_witness :
  exists issues,
    issues <> []
    /\ call_tool (always sample_json_response) sample_api
         {| name := "listWorkbooks";
            arguments := VObj [("project_id", VStr "")] |}
       = ([], inl (ZodError issues))
    /\ handler (always sample_json_response) sample_api
         {| name := "listWorkbooks";
            arguments := VObj [("project_id", VStr "")] |}
       = (error_result ("API error: " ++ ZodError_message issues), [])
    /\ (forall t, In ("listWorkbooks", t) TOOLS ->
        conforms (inputSchema t) (VObj [("project_id", VStr "")]) = true ->
        issues = [either_or_issue]).
Proof.
  apply (C10_empty_string_counts_as_absent (always sample_json_response)
           sample_api "listWorkbooks" (VObj [("project_id", VStr "")])).
  - in_list.
  - right. split; reflexivity.
Defined.

(** A required string field that is missing makes an object schema fail,
    with an issue at the field's path. *)
Lemma missing_required_rejected shape k args :
  validator_of k shape = Some z_string -> get args k = VUndefined ->
  exists issues,
    safeParse (z_object shape) args = inl issues /\ issues <> []
    /\ (forall m, args = VObj m -> In (required_issue k) issues).
Proof.
  intros Hv Hg. unfold safeParse.
  destruct args as [| | | | | |m];
    try (eexists; cbn; repeat split; [discriminate|intros ? C; discriminate C]).
  assert (Hin : In (required_issue k)
                   (fst (_parse (z_object shape) [] (VObj m)))).
  { rewrite parse_object_eq. cbn [fst].
    pose proof (parse_keys_in shape [] (VObj m) k z_string Hv) as Hk.
    rewrite Hg in Hk. apply in_concat.
    exists [required_issue k]. split; [|now left].
    apply (in_map (fun pr : string * ParseReturn * bool => fst (snd (fst pr))))
      in Hk. exact Hk. }
  destruct (_parse (z_object shape) [] (VObj m)) as [iss r].
  cbn [fst] in Hin. exists iss.
  destruct iss as [|i iss']; [contradiction|].
  split; [now destruct r|]. split; [discriminate|intros; assumption].
Qed.

(** C3: omitting a required field fails validation before any network
    activity. For [startAutomation] without [user_id] or without
    [saved_item_id], and for [downloadFile] without [file_name], [run_id]
    or [saved_item_id], the call throws a [ZodError] with an empty trace;
    when the arguments are an object the error holds the issue "Required"
    at the path of the missing field. *)
Theorem C3_missing_required_field fetch api tool field args :
  (tool = "startAutomation" /\ In field ["user_id"; "saved_item_id"])
  \/ (tool = "downloadFile"
      /\ In field ["file_name"; "run_id"; "saved_item_id"]) ->
  get args field = VUndefined ->
  exists issues,
    issues <> []
    /\ call_tool fetch api {| name := tool; arguments := args |}
       = ([], inl (ZodError issues))
    /\ handler fetch api {| name := tool; arguments := args |}
       = (error_result ("API error: " ++ ZodError_message issues), [])
    /\ (forall m, args = VObj m -> In (required_issue field) issues).
Proof.
  intros Hcase Hg.
  assert (HS : exists S, In (tool, S) tool_schemas
                         /\ S = z_object (shape_of S)
                         /\ validator_of field (shape_of S) = Some z_string).
  { destruct Hcase as [[-> Hf]|[-> Hf]]; cbn [In] in Hf.
    - exists StartAutomationSchema.
      destruct Hf as [<-|[<-|[]]]; repeat split; try reflexivity; in_list.
    - exists DownloadFileSchema.
      destruct Hf as [<-|[<-|[<-|[]]]]; repeat split; try reflexivity; in_list. }
  destruct HS as (S & HS & ES & Hv).
  destruct (missing_required_rejected (shape_of S) field args Hv Hg)
    as (issues & E & Hne & Hin).
  rewrite <- ES in E.
  destruct (rejected_call fetch api tool S args issues HS E) as [Hc Hh].
  exists issues. repeat split; assumption.
Qed.

Lemma C3_witness :
  exists issues,
    issues <> []
    /\ call_tool (always sample_json_response) sample_api
         {| name := "downloadFile";
            arguments := VObj [("file_name", VStr "out.csv");
                               ("saved_item_id", VStr "s1")] |}
       = ([], inl (ZodError issues))
    /\ handler (always sample_json_response) sample_api
         {| name := "downloadFile";
            arguments := VObj [("file_name", VStr "out.csv");
                               ("saved_item_id", VStr "s1")] |}
       = (error_result ("API error: " ++ ZodError_message issues), [])
    /\ (forall m,
        VObj [("file_name", VStr "out.csv"); ("saved_item_id", VStr "s1")]
        = VObj m -> In (required_issue "run_id") issues).
Proof.
  apply (C3_missing_required_field (always sample_json_response) sample_api
           "downloadFile" "run_id"
           (VObj [("file_name", VStr "out.csv"); ("saved_item_id", VStr "s1")])).
  - right. split; [reflexivity|in_list].
  - reflexivity.
Defined.

(** ** The query string of a GET request *)

Lemma query_params_fold entries acc :
  fold_left
    (fun (queryParams : URLSearchParams) (kv : string * value) =>
       match snd kv with
       | VUndefined | VNull => queryParams
       | v => URLSearchParams_append queryParams (fst kv) (ToString v)
       end) entries acc
  = (acc ++ map (fun kv => (fst kv, ToString (snd kv)))
                (filter (fun kv => is_present (snd kv)) entries))%list.
Proof.
  revert acc. induction entries as [|[k v] r IH]; intros acc; cbn [fold_left].
  - cbn. now rewrite app_nil_r.
  - rewrite IH. cbn [filter fst snd].
    destruct v; cbn [is_present map fst snd]; try reflexivity;
      unfold URLSearchParams_append; now rewrite <- app_assoc.
Qed.

(** C4: the query parameters of a GET-shaped call are exactly the entries
    of the argument object whose value is neither [undefined] nor [null],
    in order, each with its string value; a key is a query key only if it
    has such a value. The request is one fetch of the endpoint followed
    by ["?"] and the serialized parameters (nothing when there is none),
    without a body. In particular [listSavedFlows] called with only
    [user_id = "u1"] fetches [.../list_saved_items?user_id=u1], where no
    [project_id] key occurs. *)
Theorem C4_query_holds_present_fields fetch api endpoint data :
  query_params data
  = map (fun kv => (fst kv, ToString (snd kv)))
        (filter (fun kv => is_present (snd kv)) (Object_entries data))
  /\ (forall k, In k (map fst (query_params data)) <->
                exists v, In (k, v) (Object_entries data)
                          /\ v <> VUndefined /\ v <> VNull)
  /\ (exists rest outcome,
        makeRequest fetch api endpoint GET data
        = (EvFetch
             (baseUrl api ++ endpoint
              ++ (if truthy data
                     && negb (is_empty (URLSearchParams_toString
                                          (query_params data)))
                  then "?" ++ URLSearchParams_toString (query_params data)
                  else ""))
             {| method := GET;
                headers := [("Authorization", "Bearer " ++ apiKey api);
                            ("Content-Type", "application/json")];
                body := None |} :: rest, outcome))
  /\ snd (handler (always sample_json_response) sample_api
            {| name := "listSavedFlows";
               arguments := VObj [("user_id", VStr "u1")] |})
     = [EvFetch "https://api.gumloop.com/api/v1/list_saved_items?user_id=u1"
          {| method := GET;
             headers := [("Authorization", "Bearer secret");
                         ("Content-Type", "application/json")];
             body := None |};
        EvJson]
  /\ includes "project_id"
       "https://api.gumloop.com/api/v1/list_saved_items?user_id=u1" = false.
Proof.
  assert (Q : query_params data
              = map (fun kv => (fst kv, ToString (snd kv)))
                    (filter (fun kv => is_present (snd kv))
                            (Object_entries data))).
  { unfold query_params. now rewrite query_params_fold. }
  split; [exact Q|]. split; [|split; [|split; reflexivity]].
  - intros k. rewrite Q, map_map. cbn [fst]. rewrite in_map_iff. split.
    + intros ([k' v] & <- & Hin). apply filter_In in Hin.
      destruct Hin as [Hin Hp]. exists v. cbn [fst snd] in *.
      split; [exact Hin|]. now destruct v.
    + intros (v & Hin & Hu & Hn). exists (k, v). split; [reflexivity|].
      apply filter_In. split; [exact Hin|]. now destruct v.
  - unfold makeRequest. cbv zeta.
    destruct (truthy data); cbn [fst snd andb].
    + destruct (is_empty (URLSearchParams_toString (query_params data)));
        cbn [negb]; rewrite ?append_nil_r, ?append_assoc;
        unfold bind, await_fetch;
        match goal with
        | |- context [fetch ?u ?o] => destruct (fetch u o) as [e|response]
        end; do 2 eexists; reflexivity.
    + rewrite append_nil_r. unfold bind, await_fetch.
      match goal with
      | |- context [fetch ?u ?o] => destruct (fetch u o) as [e|response]
      end; do 2 eexists; reflexivity.
Qed.

(** ** Remote failures *)

(** C5: for every tool, when the arguments pass the schema and the remote
    response has a failing status, the call throws the [Error]
    "Gumloop API request failed: <status> - <status text>" right after the
    fetch: the trace holds the fetch alone, so the body is neither decoded
    nor read, and the handler returns an error-flagged result with that
    message. *)
Theorem C5_failing_status_is_remote_error
    fetch api tool S args validated response :
  In (tool, S) tool_schemas ->
  safeParse S args = inr validated ->
  (forall url options, fetch url options = inr response) ->
  ok response = false ->
  exists url options,
    call_tool fetch api {| name := tool; arguments := args |}
    = ([EvFetch url options],
       inl (Error ("Gumloop API request failed: "
                   ++ Z_to_string (status response) ++ " - "
                   ++ statusText response)))
    /\ handler fetch api {| name := tool; arguments := args |}
       = ({| content :=
               [{| type := "text";
                   text := Some ("API error: Gumloop API request failed: "
                                 ++ Z_to_string (status response) ++ " - "
                                 ++ statusText response) |}];
             isError := Some true |},
          [EvFetch url options]).
Proof.
  intros HS Hv Hf Hok. destruct (schema_has_route tool S HS) as (m & p & HR).
  destruct (makeRequest_not_ok fetch api p m validated response Hf Hok)
    as (url & options & E).
  assert (Hc : call_tool fetch api {| name := tool; arguments := args |}
               = ([EvFetch url options],
                  inl (Error ("Gumloop API request failed: "
                              ++ Z_to_string (status response) ++ " - "
                              ++ statusText response)))).
  { rewrite (call_tool_dispatch _ _ _ _ _ _ _ HS HR).
    rewrite (parse_accepts _ _ _ Hv), bind_ret. now rewrite E. }
  exists url, options. split; [exact Hc|].
  now rewrite handler_of_call_tool, Hc.
Qed.

Lemma C5_witness :
  exists url options,
    call_tool (always sample_not_found) sample_api
      {| name := "startAutomation";
         arguments := VObj [("user_id", VStr "u1");
                            ("saved_item_id", VStr "s1")] |}
    = ([EvFetch url options],
       inl (Error ("Gumloop API request failed: "
                   ++ Z_to_string (status sample_not_found) ++ " - "
                   ++ statusText sample_not_found)))
    /\ handler (always sample_not_found) sample_api
         {| name := "startAutomation";
            arguments := VObj [("user_id", VStr "u1");
                               ("saved_item_id", VStr "s1")] |}
       = ({| content :=
               [{| type := "text";
                   text := Some ("API error: Gumloop API request failed: "
                                 ++ Z_to_string (status sample_not_found)
                                 ++ " - " ++ statusText sample_not_found) |}];
             isError := Some true |},
          [EvFetch url options]).
Proof.
  apply (C5_failing_status_is_remote_error (always sample_not_found)
           sample_api "startAutomation" StartAutomationSchema
           (VObj [("user_id", VStr "u1"); ("saved_item_id", VStr "s1")])
           (VObj [("user_id", VStr "u1"); ("saved_item_id", VStr "s1")])
           sample_not_found).
  - left. reflexivity.
  - reflexivity.
  - reflexivity.
  - reflexivity.
Defined.

(** The status of the sample failure prints as the number 404. *)
Example sample_not_found_text :
  fst (handler (always sample_not_found) sample_api
         {| name := "startAutomation";
            arguments := VObj [("user_id", VStr "u1");
                               ("saved_item_id", VStr "s1")] |})
  = error_result "API error: Gumloop API request failed: 404 - Not Found".
Proof. reflexivity. Qed.

(** ** Unknown tools and the request loop *)

Lemma serve_app fetch api before after :
  serve fetch api (before ++ after)
  = ((fst (serve fetch api before) ++ fst (serve fetch api after))%list,
     (snd (serve fetch api before) ++ snd (serve fetch api after))%list).
Proof.
  induction before as [|r before IH]; cbn [serve app fst snd].
  - now destruct (serve fetch api after).
  - rewrite IH. cbn [fst snd]. now rewrite app_assoc.
Qed.

(** C7: a call whose tool name is not one of the nine registered names
    takes the default case: it returns, without throwing and without any
    effect, an error-flagged result whose text is "Unknown tool: "
    followed by the name (so the text contains the name). In the request
    loop the requests before and after it are answered as if it were not
    there. *)
Theorem C7_unknown_tool fetch api tool args before after :
  existsb (String.eqb tool) (map fst TOOLS) = false ->
  call_tool fetch api {| name := tool; arguments := args |}
  = ([], inr (error_result ("Unknown tool: " ++ tool)))
  /\ handler fetch api {| name := tool; arguments := args |}
     = ({| content := [{| type := "text";
                          text := Some ("Unknown tool: " ++ tool) |}];
           isError := Some true |}, [])
  /\ includes tool ("Unknown tool: " ++ tool) = true
  /\ serve fetch api
       (before ++ CallToolRequest_ {| name := tool; arguments := args |}
               :: after)%list
     = ((fst (serve fetch api before)
         ++ CallToolResult_ (error_result ("Unknown tool: " ++ tool))
         :: fst (serve fetch api after))%list,
        (snd (serve fetch api before) ++ snd (serve fetch api after))%list).
Proof.
  intros H. cbn [TOOLS map fst existsb] in H.
  repeat (apply orb_false_elim in H;
          let E := fresh "E" in destruct H as [E H]).
  assert (Hc : call_tool fetch api {| name := tool; arguments := args |}
               = ([], inr (error_result ("Unknown tool: " ++ tool)))).
  { unfold call_tool. cbn [name arguments].
    rewrite E, E0, E1, E2, E3, E4, E5, E6, E7. reflexivity. }
  assert (Hh : handler fetch api {| name := tool; arguments := args |}
               = (error_result ("Unknown tool: " ++ tool), [])).
  { now rewrite handler_of_call_tool, Hc. }
  repeat split; try assumption.
  - apply includes_self.
  - rewrite serve_app. cbn [serve dispatch fst snd]. rewrite Hh.
    reflexivity.
Qed.

Lemma C7_witness :
  call_tool (always sample_json_response) sample_api
    {| name := "deleteFlow"; arguments := VObj [] |}
  = ([], inr (error_result ("Unknown tool: " ++ "deleteFlow")))
  /\ handler (always sample_json_response) sample_api
       {| name := "deleteFlow"; arguments := VObj [] |}
     = ({| content := [{| type := "text";
                          text := Some ("Unknown tool: " ++ "deleteFlow") |}];
           isError := Some true |}, [])
  /\ includes "deleteFlow" ("Unknown tool: " ++ "deleteFlow") = true
  /\ serve (always sample_json_response) sample_api
       ([ListToolsRequest]
        ++ CallToolRequest_ {| name := "deleteFlow"; arguments := VObj [] |}
        :: [ListToolsRequest])%list
     = ((fst (serve (always sample_json_response) sample_api [ListToolsRequest])
         ++ CallToolResult_ (error_result ("Unknown tool: " ++ "deleteFlow"))
         :: fst (serve (always sample_json_response) sample_api
                   [ListToolsRequest]))%list,
        (snd (serve (always sample_json_response) sample_api [ListToolsRequest])
         ++ snd (serve (always sample_json_response) sample_api
                   [ListToolsRequest]))%list).
Proof.
  apply (C7_unknown_tool (always sample_json_response) sample_api
           "deleteFlow" (VObj []) [ListToolsRequest] [ListToolsRequest]).
  reflexivity.
Defined.

(** ** File downloads *)

(** C8: whenever a call of one of the two download tools succeeds (its
    result is not error-flagged), the result is the fixed confirmation
    message of the tool; the payload of the response is not part of it. *)
Theorem C8_download_reports_fixed_message fetch api tool args :
  tool = "downloadFile" \/ tool = "downloadMultipleFiles" ->
  isError (fst (handler fetch api {| name := tool; arguments := args |}))
  = None ->
  fst (handler fetch api {| name := tool; arguments := args |})
  = {| content :=
         [{| type := "text";
             text :=
               Some (if String.eqb tool "downloadFile"
                     then "File downloaded successfully. Binary data is available but not displayed here."
                     else "Files downloaded successfully as a zip archive. Binary data is available but not displayed here.") |}];
       isError := None |}.
Proof.
  intros Ht. rewrite handler_of_call_tool.
  assert (E : exists S m p,
             In (tool, S) tool_schemas /\ In (tool, (m, p)) spec_routes).
  { destruct Ht as [->| ->].
    - exists DownloadFileSchema, POST, "/download_file". split; in_list.
    - exists DownloadMultipleFilesSchema, POST, "/download_files".
      split; in_list. }
  destruct E as (S & m & p & HS & HR).
  rewrite (call_tool_dispatch _ _ _ _ _ _ _ HS HR).
  unfold parse. destruct (safeParse S args) as [issues|validated].
  - cbn. discriminate.
  - rewrite bind_ret.
    destruct (makeRequest fetch api p m validated) as [trace [e|result]].
    + cbn. discriminate.
    + intros _. destruct Ht as [->| ->]; reflexivity.
Qed.

Lemma C8_witness :
  fst (handler (always sample_binary_response) sample_api
         {| name := "downloadFile";
            arguments := VObj [("file_name", VStr "out.csv");
                               ("run_id", VStr "r1");
                               ("saved_item_id", VStr "s1")] |})
  = {| content :=
         [{| type := "text";
             text :=
               Some (if String.eqb "downloadFile" "downloadFile"
                     then "File downloaded successfully. Binary data is available but not displayed here."
                     else "Files downloaded successfully as a zip archive. Binary data is available but not displayed here.") |}];
       isError := None |}.
Proof.
  apply (C8_download_reports_fixed_message (always sample_binary_response)
           sample_api "downloadFile"
           (VObj [("file_name", VStr "out.csv"); ("run_id", VStr "r1");
                  ("saved_item_id", VStr "s1")])).
  - left. reflexivity.
  - reflexivity.
Defined.

(** ** Start-up *)

(** C9: when [GUMLOOP_API_KEY] is absent from the environment, the
    constructor of the gateway throws the configuration error, [main]
    ends in an exit with status 1 after one message on standard error,
    and the process answers no request and performs no effect. *)
Theorem C9_missing_key_fails_startup fetch env connect requests :
  env "GUMLOOP_API_KEY" = None ->
  new_GumloopAPI env
  = inl (Error "GUMLOOP_API_KEY environment variable is required")
  /\ main env connect
     = Exited 1
         [[LogString "Fatal error in main():";
           LogError (Error "GUMLOOP_API_KEY environment variable is required")]]
  /\ run fetch env connect requests
     = (Exited 1
          [[LogString "Fatal error in main():";
            LogError (Error "GUMLOOP_API_KEY environment variable is required")]],
        [], [])
  /\ (1 <> 0)%Z.
Proof.
  intros H. unfold run, main, new_GumloopAPI. rewrite H.
  repeat split. discriminate.
Qed.

Lemma C9_witness :
  new_GumloopAPI (fun _ => None)
  = inl (Error "GUMLOOP_API_KEY environment variable is required")
  /\ main (fun _ => None) None
     = Exited 1
         [[LogString "Fatal error in main():";
           LogError (Error "GUMLOOP_API_KEY environment variable is required")]]
  /\ run (always sample_json_response) (fun _ => None) None
       [ListToolsRequest]
     = (Exited 1
          [[LogString "Fatal error in main():";
            LogError (Error "GUMLOOP_API_KEY environment variable is required")]],
        [], [])
  /\ (1 <> 0)%Z.
Proof.
  apply (C9_missing_key_fails_startup (always sample_json_response)
           (fun _ => None) None [ListToolsRequest]).
  reflexivity.
Defined.

(** ** Decoding what [JSON.stringify] prints *)

Lemma skip_ws_cons c r :
  skip_ws (String c r) = if is_ws c then skip_ws r else String c r.
Proof. reflexivity. Qed.

Lemma append_cons c a b : String c a ++ b = String c (a ++ b).
Proof. reflexivity. Qed.

Lemma skip_ws_all ws s : all_ws ws = true -> skip_ws (ws ++ s) = skip_ws s.
Proof.
  induction ws as [|c ws IH]; [reflexivity|].
  cbn [all_ws]. intros H. apply andb_prop in H. destruct H as [Hc Hws].
  rewrite append_cons, skip_ws_cons, Hc. now apply IH.
Qed.

Lemma value_start_not_ws c : value_start c = true -> is_ws c = false.
Proof.
  destruct c as [[] [] [] [] [] [] [] []]; intros H;
    first [reflexivity | discriminate H].
Qed.

Lemma skip_ws_value s : starts_value s = true -> skip_ws s = s.
Proof.
  destruct s as [|c r]; [reflexivity|]. cbn [starts_value].
  intros H. now rewrite skip_ws_cons, (value_start_not_ws c H).
Qed.

(** One escaped character decodes to the character. *)
Lemma parse_chars_quote_char c tail :
  parse_chars (quote_char c ++ tail) = cons_char c (parse_chars tail).
Proof.
  destruct c as [[] [] [] [] [] [] [] []]; reflexivity.
Qed.

Lemma parse_chars_quote s rest :
  parse_chars (quote_chars s ++ String dquote rest) = Some (s, rest).
Proof.
  induction s as [|c s IH]; [reflexivity|].
  cbn [quote_chars]. rewrite append_assoc, parse_chars_quote_char, IH.
  reflexivity.
Qed.

Lemma span_num_cons c r :
  span_num (String c r)
  = if is_num_char c
    then (String c (fst (span_num r)), snd (span_num r))
    else ("", String c r).
Proof. reflexivity. Qed.

Lemma span_num_all tok rest :
  all_num tok = true -> delimited rest = true ->
  span_num (tok ++ rest) = (tok, rest).
Proof.
  intros Ht Hr. induction tok as [|c tok IH].
  - destruct rest as [|c r]; [reflexivity|]. cbn [append].
    cbn [delimited] in Hr. apply negb_true_iff in Hr.
    now rewrite span_num_cons, Hr.
  - cbn [all_num] in Ht. apply andb_prop in Ht. destruct Ht as [Hc Ht].
    rewrite append_cons, span_num_cons, Hc, (IH Ht). reflexivity.
Qed.

Lemma int_of_string_Z n :
  NilZero.int_of_string (Z_to_string n) = Some (Z.to_int n).
Proof.
  unfold Z_to_string. apply NilZero.isi.
  - destruct n; cbn; try discriminate;
      intros H; inversion H as [E]; now apply Unsigned.to_uint_nonnil in E.
  - destruct n; cbn; try discriminate;
      intros H; inversion H as [E]; now apply Unsigned.to_uint_nonnil in E.
Qed.

(** *** Numbers and their texts *)


Lemma append_nil_l (a : string) : "" ++ a = a.
Proof. reflexivity. Qed.

Lemma length_append a b :
  String.length (a ++ b) = String.length a + String.length b.
Proof. induction a as [|c a IH]; cbn; [reflexivity|now rewrite IH]. Qed.

Lemma span_digits_append a b :
  all_digits a = true -> not_digit_first b = true ->
  span_digits (a ++ b) = (a, b).
Proof.
  induction a as [|c a IH]; intros Ha Hb.
  - destruct b as [|c b]; [reflexivity|]. cbn in Hb |- *.
    apply negb_true_iff in Hb. now rewrite Hb.
  - cbn [all_digits] in Ha. apply andb_prop in Ha. destruct Ha as [Hc Ha].
    rewrite append_cons. cbn [span_digits]. now rewrite Hc, (IH Ha Hb).
Qed.

Lemma all_digits_append a b :
  all_digits (a ++ b) = all_digits a && all_digits b.
Proof.
  induction a as [|c a IH]; [reflexivity|].
  rewrite append_cons. cbn [all_digits]. now rewrite IH, andb_assoc.
Qed.

Lemma all_digits_zeros m : all_digits (zeros m) = true.
Proof. induction m; [reflexivity|exact IHm]. Qed.

Lemma length_zeros m : String.length (zeros m) = m.
Proof. induction m; cbn; congruence. Qed.

Lemma take_drop n s : string_take n s ++ string_drop n s = s.
Proof.
  revert s. induction n as [|n IH]; intros [|c s]; try reflexivity.
  cbn [string_take string_drop]. now rewrite append_cons, IH.
Qed.

Lemma length_take n s :
  n <= String.length s -> String.length (string_take n s) = n.
Proof.
  revert s. induction n as [|n IH]; intros [|c s] H; cbn in *; try lia.
  now rewrite IH by lia.
Qed.

Lemma all_digits_take n s :
  all_digits s = true -> all_digits (string_take n s) = true.
Proof.
  revert s. induction n as [|n IH]; intros [|c s] H; try reflexivity.
  cbn [all_digits string_take] in *. apply andb_prop in H.
  destruct H as [Hc Hs]. now rewrite Hc, IH.
Qed.

Lemma all_digits_drop n s :
  all_digits s = true -> all_digits (string_drop n s) = true.
Proof.
  revert s. induction n as [|n IH]; intros [|c s] H; try assumption.
  cbn [all_digits string_drop] in *. apply andb_prop in H.
  destruct H as [Hc Hs]. now apply IH.
Qed.

Lemma strip_trailing_zeros_all m : strip_trailing_zeros (zeros m) = "".
Proof. induction m as [|m IH]; [reflexivity|]. cbn. now rewrite IH. Qed.

Lemma strip_trailing_append ds m :
  ends_nonzero ds = true -> strip_trailing_zeros (ds ++ zeros m) = ds.
Proof.
  induction ds as [|c ds IH]; intros H; [discriminate H|].
  rewrite append_cons. cbn [strip_trailing_zeros].
  destruct ds as [|c' ds'].
  - cbn [append]. rewrite strip_trailing_zeros_all.
    cbn in H. apply negb_true_iff in H. now rewrite H.
  - rewrite IH by exact H. reflexivity.
Qed.

Lemma leading_zeros_append m ds :
  starts_nonzero ds = true -> leading_zeros (zeros m ++ ds) = m.
Proof.
  intros H. induction m as [|m IH].
  - destruct ds as [|c ds]; [discriminate H|]. cbn in H |- *.
    apply negb_true_iff in H. now rewrite H.
  - cbn. now rewrite IH.
Qed.

Lemma drop_zeros m ds : string_drop m (zeros m ++ ds) = ds.
Proof. induction m as [|m IH]; [now destruct ds|exact IH]. Qed.

(** Digits already in shortest form are kept, whatever zeros surround
    them. *)
Lemma normal_shortest negative ds n a b :
  starts_nonzero ds = true -> ends_nonzero ds = true ->
  normal negative (zeros a ++ ds ++ zeros b) n
  = Finite negative ds (n - Z.of_nat a).
Proof.
  intros Hs He. unfold normal.
  rewrite (leading_zeros_append a (ds ++ zeros b)), drop_zeros,
    (strip_trailing_append _ _ He).
  - destruct ds; [discriminate Hs|reflexivity].
  - destruct ds; [discriminate Hs|exact Hs].
Qed.

(** A printed integer decodes to the integer. *)

Lemma digits_value_Z n : digits_value (Z_to_string n) = Some n.
Proof. unfold digits_value. now rewrite int_of_string_Z, DecimalZ.of_to. Qed.

Lemma all_digits_uint d : all_digits (NilEmpty.string_of_uint d) = true.
Proof. induction d; cbn [NilEmpty.string_of_uint all_digits]; try rewrite IHd; reflexivity. Qed.

Lemma all_digits_Z_abs e :
  all_digits (Z_to_string (Z.abs e)) = true /\ Z_to_string (Z.abs e) <> "".
Proof.
  unfold Z_to_string, NilZero.string_of_int, NilZero.string_of_uint.
  destruct (Z.abs e) eqn:A.
  - split; [reflexivity|discriminate].
  - cbn [Z.to_int]. destruct (Pos.to_uint p);
      (split;
       [cbn [NilEmpty.string_of_uint all_digits];
        rewrite ?all_digits_uint; reflexivity
       |discriminate]).
  - pose proof (Z.abs_nonneg e). lia.
Qed.

Lemma exponent_digits_abs e :
  exponent_digits (Z_to_string (Z.abs e)) = Some (Z.abs e).
Proof.
  unfold exponent_digits. destruct (all_digits_Z_abs e) as [Ha Hn].
  apply String.eqb_neq in Hn. rewrite Ha, Hn. apply digits_value_Z.
Qed.

Lemma parse_exponent_print e :
  parse_exponent
    ("e" ++ (if Z.ltb e 0 then "-" else "+") ++ Z_to_string (Z.abs e))
  = Some e.
Proof.
  destruct (Z.ltb_spec e 0); cbn [append parse_exponent];
    change (Ascii.eqb "e" "e" || Ascii.eqb "e" "E") with true; cbv iota;
    [change (Ascii.eqb "-" "-") with true
    |change (Ascii.eqb "+" "-") with false;
     change (Ascii.eqb "+" "+") with true]; cbv iota;
    rewrite exponent_digits_abs; cbn [option_map]; f_equal; lia.
Qed.

Lemma is_digit_not_minus c : is_digit c = true -> Ascii.eqb c "-" = false.
Proof. destruct c as [[] [] [] [] [] [] [] []]; intros H; first [reflexivity|discriminate H]. Qed.


Lemma starts_not_minus ds :
  all_digits ds = true -> starts_nonzero ds = true ->
  exists c r, ds = String c r /\ is_digit c = true
              /\ Ascii.eqb c "-" = false /\ Ascii.eqb c "0" = false.
Proof.
  intros Ha Hs. destruct ds as [|c r]; [discriminate Hs|].
  cbn in Ha, Hs. apply andb_prop in Ha. destruct Ha as [Hc _].
  apply negb_true_iff in Hs. exists c, r.
  repeat split; try assumption. now apply is_digit_not_minus.
Qed.

Lemma Number_toString_sign negative ds n :
  Number_toString (Finite negative ds n)
  = (if negative then "-" else "") ++ unsigned_text ds n.
Proof. destruct negative; reflexivity. Qed.


Lemma decode_unsigned_int negative i tail e :
  json_int i = true ->
  not_digit_first tail = true -> not_point_first tail = true ->
  parse_exponent tail = Some e ->
  decode_unsigned negative (i ++ tail)
  = Some (normal negative i (Z.of_nat (String.length i) + e)).
Proof.
  intros Hi Hd Hp He. unfold decode_unsigned. cbv zeta.
  assert (Ha : all_digits i = true)
    by (unfold json_int in Hi; apply andb_prop in Hi; tauto).
  rewrite (span_digits_append i tail Ha Hd). cbn [fst snd]. rewrite Hi.
  destruct tail as [|c tail'].
  - cbn [fst snd]. rewrite He, append_nil_r. reflexivity.
  - cbn [not_point_first] in Hp. apply negb_true_iff in Hp. rewrite Hp.
    cbn [fst snd]. rewrite He, append_nil_r. reflexivity.
Qed.

Lemma decode_unsigned_frac negative i f tail e :
  json_int i = true -> all_digits f = true -> f <> "" ->
  not_digit_first tail = true ->
  parse_exponent tail = Some e ->
  decode_unsigned negative (i ++ "." ++ f ++ tail)
  = Some (normal negative (i ++ f) (Z.of_nat (String.length i) + e)).
Proof.
  intros Hi Hf Hn Hd He. unfold decode_unsigned. cbv zeta.
  assert (Ha : all_digits i = true)
    by (unfold json_int in Hi; apply andb_prop in Hi; tauto).
  rewrite (span_digits_append i ("." ++ f ++ tail) Ha eq_refl).
  cbn [fst snd]. rewrite Hi.
  cbn [append]. change (Ascii.eqb "." ".") with true. cbv iota.
  rewrite (span_digits_append f tail Hf Hd). cbn [fst snd].
  apply String.eqb_neq in Hn. rewrite Hn. cbn [fst snd]. now rewrite He.
Qed.

Lemma json_int_digits ds :
  all_digits ds = true -> starts_nonzero ds = true -> json_int ds = true.
Proof. intros Ha Hs. unfold json_int. now rewrite Ha, Hs. Qed.

Lemma starts_nonzero_append a b :
  starts_nonzero a = true -> starts_nonzero (a ++ b) = true.
Proof. destruct a; [discriminate|auto]. Qed.

Lemma starts_nonzero_take n s :
  starts_nonzero s = true -> starts_nonzero (string_take (S n) s) = true.
Proof. destruct s; [discriminate|auto]. Qed.

Lemma drop_nonempty n s :
  n < String.length s -> string_drop n s <> "".
Proof.
  revert s. induction n as [|n IH]; intros [|c s] H; cbn in *;
    try lia; try discriminate.
  apply IH. lia.
Qed.

Lemma not_digit_first_exponent t : not_digit_first ("e" ++ t) = true.
Proof. reflexivity. Qed.

Lemma decode_unsigned_text negative ds n :
  all_digits ds = true -> starts_nonzero ds = true ->
  ends_nonzero ds = true ->
  decode_unsigned negative (unsigned_text ds n) = Some (Finite negative ds n).
Proof.
  intros Ha Hs He.
  destruct (starts_not_minus ds Ha Hs) as (c & r & E & Hc & _ & Hz).
  assert (Hk : 1 <= String.length ds) by (subst ds; cbn; lia).
  assert (Hne : ds <> "") by (subst ds; discriminate).
  unfold unsigned_text, Number_toString. rewrite append_nil_l.
  destruct (Z.leb (-5) n && Z.leb n 21) eqn:R.
  - destruct (Z.leb_spec (Z.of_nat (String.length ds)) n) as [Hkn|Hkn].
    + (* digits, then zeros *)
      rewrite <- (append_nil_r (ds ++ zeros _)).
      rewrite (decode_unsigned_int negative _ "" 0);
        try reflexivity.
      * rewrite length_append, length_zeros.
        rewrite (normal_shortest negative ds _ 0 _ Hs He
                 : normal _ (ds ++ zeros _) _ = _).
        f_equal. f_equal. lia.
      * apply json_int_digits;
          [now rewrite all_digits_append, Ha, all_digits_zeros
          |now apply starts_nonzero_append].
    + destruct (Z.ltb_spec 0 n) as [Hn|Hn].
      * (* digits with a point inside *)
        rewrite <- (append_nil_r (string_drop _ ds)).
        rewrite (decode_unsigned_frac negative _ _ "" 0);
          try reflexivity.
        -- rewrite take_drop, length_take by lia.
           pose proof (normal_shortest negative ds
                         (Z.of_nat (Z.to_nat n) + 0) 0 0 Hs He) as N.
           cbn [zeros append] in N. rewrite append_nil_r in N.
           rewrite N. do 2 f_equal. lia.
        -- apply json_int_digits; [now apply all_digits_take|].
           destruct (Z.to_nat n) eqn:En; [lia|].
           now apply starts_nonzero_take.
        -- now apply all_digits_drop.
        -- apply drop_nonempty. lia.
      * (* a zero, a point, zeros, the digits *)
        change ("0." ++ zeros (Z.to_nat (- n)) ++ ds)
          with ("0" ++ "." ++ (zeros (Z.to_nat (- n)) ++ ds)).
        rewrite <- (append_nil_r (zeros _ ++ ds)).
        rewrite (decode_unsigned_frac negative "0" (zeros _ ++ ds) "" 0);
          try reflexivity.
        -- pose proof (normal_shortest negative ds
                         (Z.of_nat (String.length "0") + 0)
                         (S (Z.to_nat (- n))) 0 Hs He) as N.
           cbn [zeros] in N. rewrite append_nil_r in N.
           cbn [append] in N |- *.
           rewrite N. do 2 f_equal. cbn [String.length]. lia.
        -- now rewrite all_digits_append, all_digits_zeros, Ha.
        -- subst ds. destruct (zeros (Z.to_nat (- n))); discriminate.
  - (* exponent notation *)
    assert (Hj : json_int (String c "") = true).
    { unfold json_int. cbn [all_digits starts_nonzero].
      now rewrite Hc, Hz. }
    subst ds. destruct r as [|c' r'].
    + match goal with
      | |- decode_unsigned _ (String c ?t) = _ =>
          change (String c t) with (String c "" ++ t)
      end.
      rewrite (decode_unsigned_int negative (String c "") _ (n - 1) Hj);
        try reflexivity.
      * pose proof (normal_shortest negative (String c "")
                      (Z.of_nat (String.length (String c "")) + (n - 1))
                      0 0 Hs He) as N.
        cbn [zeros append] in N. rewrite N. do 2 f_equal.
        cbn [String.length]. lia.
      * apply parse_exponent_print.
    + match goal with
      | |- decode_unsigned _ (String c ?t) = _ =>
          change (String c t) with (String c "" ++ t)
      end.
      cbn [all_digits] in Ha. apply andb_prop in Ha. destruct Ha as [_ Ha].
      rewrite (decode_unsigned_frac negative (String c "") _ _ (n - 1) Hj);
        try reflexivity; try discriminate.
      * pose proof (normal_shortest negative (String c (String c' r'))
                      (Z.of_nat (String.length (String c "")) + (n - 1))
                      0 0 Hs He) as N.
        cbn [zeros append] in N. rewrite append_nil_r in N.
        cbn [append]. rewrite N. do 2 f_equal. cbn [String.length]. lia.
      * exact Ha.
      * apply parse_exponent_print.
Qed.

(** Decoding reads back the text of every number in shortest form. *)
Lemma decode_number_toString x :
  shortest_form x = true -> decode_number (Number_toString x) = Some x.
Proof.
  destruct x as [|negative ds n|negative]; [reflexivity| |discriminate].
  intros H. cbn [shortest_form] in H. apply andb_prop in H.
  destruct H as [H He]. apply andb_prop in H. destruct H as [Ha Hs].
  rewrite Number_toString_sign.
  pose proof (decode_unsigned_text negative ds n Ha Hs He) as D.
  destruct negative.
  - cbn [append decode_number]. exact D.
  - cbn [append]. unfold decode_number.
    destruct (unsigned_text ds n) as [|c r] eqn:U; [discriminate D|].
    assert (M : Ascii.eqb c "-" = false).
    { unfold decode_unsigned in D. cbv zeta in D.
      destruct (Ascii.eqb c "-") eqn:Ec; [|reflexivity].
      apply Ascii.eqb_eq in Ec. subst c. cbn in D. discriminate D. }
    now rewrite M.
Qed.

Lemma all_num_append a b : all_num (a ++ b) = all_num a && all_num b.
Proof.
  induction a as [|c a IH]; [reflexivity|].
  rewrite append_cons. cbn [all_num]. now rewrite IH, andb_assoc.
Qed.

Lemma all_digits_num s : all_digits s = true -> all_num s = true.
Proof.
  induction s as [|c s IH]; [reflexivity|]. cbn [all_digits all_num].
  intros H. apply andb_prop in H. destruct H as [Hc Hs].
  unfold is_num_char. now rewrite Hc, (IH Hs).
Qed.

Lemma all_digits_N n :
  all_digits (NilZero.string_of_uint (N.to_uint n)) = true.
Proof.
  unfold NilZero.string_of_uint.
  destruct (N.to_uint n); cbn [all_digits]; rewrite ?all_digits_uint;
    reflexivity.
Qed.

Lemma all_num_Z n : all_num (Z_to_string n) = true.
Proof.
  unfold Z_to_string, NilZero.string_of_int, NilZero.string_of_uint.
  destruct (Z.to_int n) as [d|d]; destruct d; cbn [all_num];
    rewrite ?(all_digits_num _ (all_digits_uint _)); reflexivity.
Qed.

Lemma all_num_toString x :
  shortest_form x = true -> all_num (Number_toString x) = true.
Proof.
  destruct x as [|negative ds n|negative]; [reflexivity| |discriminate].
  intros H. cbn [shortest_form] in H. apply andb_prop in H.
  destruct H as [H _]. apply andb_prop in H. destruct H as [Ha _].
  pose proof (all_digits_num _ Ha) as Hn.
  unfold Number_toString.
  rewrite all_num_append. apply andb_true_intro. split;
    [destruct negative; reflexivity|].
  destruct (Z.leb (-5) n && Z.leb n 21).
  - destruct (Z.leb _ n).
    + now rewrite all_num_append, Hn,
        (all_digits_num _ (all_digits_zeros _)).
    + destruct (Z.ltb 0 n).
      * rewrite !all_num_append,
          (all_digits_num _ (all_digits_take _ _ Ha)),
          (all_digits_num _ (all_digits_drop _ _ Ha)). reflexivity.
      * change ("0." ++ zeros (Z.to_nat (- n)) ++ ds)
          with ("0." ++ (zeros (Z.to_nat (- n)) ++ ds)).
        now rewrite !all_num_append, Hn,
          (all_digits_num _ (all_digits_zeros _)).
  - assert (Hx : all_num ("e" ++ (if Z.ltb (n - 1) 0 then "-" else "+")
                          ++ Z_to_string (Z.abs (n - 1))) = true).
    { rewrite !all_num_append, all_num_Z.
      destruct (Z.ltb (n - 1) 0); reflexivity. }
    destruct ds as [|c [|c' r']].
    + exact Hx.
    + cbn [all_num] in Hn |- *. apply andb_prop in Hn.
      destruct Hn as [Hc _]. now rewrite Hc, Hx.
    + change (all_num (String c (String c' r')))
        with (is_num_char c && all_num (String c' r')) in Hn.
      apply andb_prop in Hn. destruct Hn as [Hc Hr].
      remember (String c' r') as rr eqn:Err. clear Err.
      remember ("e" ++ (if Z.ltb (n - 1) 0 then "-" else "+")
                ++ Z_to_string (Z.abs (n - 1))) as ex eqn:Eex. clear Eex.
      cbn [all_num]. rewrite Hc.
      rewrite (all_num_append "." _), (all_num_append rr _), Hr, Hx.
      reflexivity.
Qed.

Lemma Number_toString_head x :
  shortest_form x = true ->
  exists c r, Number_toString x = String c r /\ is_num_char c = true.
Proof.
  intros H. pose proof (all_num_toString x H) as A.
  assert (N : Number_toString x <> "").
  { destruct x as [|negative ds n|negative];
      [discriminate| |discriminate H].
    cbn [shortest_form] in H. apply andb_prop in H.
    destruct H as [H _]. apply andb_prop in H. destruct H as [_ Hs].
    destruct ds as [|c r]; [discriminate Hs|].
    unfold Number_toString. destruct negative; [discriminate|].
    rewrite append_nil_l.
    destruct (Z.leb (-5) n && Z.leb n 21).
    - destruct (Z.leb _ n); [discriminate|].
      destruct (Z.ltb_spec 0 n) as [Hn|Hn]; [|discriminate].
      destruct (Z.to_nat n) eqn:E; [lia|discriminate].
    - destruct r; discriminate. }
  destruct (Number_toString x) as [|c r]; [congruence|].
  cbn [all_num] in A. apply andb_prop in A. exists c, r. tauto.
Qed.

Lemma strip_trailing_digits s :
  all_digits s = true -> all_digits (strip_trailing_zeros s) = true.
Proof.
  induction s as [|c s IH]; [reflexivity|]. cbn [all_digits].
  intros H. apply andb_prop in H. destruct H as [Hc Hs].
  cbn [strip_trailing_zeros]. specialize (IH Hs).
  destruct (strip_trailing_zeros s) as [|c' s'].
  - destruct (Ascii.eqb c "0"); [reflexivity|]. cbn. now rewrite Hc.
  - cbn [all_digits] in IH |- *. now rewrite Hc, IH.
Qed.

Lemma strip_trailing_ends s :
  strip_trailing_zeros s <> "" -> ends_nonzero (strip_trailing_zeros s) = true.
Proof.
  induction s as [|c s IH]; [intros H; now contradiction H|].
  cbn [strip_trailing_zeros].
  destruct (strip_trailing_zeros s) as [|c' s'].
  - destruct (Ascii.eqb c "0") eqn:E; [intros H; now contradiction H|].
    intros _. cbn. now rewrite E.
  - intros _. cbn [ends_nonzero]. apply IH. discriminate.
Qed.

Lemma strip_trailing_starts s :
  starts_nonzero s = true -> starts_nonzero (strip_trailing_zeros s) = true.
Proof.
  destruct s as [|c s]; [discriminate|]. cbn. intros H.
  apply negb_true_iff in H.
  destruct (strip_trailing_zeros s); rewrite ?H; cbn; now rewrite H.
Qed.

Lemma drop_leading_zeros s :
  string_drop (leading_zeros s) s = ""
  \/ starts_nonzero (string_drop (leading_zeros s) s) = true.
Proof.
  induction s as [|c s IH]; [now left|]. cbn [leading_zeros].
  destruct (Ascii.eqb c "0") eqn:E; [exact IH|].
  right. cbn. now rewrite E.
Qed.

(** [normal] always gives a number in shortest form. *)
Lemma normal_shortest_form negative ds n :
  all_digits ds = true -> shortest_form (normal negative ds n) = true.
Proof.
  intros Ha. unfold normal.
  pose proof (all_digits_drop (leading_zeros ds) ds Ha) as Hd.
  pose proof (strip_trailing_digits _ Hd) as Hsd.
  pose proof (strip_trailing_ends (string_drop (leading_zeros ds) ds)) as He.
  destruct (drop_leading_zeros ds) as [E|Hs].
  - rewrite E. reflexivity.
  - pose proof (strip_trailing_starts _ Hs) as Hss.
    destruct (strip_trailing_zeros (string_drop (leading_zeros ds) ds))
      as [|c r] eqn:S; [reflexivity|].
    cbn [shortest_form]. rewrite Hsd, Hss, He; [reflexivity|discriminate].
Qed.

Lemma Number_eqb_refl x : Number_eqb x x = true.
Proof.
  destruct x as [|s d n|s]; cbn; rewrite ?Bool.eqb_reflx, ?String.eqb_refl,
    ?Z.eqb_refl; reflexivity.
Qed.

Lemma Number_eqb_eq x y : Number_eqb x y = true -> x = y.
Proof.
  destruct x as [|s d n|s], y as [|s' d' n'|s']; cbn; intros H;
    try discriminate H; try reflexivity.
  - apply andb_prop in H. destruct H as [H Hn].
    apply andb_prop in H. destruct H as [Hs Hd].
    apply Bool.eqb_prop in Hs. apply String.eqb_eq in Hd.
    apply Z.eqb_eq in Hn. congruence.
  - apply Bool.eqb_prop in H. congruence.
Qed.

Lemma double_eqb_eq a t : double_eqb a (Some t) = true -> a = Some t.
Proof.
  destruct a as [[m e]|], t as [m' e']; cbn; intros H;
    [|discriminate H].
  apply andb_prop in H. destruct H as [Hm He].
  apply Z.eqb_eq in Hm. apply Z.eqb_eq in He. congruence.
Qed.

Lemma all_digits_Z_digits z : all_digits (Z_digits z) = true.
Proof. apply all_digits_N. Qed.

(** The candidates are decimals in shortest form. *)
Lemma candidates_shortest_form t k c :
  In c (candidates t k) -> shortest_form c = true.
Proof.
  unfold candidates. cbv zeta.
  repeat match goal with
         | |- context [if ?b then _ else _] => destruct b
         end;
    cbn [In]; intros [<-|[<-|[]]];
    apply normal_shortest_form, all_digits_Z_digits.
Qed.

(** What [shortest] finds rounds to the double it was found for. *)
Lemma shortest_some t u :
  shortest t = Some u ->
  double_of u = Some t /\ shortest_form u = true.
Proof.
  unfold shortest. intros H. apply find_some in H. destruct H as [Hin Hd].
  split; [now apply double_eqb_eq|].
  apply in_flat_map in Hin. destruct Hin as (k & _ & Hc).
  exact (candidates_shortest_form t k u Hc).
Qed.

Lemma double_of_sign s s' ds n :
  double_of (Finite s ds n) = double_of (Finite s' ds n).
Proof. reflexivity. Qed.

Lemma to_Number_finite negative ds n :
  to_Number (Finite negative ds n) = Infinity negative
  \/ to_Number (Finite negative ds n) = Zero
  \/ exists m e s' ds' n',
       Z.eqb m 0 = false
       /\ shortest (m, e) = Some (Finite s' ds' n')
       /\ double_of (Finite s' ds' n') = Some (m, e)
       /\ to_Number (Finite negative ds n) = Finite negative ds' n'.
Proof.
  unfold to_Number.
  destruct (double_of (Finite negative ds n)) as [[m e]|]; [|now left].
  destruct (Z.eqb m 0) eqn:M; [now right; left|].
  destruct (shortest (m, e)) as [u|] eqn:S; [|now left].
  destruct (shortest_some _ _ S) as [Du _].
  destruct u as [|s' ds' n'|s'].
  - cbn in Du. inversion Du; subst. discriminate M.
  - right. right. exists m, e, s', ds', n'. repeat split; assumption.
  - discriminate Du.
Qed.

(** Rounding a decimal gives a number, and leaves a number as it is. *)
Lemma to_Number_number x : is_number (to_Number x) = true.
Proof.
  unfold is_number.
  destruct x as [|negative ds n|negative];
    [reflexivity| |apply Number_eqb_refl].
  destruct (to_Number_finite negative ds n)
    as [E|[E|(m & e & s' & ds' & n' & M & S & Du & E)]];
    rewrite E; [apply Number_eqb_refl|reflexivity|].
  unfold to_Number.
  rewrite (double_of_sign negative s' ds' n'), Du, M, S.
  cbn [with_sign]. apply Number_eqb_refl.
Qed.

(** A finite number is written with the fewest digits. *)
Lemma number_shortest_form x :
  is_number x = true -> is_finite x = true -> shortest_form x = true.
Proof.
  unfold is_number. intros H Hf. apply Number_eqb_eq in H.
  destruct x as [|negative ds n|negative]; [reflexivity| |discriminate Hf].
  unfold to_Number in H.
  destruct (double_of (Finite negative ds n)) as [[m e]|];
    [|discriminate H].
  destruct (Z.eqb m 0); [discriminate H|].
  destruct (shortest (m, e)) as [u|] eqn:S; [|discriminate H].
  destruct (shortest_some _ _ S) as [_ Hu].
  destruct u as [|s' ds' n'|s']; cbn [with_sign] in H;
    try discriminate H.
  inversion H; subst. exact Hu.
Qed.

Lemma is_number_largest negative :
  is_number (with_sign negative largest) = true.
Proof. destruct negative; vm_compute; reflexivity. Qed.

Lemma of_Z_number z :
  is_number (of_Z z) = true /\ is_finite (of_Z z) = true.
Proof.
  unfold of_Z.
  match goal with
  | |- context [to_Number ?d] =>
      pose proof (to_Number_number d) as H; destruct (to_Number d)
  end.
  - split; [exact H|reflexivity].
  - split; [exact H|reflexivity].
  - split; [apply is_number_largest|reflexivity].
Qed.

(** [Number::toString] at the borders of the plain notation. *)
Example toString_samples :
  map Number_toString
    [of_Z 0; of_Z 7; of_Z (-120); Finite false "5" 0;
     Finite false "123456" 3; Finite false "1" (-5); Finite false "1" (-6);
     Finite true "25" (-5); Finite false "1" 21; Finite false "1" 22;
     of_Z 1000000000000000000000; Finite false "12345" 30;
     Finite true "42" (-8); of_Z 9007199254740993]
  = ["0"; "7"; "-120"; "0.5"; "123.456"; "0.000001"; "1e-7"; "-0.0000025";
     "100000000000000000000"; "1e+21"; "1e+21"; "1.2345e+29"; "-4.2e-9";
     "9007199254740992"].
Proof. vm_compute. reflexivity. Qed.

(** Decimals that are not the shortest form of a double are rounded. *)
Example to_Number_samples :
  map to_Number
    [Finite false "10000000000000001" 0; Finite false "9007199254740993" 16;
     Finite false "1" 401; Finite true "2" (-323)]
  = [Finite false "1" 0; Finite false "9007199254740992" 16;
     Infinity false; Zero].
Proof. vm_compute. reflexivity. Qed.

(** The text of a finite number decodes to the number. *)
Lemma parse_number_toString x rest :
  is_number x = true -> is_finite x = true -> delimited rest = true ->
  parse_number (Number_toString x ++ rest) = Some (VNum x, rest).
Proof.
  intros Hx Hf Hr. pose proof (number_shortest_form x Hx Hf) as Hs.
  unfold parse_number.
  rewrite (span_num_all _ _ (all_num_toString x Hs) Hr). cbn [fst snd].
  rewrite (decode_number_toString x Hs).
  unfold is_number in Hx. apply Number_eqb_eq in Hx. now rewrite Hx.
Qed.

Lemma skip_ws_idem s : skip_ws (skip_ws s) = skip_ws s.
Proof.
  induction s as [|c s IH]; [reflexivity|]. rewrite skip_ws_cons.
  destruct (is_ws c) eqn:E; [exact IH|]. now rewrite skip_ws_cons, E.
Qed.

Lemma parse_value_skip fuel s :
  parse_value fuel (skip_ws s) = parse_value fuel s.
Proof.
  destruct fuel as [|f]; [reflexivity|]. cbn [parse_value].
  now rewrite skip_ws_idem.
Qed.

Lemma parse_value_ws fuel ws s :
  all_ws ws = true -> parse_value fuel (ws ++ s) = parse_value fuel s.
Proof.
  intros H. rewrite <- parse_value_skip, (skip_ws_all _ _ H).
  apply parse_value_skip.
Qed.

Lemma parse_value_string f r :
  parse_value (S f) (String dquote r)
  = match parse_chars r with
    | Some (str, rest) => Some (VStr str, rest)
    | None => None
    end.
Proof. reflexivity. Qed.

Lemma parse_value_array f r :
  parse_value (S f) (String "[" r)
  = match skip_ws r with
    | EmptyString => None
    | String c' r' =>
        if Ascii.eqb c' "]" then Some (VArr [], r')
        else match parse_elements (parse_value f) f r with
             | Some (vs, rest) => Some (VArr vs, rest)
             | None => None
             end
    end.
Proof. reflexivity. Qed.

Lemma parse_value_object f r :
  parse_value (S f) (String "{" r)
  = match skip_ws r with
    | EmptyString => None
    | String c' r' =>
        if Ascii.eqb c' "}" then Some (VObj [], r')
        else match parse_members (parse_value f) f r with
             | Some (ms, rest) => Some (make_object ms, rest)
             | None => None
             end
    end.
Proof. reflexivity. Qed.

Lemma parse_value_number f c r :
  is_num_char c = true ->
  parse_value (S f) (String c r) = parse_number (String c r).
Proof.
  destruct c as [[] [] [] [] [] [] [] []]; intros H;
    first [discriminate H | reflexivity].
Qed.

Lemma parse_elements_S pv n s :
  parse_elements pv (S n) s
  = match pv s with
    | Some (v, s1) =>
        match skip_ws s1 with
        | String d s2 =>
            if Ascii.eqb d "," then
              match parse_elements pv n s2 with
              | Some (vs, s3) => Some (v :: vs, s3)
              | None => None
              end
            else if Ascii.eqb d "]" then Some ([v], s2)
            else None
        | EmptyString => None
        end
    | None => None
    end.
Proof. reflexivity. Qed.

Lemma parse_members_S pv n s :
  parse_members pv (S n) s
  = match skip_ws s with
    | String q s0 =>
        if Ascii.eqb q dquote then
          match parse_chars s0 with
          | Some (k, s1) =>
              match skip_ws s1 with
              | String c s2 =>
                  if Ascii.eqb c ":" then
                    match pv s2 with
                    | Some (v, s3) =>
                        match skip_ws s3 with
                        | String d s4 =>
                            if Ascii.eqb d "," then
                              match parse_members pv n s4 with
                              | Some (ms, s5) => Some ((k, v) :: ms, s5)
                              | None => None
                              end
                            else if Ascii.eqb d "}" then Some ([(k, v)], s4)
                            else None
                        | EmptyString => None
                        end
                    | None => None
                    end
                  else None
              | EmptyString => None
              end
          | None => None
          end
        else None
    | EmptyString => None
    end.
Proof. reflexivity. Qed.

Lemma document_number n :
  is_document (VNum n) = true ->
  is_number n = true /\ is_finite n = true /\ shortest_form n = true.
Proof.
  cbn [is_document]. intros H. apply andb_prop in H. destruct H as [Hn Hf].
  repeat split; try assumption. now apply number_shortest_form.
Qed.

(** What is printed for a value begins like a value. *)
Lemma print2_starts_value indent v :
  is_document v = true -> starts_value (print2 indent v) = true.
Proof.
  intros Hv. unfold print2. destruct v as [| |[]|n|s|l|m]; try reflexivity.
  - destruct (document_number n Hv) as (_ & Hf & Hs).
    cbn [serialize]. rewrite Hf.
    destruct (Number_toString_head n Hs) as (c & r & E & Hc).
    rewrite E. cbn [starts_value]. unfold value_start. now rewrite Hc.
  - cbn [serialize]. unfold wrap.
    destruct (map _ l); [reflexivity|]. reflexivity.
  - cbn [serialize]. unfold wrap.
    destruct (flat_map _ m); [reflexivity|]. reflexivity.
Qed.

Lemma join_cons_map {A : Type} sep (g : A -> string) x y l :
  join sep (map g (x :: y :: l)) = g x ++ sep ++ join sep (map g (y :: l)).
Proof. reflexivity. Qed.

Lemma list_sum_cons x l : list_sum (x :: l) = x + list_sum l.
Proof. reflexivity. Qed.

Lemma length_le_size_sum {A : Type} (f : A -> value) (l : list A) :
  length l <= list_sum (map (fun a => size (f a)) l).
Proof.
  induction l as [|a l IH]; [cbn; lia|].
  cbn [length map]. rewrite list_sum_cons.
  assert (1 <= size (f a)) by (destruct (f a); cbn; lia). lia.
Qed.

(** The elements of a printed array decode to the elements. *)
Lemma parse_elements_join f indent' indent rest :
  all_ws indent' = true -> all_ws indent = true ->
  forall l,
    Forall round_trips l -> forallb is_document l = true ->
    list_sum (map size l) <= f -> l <> [] ->
    forall n ws, length l <= n -> all_ws ws = true ->
    parse_elements (parse_value f) n
      (ws ++ join ("," ++ str1 newline ++ indent') (map (print2 indent') l)
          ++ str1 newline ++ indent ++ "]" ++ rest)
    = Some (l, rest).
Proof.
  intros Hi' Hi. induction l as [|x l IH]; [congruence|].
  intros HF Hj Hs _ n ws Hn Hws.
  inversion HF as [|? ? Hx HFl]; subst.
  cbn [forallb] in Hj. apply andb_prop in Hj. destruct Hj as [Hjx Hjl].
  cbn [map] in Hs. rewrite list_sum_cons in Hs.
  destruct n as [|n]; [cbn in Hn; lia|]. cbn [length] in Hn.
  rewrite parse_elements_S. destruct l as [|y l'].
  - cbn [map join]. rewrite (parse_value_ws _ _ _ Hws).
    destruct (Hx indent' (str1 newline ++ indent ++ "]" ++ rest) f Hi' Hjx)
      as [_ Ep]; [lia|reflexivity|]. rewrite Ep.
    cbn [str1 append]. rewrite skip_ws_cons. cbn [is_ws Ascii.eqb orb].
    change (is_ws newline) with true. cbv iota.
    rewrite (skip_ws_all _ _ Hi). reflexivity.
  - rewrite join_cons_map, !append_assoc.
    rewrite (parse_value_ws _ _ _ Hws).
    destruct (Hx indent'
                (("," ++ str1 newline ++ indent')
                 ++ join ("," ++ str1 newline ++ indent')
                      (map (print2 indent') (y :: l'))
                 ++ str1 newline ++ indent ++ "]" ++ rest) f Hi' Hjx)
      as [_ Ep]; [lia|reflexivity|].
    rewrite !append_assoc in Ep. rewrite Ep.
    cbn [str1 append]. rewrite skip_ws_cons.
    change (is_ws ",") with false. cbv iota.
    change (Ascii.eqb "," ",") with true. cbv iota.
    specialize (IH HFl Hjl ltac:(lia) ltac:(discriminate) n
                   (String newline indent')).
    rewrite append_cons in IH. cbn [str1 append] in IH.
    rewrite IH; [reflexivity|cbn in Hn; cbn; lia|].
    cbn [all_ws]. now rewrite Hi'.
Qed.

(** The members of a printed object decode to the members. *)
Lemma parse_members_join f indent' indent rest :
  all_ws indent' = true -> all_ws indent = true ->
  forall m,
    Forall (fun kv => round_trips (snd kv)) m ->
    forallb (fun kv => is_document (snd kv)) m = true ->
    list_sum (map (fun kv => size (snd kv)) m) <= f -> m <> [] ->
    forall n ws, length m <= n -> all_ws ws = true ->
    parse_members (parse_value f) n
      (ws ++ join ("," ++ str1 newline ++ indent') (map (member2 indent') m)
          ++ str1 newline ++ indent ++ "}" ++ rest)
    = Some (m, rest).
Proof.
  intros Hi' Hi. induction m as [|[k x] m IH]; [congruence|].
  intros HF Hj Hs _ n ws Hn Hws.
  inversion HF as [|? ? Hx HFm]; subst. cbn [snd] in Hx.
  cbn [forallb snd] in Hj. apply andb_prop in Hj. destruct Hj as [Hjx Hjm].
  cbn [map snd] in Hs. rewrite list_sum_cons in Hs.
  destruct n as [|n]; [cbn in Hn; lia|]. cbn [length] in Hn.
  rewrite parse_members_S. rewrite (skip_ws_all _ _ Hws).
  destruct m as [|kv' m'].
  - cbn [map join]. unfold member2 at 1. cbn [fst snd]. unfold Quote.
    rewrite !append_cons, skip_ws_cons.
    change (is_ws dquote) with false. cbv iota.
    change (Ascii.eqb dquote dquote) with true. cbv iota.
    rewrite !append_assoc. cbn [str1 append].
    rewrite parse_chars_quote, skip_ws_cons.
    change (is_ws ":") with false. cbv iota.
    change (Ascii.eqb ":" ":") with true. cbv iota.
    change (String " " (print2 indent' x
                        ++ String newline (indent ++ String "}" rest)))
      with (" " ++ print2 indent' x
            ++ String newline (indent ++ String "}" rest)).
    rewrite parse_value_ws by reflexivity.
    destruct (Hx indent' (String newline (indent ++ String "}" rest)) f
                Hi' Hjx) as [_ Ep]; [lia|reflexivity|]. rewrite Ep.
    rewrite skip_ws_cons. change (is_ws newline) with true. cbv iota.
    rewrite (skip_ws_all _ _ Hi). reflexivity.
  - rewrite join_cons_map. unfold member2 at 1. cbn [fst snd]. unfold Quote.
    rewrite !append_cons, skip_ws_cons.
    change (is_ws dquote) with false. cbv iota.
    change (Ascii.eqb dquote dquote) with true. cbv iota.
    rewrite !append_assoc. cbn [str1 append].
    rewrite parse_chars_quote, skip_ws_cons.
    change (is_ws ":") with false. cbv iota.
    change (Ascii.eqb ":" ":") with true. cbv iota.
    match goal with
    | |- context [parse_value f (String " " ?t)] =>
        change (String " " t) with (" " ++ t)
    end.
    rewrite parse_value_ws by reflexivity.
    match goal with
    | |- context [parse_value f (print2 indent' x ++ ?t)] =>
        destruct (Hx indent' t f Hi' Hjx) as [_ Ep]; [lia|reflexivity|]
    end.
    rewrite Ep. rewrite skip_ws_cons.
    change (is_ws ",") with false. cbv iota.
    change (Ascii.eqb "," ",") with true. cbv iota.
    specialize (IH HFm Hjm ltac:(lia) ltac:(discriminate) n
                   (String newline indent')).
    rewrite append_cons in IH. cbn [str1 append] in IH.
    rewrite ?append_assoc.
    rewrite IH; [reflexivity|cbn in Hn; cbn; lia|].
    cbn [all_ws]. now rewrite Hi'.
Qed.

Lemma distinct_app_not_in a k b :
  distinct (a ++ k :: b) = true -> existsb (String.eqb k) a = false.
Proof.
  induction a as [|x a IH]; [reflexivity|].
  cbn [app distinct existsb]. intros H. apply andb_prop in H.
  destruct H as [Hx Ha]. rewrite (IH Ha), orb_false_r.
  apply negb_true_iff in Hx. rewrite existsb_app in Hx.
  apply orb_false_elim in Hx. destruct Hx as [_ Hx].
  cbn [existsb] in Hx. apply orb_false_elim in Hx. destruct Hx as [Hx _].
  now rewrite String.eqb_sym.
Qed.

Lemma insert_index_end i k v m :
  forallb (fun k' => match array_index k' with
                     | Some j => N.ltb j i
                     | None => false
                     end) (map fst m) = true ->
  insert_index i k v m = (m ++ [(k, v)])%list.
Proof.
  induction m as [|[k' v'] m IH]; [reflexivity|].
  cbn [map fst forallb insert_index app]. intros H.
  apply andb_prop in H. destruct H as [Hk Hm].
  destruct (array_index k') as [j|]; [|discriminate Hk].
  now rewrite Hk, (IH Hm).
Qed.

(** In enumeration order, everything before an array index is a smaller
    array index. *)
Lemma property_order_before a k r i :
  property_order (a ++ k :: r) = true -> array_index k = Some i ->
  forallb (fun k' => match array_index k' with
                     | Some j => N.ltb j i
                     | None => false
                     end) a = true.
Proof.
  intros H Hk. induction a as [|x a IH]; [reflexivity|].
  cbn [app property_order] in H. apply andb_prop in H.
  destruct H as [Hx Ha]. cbn [forallb]. rewrite (IH Ha), andb_true_r.
  destruct (array_index x) as [j|]; rewrite forallb_app in Hx;
    apply andb_prop in Hx; destruct Hx as [_ Hx]; cbn [forallb] in Hx;
    rewrite Hk in Hx; apply andb_prop in Hx; destruct Hx as [Hx _];
    [exact Hx|discriminate Hx].
Qed.

Lemma set_property_new acc k v r :
  existsb (String.eqb k) (map fst acc) = false ->
  property_order (map fst acc ++ k :: r) = true ->
  set_property acc k v = (acc ++ [(k, v)])%list.
Proof.
  intros Hn Ho. unfold set_property. rewrite Hn.
  destruct (array_index k) as [i|] eqn:Ek; [|reflexivity].
  apply insert_index_end. exact (property_order_before _ _ _ _ Ho Ek).
Qed.

Lemma fold_set_property ms :
  forall acc,
    distinct (map fst acc ++ map fst ms) = true ->
    property_order (map fst acc ++ map fst ms) = true ->
    fold_left (fun m kv => set_property m (fst kv) (snd kv)) ms acc
    = (acc ++ ms)%list.
Proof.
  induction ms as [|[k v] ms IH]; intros acc H Ho; cbn [fold_left fst snd].
  - now rewrite app_nil_r.
  - cbn [map fst] in H, Ho.
    rewrite (set_property_new acc k v _ (distinct_app_not_in _ _ _ H) Ho).
    rewrite IH.
    + now rewrite <- app_assoc.
    + now rewrite map_app, <- app_assoc.
    + now rewrite map_app, <- app_assoc.
Qed.

(** Members with distinct keys in enumeration order build the object
    they list. *)
Lemma make_object_distinct ms :
  distinct (map fst ms) = true -> property_order (map fst ms) = true ->
  make_object ms = VObj ms.
Proof.
  intros H Ho. unfold make_object. now rewrite (fold_set_property ms []).
Qed.

Lemma serialize_print2 indent v :
  is_document v = true -> serialize "  " indent v = Some (print2 indent v).
Proof. destruct v as [| |[]| | | |]; intros H; try reflexivity. discriminate H. Qed.

Lemma print2_array indent l :
  print2 indent (VArr l)
  = wrap "[" "]" "  " indent (indent ++ "  ")
         (map (print2 (indent ++ "  ")) l).
Proof. reflexivity. Qed.

Lemma print2_object indent m :
  forallb (fun kv => is_document (snd kv)) m = true ->
  print2 indent (VObj m)
  = wrap "{" "}" "  " indent (indent ++ "  ")
         (map (member2 (indent ++ "  ")) m).
Proof.
  intros H. unfold print2. cbn [serialize]. f_equal.
  induction m as [|[k x] m IH]; [reflexivity|].
  cbn [forallb snd] in H. apply andb_prop in H. destruct H as [Hx Hm].
  cbn [flat_map map fst snd]. rewrite (serialize_print2 _ _ Hx), (IH Hm).
  reflexivity.
Qed.

Lemma wrap_cons {A : Type} opening closing indent indent'
    (g : A -> string) x l :
  wrap opening closing "  " indent indent' (map g (x :: l))
  = opening ++ str1 newline ++ indent'
    ++ join ("," ++ str1 newline ++ indent') (map g (x :: l))
    ++ str1 newline ++ indent ++ closing.
Proof. reflexivity. Qed.

Lemma starts_value_append a b :
  starts_value a = true -> starts_value (a ++ b) = true.
Proof. destruct a; [discriminate|auto]. Qed.

Lemma starts_value_join {A : Type} sep (g : A -> string) x l :
  starts_value (g x) = true ->
  starts_value (join sep (map g (x :: l))) = true.
Proof.
  intros H. destruct l; [exact H|]. rewrite join_cons_map.
  now apply starts_value_append.
Qed.

Lemma value_start_not_closing c :
  value_start c = true ->
  Ascii.eqb c "]" = false /\ Ascii.eqb c "}" = false.
Proof.
  destruct c as [[] [] [] [] [] [] [] []]; intros H;
    first [split; reflexivity | discriminate H].
Qed.

Lemma all_ws_indent indent :
  all_ws indent = true -> all_ws (indent ++ "  ") = true.
Proof.
  induction indent as [|c s IH]; [reflexivity|].
  cbn [all_ws append]. intros H. apply andb_prop in H.
  destruct H as [Hc Hs]. now rewrite Hc, (IH Hs).
Qed.

(** Every value [JSON.parse] can produce prints to a text that decodes to
    it, at every indentation. *)
Lemma serialize_round_trips v : round_trips v.
Proof.
  induction v as [| |b|n|s|l IH|m IH] using value_ind';
    intros indent rest fuel Hi Hj Hs Hd;
    (split; [now apply serialize_print2|]);
    (destruct fuel as [|f]; [cbn in Hs; lia|]).
  - discriminate Hj.
  - reflexivity.
  - destruct b; reflexivity.
  - destruct (document_number n Hj) as (Hn & Hf & Hsf).
    unfold print2. cbn [serialize]. rewrite Hf.
    destruct (Number_toString_head n Hsf) as (c & r & E & Hc).
    rewrite E, append_cons, (parse_value_number _ _ _ Hc), <- append_cons, <- E.
    now apply parse_number_toString.
  - unfold print2. cbn [serialize]. unfold Quote.
    rewrite append_cons, append_assoc. cbn [str1 append].
    now rewrite parse_value_string, parse_chars_quote.
  - rewrite print2_array. cbn [is_document] in Hj. cbn [size] in Hs.
    destruct l as [|x l]; [reflexivity|].
    assert (Hjx : is_document x = true)
      by (cbn [forallb] in Hj; apply andb_prop in Hj; tauto).
    pose proof (all_ws_indent _ Hi) as Hi'.
    remember (indent ++ "  ") as indent' eqn:Ei'. clear Ei'.
    rewrite wrap_cons, !append_assoc. cbn [str1 append].
    rewrite parse_value_array, skip_ws_cons.
    change (is_ws newline) with true. cbv iota.
    rewrite (skip_ws_all _ _ Hi').
    match goal with
    | |- context [skip_ws ?t] =>
        assert (Hv : starts_value t = true)
          by (apply starts_value_append, starts_value_join,
                print2_starts_value; exact Hjx);
        rewrite (skip_ws_value _ Hv); destruct t as [|c' r'] eqn:Et;
          [discriminate Hv|]
    end.
    cbn [starts_value] in Hv.
    destruct (value_start_not_closing _ Hv) as [-> _]. rewrite <- Et.
    pose proof (parse_elements_join f indent' indent rest
                  Hi' Hi (x :: l) IH Hj ltac:(lia)
                  ltac:(discriminate) f (String newline indent')) as P.
    rewrite append_cons in P. cbn [str1 append] in P.
    rewrite ?append_assoc in P. rewrite P; [reflexivity| |].
    + assert (length (x :: l) <= list_sum (map size (x :: l)))
        by exact (length_le_size_sum (fun a => a) (x :: l)).
      lia.
    + cbn [all_ws]. now rewrite Hi'.
  - cbn [is_document] in Hj. apply andb_prop in Hj. destruct Hj as [Hk Hj].
    apply andb_prop in Hk. destruct Hk as [Hk Ho].
    rewrite (print2_object _ _ Hj). cbn [size] in Hs.
    destruct m as [|kx m]; [reflexivity|].
    pose proof (all_ws_indent _ Hi) as Hi'.
    remember (indent ++ "  ") as indent' eqn:Ei'. clear Ei'.
    rewrite wrap_cons, !append_assoc. cbn [str1 append].
    rewrite parse_value_object, skip_ws_cons.
    change (is_ws newline) with true. cbv iota.
    rewrite (skip_ws_all _ _ Hi').
    match goal with
    | |- context [skip_ws ?t] =>
        assert (Hv : starts_value t = true)
          by (apply starts_value_append, starts_value_join; reflexivity);
        rewrite (skip_ws_value _ Hv); destruct t as [|c' r'] eqn:Et;
          [discriminate Hv|]
    end.
    cbn [starts_value] in Hv.
    destruct (value_start_not_closing _ Hv) as [_ ->]. rewrite <- Et.
    pose proof (parse_members_join f indent' indent rest
                  Hi' Hi (kx :: m) IH Hj ltac:(lia)
                  ltac:(discriminate) f (String newline indent')) as P.
    rewrite append_cons in P. cbn [str1 append] in P.
    rewrite ?append_assoc in P. rewrite P.
    + now rewrite (make_object_distinct _ Hk Ho).
    + assert (length (kx :: m)
              <= list_sum (map (fun kv => size (snd kv)) (kx :: m)))
        by exact (length_le_size_sum (fun kv : string * value => snd kv)
                    (kx :: m)).
      lia.
    + cbn [all_ws]. now rewrite Hi'.
Qed.

Lemma join_length sep xs :
  list_sum (map String.length xs) <= String.length (join sep xs).
Proof.
  induction xs as [|x xs IH]; [cbn; lia|].
  cbn [map]. rewrite list_sum_cons. destruct xs as [|y xs].
  - cbn. lia.
  - change (join sep (x :: y :: xs)) with (x ++ sep ++ join sep (y :: xs)).
    rewrite !length_append. lia.
Qed.

Lemma wrap_length opening closing gap stepback indent partial :
  String.length opening + list_sum (map String.length partial)
  <= String.length (wrap opening closing gap stepback indent partial).
Proof.
  pose proof (join_length "," partial) as J1.
  pose proof (join_length ("," ++ str1 newline ++ indent) partial) as J2.
  unfold wrap. destruct partial as [|x partial].
  - rewrite length_append. cbn. lia.
  - destruct (is_empty gap); rewrite !length_append; lia.
Qed.

(** A printed value is at least as long as the value has nodes. *)
Lemma size_le_length v :
  forall indent, is_document v = true ->
  size v <= String.length (print2 indent v).
Proof.
  induction v as [| |b|n|s|l IH|m IH] using value_ind'; intros indent Hj.
  - discriminate Hj.
  - cbn. lia.
  - destruct b; cbn; lia.
  - destruct (document_number n Hj) as (_ & Hf & Hsf).
    unfold print2. cbn [serialize size]. rewrite Hf.
    destruct (Number_toString_head n Hsf) as (c & r & -> & _). cbn. lia.
  - cbn. lia.
  - rewrite print2_array. cbn [size is_document] in *.
    pose proof (wrap_length "[" "]" "  " indent (indent ++ "  ")
                  (map (print2 (indent ++ "  ")) l)) as W.
    assert (list_sum (map size l)
            <= list_sum (map String.length
                             (map (print2 (indent ++ "  ")) l))).
    { clear W. induction l as [|x l IHl]; [cbn; lia|].
      inversion IH as [|? ? Hx Hl]; subst.
      cbn [forallb] in Hj. apply andb_prop in Hj. destruct Hj as [Hjx Hjl].
      cbn [map]. rewrite !list_sum_cons.
      specialize (Hx (indent ++ "  ") Hjx). specialize (IHl Hl Hjl). lia. }
    cbn [String.length] in W. lia.
  - cbn [is_document] in Hj. apply andb_prop in Hj. destruct Hj as [_ Hj].
    rewrite (print2_object _ _ Hj). cbn [size].
    pose proof (wrap_length "{" "}" "  " indent (indent ++ "  ")
                  (map (member2 (indent ++ "  ")) m)) as W.
    assert (list_sum (map (fun kv => size (snd kv)) m)
            <= list_sum (map String.length
                             (map (member2 (indent ++ "  ")) m))).
    { clear W. induction m as [|[k x] m IHm]; [cbn; lia|].
      inversion IH as [|? ? Hx Hm]; subst. cbn [snd] in Hx.
      cbn [forallb snd] in Hj. apply andb_prop in Hj.
      destruct Hj as [Hjx Hjm].
      cbn [map snd]. rewrite !list_sum_cons.
      specialize (Hx (indent ++ "  ") Hjx). specialize (IHm Hm Hjm).
      unfold member2 at 1. cbn [fst snd]. rewrite !length_append. lia. }
    cbn [String.length] in W. lia.
Qed.

(** The decoder reads back every document [JSON.stringify(d, null, 2)]
    prints. *)
Lemma JSON_parse_stringify d t :
  is_document d = true -> JSON_stringify_2 d = Some t -> JSON_parse t = Some d.
Proof.
  intros Hj Ht. unfold JSON_stringify_2 in Ht.
  rewrite (serialize_print2 "" d Hj) in Ht. inversion Ht; subst t. clear Ht.
  unfold JSON_parse.
  pose proof (size_le_length d "" Hj) as Hsz.
  destruct (serialize_round_trips d "" "" (S (String.length (print2 "" d)))
              eq_refl Hj ltac:(lia) eq_refl) as [_ E].
  rewrite append_nil_r in E. rewrite E. reflexivity.
Qed.

(** The printer and the decoder on numbers beyond [10^21], fractions,
    numbers that need rounding, numbers beyond the largest double, and
    keys that are array indices. *)
Example stringify_numbers :
  JSON_stringify
    (VArr [VNum 1000000000000000000000; VNum (Finite false "5" 0);
           VNum (Finite true "125" (-6)); VNum 100; VNum 0;
           VNum (Infinity false)])
  = Some "[1e+21,0.5,-1.25e-7,100,0,null]".
Proof. vm_compute. reflexivity. Qed.

Example parse_numbers :
  JSON_parse
    "[1e+21,0.5,-1.25e-7,100,-0,1.50,1E3,9007199254740993,0.10000000000000001,1e999]"
  = Some (VArr [VNum 1000000000000000000000; VNum (Finite false "5" 0);
                VNum (Finite true "125" (-6)); VNum 100; VNum 0;
                VNum (Finite false "15" 1); VNum 1000;
                VNum 9007199254740992; VNum (Finite false "1" 0);
                VNum (Infinity false)]).
Proof. vm_compute. reflexivity. Qed.

Example make_object_order :
  make_object [("b", VNum 1); ("10", VNum 2); ("2", VNum 3); ("b", VNum 4)]
  = VObj [("2", VNum 3); ("10", VNum 2); ("b", VNum 4)].
Proof. reflexivity. Qed.

(** ** JSON responses *)

(** [JSON.stringify] writes an infinity as [null]: a value prints as
    its document does. *)
Lemma serialize_json_form gap v :
  forall indent, serialize gap indent (json_form v) = serialize gap indent v.
Proof.
  induction v as [| |b|n|s|l IH|m IH] using value_ind'; intros indent;
    try reflexivity.
  - cbn [json_form]. destruct (is_finite n) eqn:F; [reflexivity|].
    cbn [serialize]. now rewrite F.
  - cbn [json_form serialize]. do 2 f_equal. rewrite map_map.
    induction IH as [|x l Hx Hl IHl]; [reflexivity|].
    cbn [map]. now rewrite Hx, IHl.
  - cbn [json_form serialize]. do 2 f_equal.
    induction IH as [|[k x] m Hx Hm IHm]; [reflexivity|].
    cbn [map flat_map fst snd] in *. now rewrite Hx, IHm.
Qed.

Lemma json_form_keys m :
  map fst (map (fun kv : string * value => (fst kv, json_form (snd kv))) m)
  = map fst m.
Proof. rewrite map_map. reflexivity. Qed.

(** What [JSON.parse] produces prints as a document. *)
Lemma decoded_json_form v :
  is_decoded v = true -> is_document (json_form v) = true.
Proof.
  induction v as [| |b|n|s|l IH|m IH] using value_ind'; intros H;
    try exact H.
  - cbn [json_form]. destruct (is_finite n) eqn:F; [|reflexivity].
    cbn [is_document]. cbn [is_decoded] in H. now rewrite H, F.
  - cbn [json_form is_document]. cbn [is_decoded] in H.
    induction IH as [|x l Hx Hl IHl]; [reflexivity|].
    cbn [forallb map] in *. apply andb_prop in H. destruct H as [H1 H2].
    now rewrite (Hx H1), (IHl H2).
  - cbn [json_form is_document]. cbn [is_decoded] in H.
    apply andb_prop in H. destruct H as [Hk H].
    rewrite json_form_keys, Hk. cbn [andb]. clear Hk.
    induction IH as [|[k x] m Hx Hm IHm]; [reflexivity|].
    cbn [forallb map fst snd] in *. apply andb_prop in H.
    destruct H as [H1 H2]. now rewrite (Hx H1), (IHm H2).
Qed.

(** A document is its own form. *)
Lemma json_form_document v : is_document v = true -> json_form v = v.
Proof.
  induction v as [| |b|n|s|l IH|m IH] using value_ind'; intros H;
    try reflexivity.
  - cbn [is_document] in H. apply andb_prop in H. destruct H as [_ F].
    cbn [json_form]. now rewrite F.
  - cbn [json_form]. f_equal. cbn [is_document] in H.
    induction IH as [|x l Hx Hl IHl]; [reflexivity|].
    cbn [forallb map] in *. apply andb_prop in H. destruct H as [H1 H2].
    now rewrite (Hx H1), (IHl H2).
  - cbn [json_form]. f_equal. cbn [is_document] in H.
    apply andb_prop in H. destruct H as [_ H].
    induction IH as [|[k x] m Hx Hm IHm]; [reflexivity|].
    cbn [forallb map fst snd] in *. apply andb_prop in H.
    destruct H as [H1 H2]. now rewrite (Hx H1), (IHm H2).
Qed.

(** C6: for every tool other than the two download tools, when the
    arguments pass the schema and the remote response succeeds with a
    JSON content type and a body that decodes to [d] (any value
    [JSON.parse] produces: numbers with fractions or exponents, object
    keys in enumeration order), the call fetches once, decodes the body,
    and returns (not error-flagged) the text [JSON.stringify(d, null, 2)].
    That text is equivalent to the body under a decode/encode round trip:
    decoding it gives the document of [d], which is [d] itself unless the
    body holds a number beyond the largest double (decoded to an
    infinity, written back as [null]), and encoding that document again
    gives the same text. *)
Theorem C6_json_body_round_trip
    fetch api tool S args validated response contentType d :
  In (tool, S) tool_schemas ->
  existsb (String.eqb tool) ["downloadFile"; "downloadMultipleFiles"] = false ->
  safeParse S args = inr validated ->
  (forall url options, fetch url options = inr response) ->
  ok response = true ->
  content_type response = Some contentType ->
  includes "application/json" contentType = true ->
  json response = inr d ->
  is_decoded d = true ->
  exists t url options,
    handler fetch api {| name := tool; arguments := args |}
    = ({| content := [{| type := "text"; text := Some t |}];
          isError := None |},
       [EvFetch url options; EvJson])
    /\ JSON_stringify_2 d = Some t
    /\ JSON_parse t = Some (json_form d)
    /\ JSON_stringify_2 (json_form d) = Some t
    /\ (is_document d = true -> JSON_parse t = Some d).
Proof.
  intros HS Hnd Hv Hf Hok Hct Hinc Hjs Hd.
  destruct (schema_has_route tool S HS) as (m & p & HR).
  destruct (makeRequest_json fetch api p m validated response contentType d
              Hf Hok Hct Hinc Hjs) as (url & options & E).
  cbn [existsb] in Hnd. apply orb_false_elim in Hnd. destruct Hnd as [N1 Hnd].
  apply orb_false_elim in Hnd. destruct Hnd as [N2 _].
  pose proof (decoded_json_form d Hd) as Hj.
  assert (Hf' : JSON_stringify_2 (json_form d)
                = Some (print2 "" (json_form d)))
    by (apply serialize_print2; exact Hj).
  assert (Ht : JSON_stringify_2 d = Some (print2 "" (json_form d)))
    by (rewrite <- Hf'; symmetry; apply serialize_json_form).
  pose proof (JSON_parse_stringify (json_form d) _ Hj Hf') as Hp.
  exists (print2 "" (json_form d)), url, options.
  split; [|split; [exact Ht|split; [exact Hp|split; [exact Hf'|]]]].
  - rewrite handler_of_call_tool, (call_tool_dispatch _ _ _ _ _ _ _ HS HR).
    rewrite (parse_accepts _ _ _ Hv), bind_ret, E.
    unfold bind, ret, success_text. cbn [fst snd app stringify_result].
    now rewrite N1, N2, Ht.
  - intros Hdoc. now rewrite Hp, (json_form_document d Hdoc).
Qed.

Lemma C6_witness :
  exists t url options,
    handler (always sample_numbers_response) sample_api
      {| name := "retrieveRunDetails";
         arguments := VObj [("run_id", VStr "r1"); ("user_id", VStr "u1")] |}
    = ({| content := [{| type := "text"; text := Some t |}];
          isError := None |},
       [EvFetch url options; EvJson])
    /\ JSON_stringify_2 sample_numbers = Some t
    /\ JSON_parse t = Some (json_form sample_numbers)
    /\ JSON_stringify_2 (json_form sample_numbers) = Some t
    /\ (is_document sample_numbers = true ->
        JSON_parse t = Some sample_numbers).
Proof.
  apply (C6_json_body_round_trip (always sample_numbers_response) sample_api
           "retrieveRunDetails" RetrieveRunDetailsSchema
           (VObj [("run_id", VStr "r1"); ("user_id", VStr "u1")])
           (VObj [("run_id", VStr "r1"); ("user_id", VStr "u1")])
           sample_numbers_response "application/json"
           sample_numbers).
  - right. left. reflexivity.
  - reflexivity.
  - reflexivity.
  - reflexivity.
  - reflexivity.
  - reflexivity.
  - reflexivity.
  - reflexivity.
  - vm_compute. reflexivity.
Defined.

(** * Further properties of the code *)

(** ** What the schemas accept *)

Lemma mergeObject_cons_some k r b rest m :
  mergeObject ((k, r, b) :: rest) = Some m ->
  (exists x, r = Some x) /\ exists m', mergeObject rest = Some m'.
Proof.
  cbn [mergeObject]. destruct r as [x|]; [|discriminate].
  destruct (mergeObject rest) as [m'|]; [|discriminate]. eauto.
Qed.

Lemma mergeArray_cons_some r rest l :
  mergeArray (r :: rest) = Some l ->
  (exists x, r = Some x) /\ exists l', mergeArray rest = Some l'.
Proof.
  cbn [mergeArray]. destruct r as [x|]; [|discriminate].
  destruct (mergeArray rest) as [l'|]; [|discriminate]. eauto.
Qed.

Lemma conforms_undefined s : conforms s VUndefined = false.
Proof. destruct s; reflexivity. Qed.

(** Arguments that pass a zod schema without issue conform to the
    advertised shape compatible with it; only an optional schema lets
    [undefined] through. *)
Lemma parse_conforms t :
  forall s v p v',
    compatible s t = true -> well_declared s = true ->
    elements_required t = true ->
    _parse t p v = ([], Some v') ->
    (v = VUndefined /\ is_optional t = true) \/ conforms s v = true.
Proof.
  induction t as [|t IH|t IH|shape IH|t check msg IH] using ZodType_ind';
    intros s v p v' Hc Hw He H.
  - destruct s; try discriminate Hc.
    destruct v; cbn in H; try discriminate H. now right.
  - cbn [compatible] in Hc. cbn [elements_required] in He.
    destruct v; try (left; split; reflexivity); right; cbn [_parse] in H;
      destruct (IH s _ p v' Hc Hw He H) as [[C _]|C];
      first [discriminate C | exact C].
  - destruct s as [|items|]; try discriminate Hc.
    cbn [compatible] in Hc. cbn [well_declared] in Hw.
    cbn [elements_required] in He. apply andb_prop in He.
    destruct He as [Hno He]. apply negb_true_iff in Hno.
    destruct v as [| | | | |l|]; try (cbn in H; discriminate H).
    right. cbn [conforms]. cbn [_parse] in H.
    inversion H as [[H1 H2]]. clear H.
    destruct (mergeArray _) as [l'|] eqn:E in H2; [|discriminate H2].
    clear H2 v'. unfold indexed in H1, E. revert l' H1 E.
    generalize 0 as i. induction l as [|x l IHl]; intros i l' H1 E;
      [reflexivity|].
    cbn [indexed_from map fst snd concat] in H1, E.
    apply app_eq_nil in H1. destruct H1 as [Hx Hl].
    apply mergeArray_cons_some in E. destruct E as [[x' Ex] [l'' El]].
    cbn [forallb]. rewrite (IHl (S i) l'' Hl El), andb_true_r.
    destruct (_parse t (p ++ [PIndex i])%list x) as [iss r] eqn:Px.
    cbn [fst snd] in Hx, Ex. subst iss r.
    destruct (IH items x _ x' Hc Hw He Px) as [[_ C]|C];
      [congruence|exact C].
  - destruct s as [| |props required]; try discriminate Hc.
    destruct v as [| | | | | |m]; try (cbn in H; discriminate H).
    right. cbn [compatible] in Hc. cbn [well_declared] in Hw.
    apply andb_prop in Hw. destruct Hw as [Hreq Hwp].
    cbn [elements_required] in He.
    rewrite parse_object_eq in H. inversion H as [[H1 H2]]. clear H.
    destruct (mergeObject _) as [m'|] eqn:E in H2; [|discriminate H2].
    clear H2 v'.
    assert (A : forallb
                  (fun ks : string * JSONSchema =>
                     (negb (existsb (String.eqb (fst ks)) required)
                      || present (VObj m) (fst ks))
                     && match get (VObj m) (fst ks) with
                        | VUndefined => true
                        | x => conforms (snd ks) x
                        end) props = true).
    { clear Hreq. revert props Hc Hwp He H1 m' E.
      induction shape as [|[k' tk] shape' IHs];
        intros props Hc Hwp He H1 m' E.
      - destruct props as [|[k sk] props']; [reflexivity|discriminate Hc].
      - destruct props as [|[k sk] props']; [discriminate Hc|].
        inversion IH as [|? ? IHt IHrest]; subst. cbn [snd] in IHt.
        apply andb_prop in Hc. destruct Hc as [Hc Hrest].
        apply andb_prop in Hc. destruct Hc as [Hc Hcompat].
        apply andb_prop in Hc. destruct Hc as [Hkey Hopt].
        apply String.eqb_eq in Hkey. subst k'.
        cbn [forallb snd] in Hwp. apply andb_prop in Hwp.
        destruct Hwp as [Hwk Hwp].
        apply andb_prop in He. destruct He as [Hek He].
        cbn [parse_keys map fst snd concat] in H1, E.
        apply app_eq_nil in H1. destruct H1 as [Hx Hl].
        apply mergeObject_cons_some in E. destruct E as [[x' Ex] [m'' Em]].
        cbn [forallb fst snd].
        rewrite (IHs IHrest props' Hrest Hwp He Hl m'' Em), andb_true_r.
        destruct (_parse tk (p ++ [PKey k])%list (get (VObj m) k))
          as [iss r] eqn:Px.
        cbn [fst snd] in Hx, Ex. subst iss r.
        destruct (IHt sk _ _ x' Hcompat Hwk Hek Px) as [[Cu Co]|C].
        + rewrite Co in Hopt. apply eqb_prop in Hopt.
          symmetry in Hopt. apply negb_true_iff in Hopt.
          rewrite Hopt, Cu. reflexivity.
        + unfold present.
          destruct (get (VObj m) k) eqn:G;
            try (rewrite orb_true_r; exact C).
          now rewrite conforms_undefined in C. }
    cbn [conforms]. apply andb_true_intro. split.
    + apply forallb_forall. intros k Hk.
      rewrite forallb_forall in Hreq. specialize (Hreq k Hk).
      apply existsb_exists in Hreq. destruct Hreq as (k0 & Hin & Hk0).
      apply String.eqb_eq in Hk0. subst k0.
      apply in_map_iff in Hin. destruct Hin as ([k1 sk] & Ek & Hin).
      cbn [fst] in Ek. subst k1.
      rewrite forallb_forall in A. specialize (A _ Hin). cbn [fst snd] in A.
      apply andb_prop in A. destruct A as [A _].
      assert (R : existsb (String.eqb k) required = true).
      { apply existsb_exists. exists k. split; [exact Hk|apply String.eqb_refl]. }
      now rewrite R in A.
    + apply forallb_forall. intros ks Hin.
      rewrite forallb_forall in A. specialize (A _ Hin).
      apply andb_prop in A. tauto.
  - discriminate Hc.
Qed.

Lemma safeParse_inr t args v :
  safeParse t args = inr v -> _parse t [] args = ([], Some v).
Proof.
  unfold safeParse. destruct (_parse t [] args) as [[|i iss] [x|]];
    intros H; inversion H; reflexivity.
Qed.

Lemma plain_accepts_iff S s args :
  compatible s S = true -> well_declared s = true ->
  elements_required S = true -> is_optional S = false ->
  (exists validated, safeParse S args = inr validated)
  <-> conforms s args = true.
Proof.
  intros Hc Hw He Ho. split.
  - intros [v Hv]. apply safeParse_inr in Hv.
    destruct (parse_conforms S s args [] v Hc Hw He Hv) as [[_ C]|C];
      [congruence|exact C].
  - intros H. exact (plain_schema_validates S s args H Hc).
Qed.

Lemma refined_accepts_iff shape msg s args :
  distinct (map fst shape) = true ->
  validator_of "user_id" shape = Some (z_optional z_string) ->
  validator_of "project_id" shape = Some (z_optional z_string) ->
  compatible s (z_object shape) = true -> well_declared s = true ->
  elements_required (z_object shape) = true ->
  (exists validated,
     safeParse
       (z_refine (z_object shape)
          (fun data => or_else (get data "user_id") (get data "project_id"))
          msg) args = inr validated)
  <-> conforms s args = true
      /\ truthy (or_else (get args "user_id") (get args "project_id")) = true.
Proof.
  intros Hd Hu Hp Hc Hw He. split.
  - intros [v Hv]. apply safeParse_inr in Hv. rewrite parse_refine_eq in Hv.
    destruct (_parse (z_object shape) [] args) as [iss [x|]] eqn:E;
      cbn [fst snd] in Hv; [|discriminate Hv].
    rewrite (refine_sees_input shape Hd Hu Hp _ _ _ E) in Hv.
    destruct (truthy (or_else (get args "user_id") (get args "project_id")));
      [|destruct iss; discriminate Hv].
    inversion Hv; subst. split; [|reflexivity].
    destruct (parse_conforms (z_object shape) s args [] v Hc Hw He E)
      as [[_ C]|C]; [discriminate C|exact C].
  - intros [H Ht].
    destruct (conforms_parse (z_object shape) s args [] Hc H) as [v E].
    exists v. exact (refine_accepts shape msg Hd Hu Hp args v E Ht).
Qed.

(** Acceptance by the schema of a tool, in terms of the advertised
    shape. *)
Lemma schema_accepts_iff tool t S args :
  In (tool, t) TOOLS -> In (tool, S) tool_schemas ->
  (exists validated, safeParse S args = inr validated)
  <-> conforms (inputSchema t) args = true
      /\ (In tool either_or_tools ->
          truthy (or_else (get args "user_id") (get args "project_id"))
          = true).
Proof.
  intros HT HS. unfold TOOLS in HT. unfold tool_schemas in HS.
  cbn [In] in HT, HS.
  destruct HS as [HS|[HS|[HS|[HS|[HS|[HS|[HS|[HS|[HS|[]]]]]]]]]];
    inversion HS; subst; clear HS;
    destruct HT as [HT|[HT|[HT|[HT|[HT|[HT|[HT|[HT|[HT|[]]]]]]]]]];
    inversion HT; subst; clear HT; cbn [inputSchema].
  - match goal with
    | |- context [conforms ?s args] =>
        rewrite (plain_accepts_iff StartAutomationSchema s args
                   eq_refl eq_refl eq_refl eq_refl)
    end.
    split; [intros H; split; [exact H|]|tauto].
    intros Hin. cbn in Hin. repeat (destruct Hin as [Hin|Hin]; [discriminate Hin|]).
    contradiction.
  - match goal with
    | |- context [conforms ?s args] =>
        rewrite (refined_accepts_iff (shape_of RetrieveRunDetailsSchema)
                   "Either user_id or project_id is required" s args
                   eq_refl eq_refl eq_refl eq_refl eq_refl eq_refl)
    end.
    split; [tauto|]. intros [H Ht]. split; [exact H|]. apply Ht. in_list.
  - match goal with
    | |- context [conforms ?s args] =>
        rewrite (refined_accepts_iff (shape_of ListSavedFlowsSchema)
                   "Either user_id or project_id is required" s args
                   eq_refl eq_refl eq_refl eq_refl eq_refl eq_refl)
    end.
    split; [tauto|]. intros [H Ht]. split; [exact H|]. apply Ht. in_list.
  - match goal with
    | |- context [conforms ?s args] =>
        rewrite (refined_accepts_iff (shape_of ListWorkbooksSchema)
                   "Either user_id or project_id is required" s args
                   eq_refl eq_refl eq_refl eq_refl eq_refl eq_refl)
    end.
    split; [tauto|]. intros [H Ht]. split; [exact H|]. apply Ht. in_list.
  - match goal with
    | |- context [conforms ?s args] =>
        rewrite (refined_accepts_iff (shape_of RetrieveInputSchemaSchema)
                   "Either user_id or project_id is required" s args
                   eq_refl eq_refl eq_refl eq_refl eq_refl eq_refl)
    end.
    split; [tauto|]. intros [H Ht]. split; [exact H|]. apply Ht. in_list.
  - match goal with
    | |- context [conforms ?s args] =>
        rewrite (refined_accepts_iff (shape_of UploadFileSchema)
                   "Either user_id or project_id is required" s args
                   eq_refl eq_refl eq_refl eq_refl eq_refl eq_refl)
    end.
    split; [tauto|]. intros [H Ht]. split; [exact H|]. apply Ht. in_list.
  - match goal with
    | |- context [conforms ?s args] =>
        rewrite (refined_accepts_iff (shape_of UploadMultipleFilesSchema)
                   "Either user_id or project_id is required" s args
                   eq_refl eq_refl eq_refl eq_refl eq_refl eq_refl)
    end.
    split; [tauto|]. intros [H Ht]. split; [exact H|]. apply Ht. in_list.
  - match goal with
    | |- context [conforms ?s args] =>
        rewrite (plain_accepts_iff DownloadFileSchema s args
                   eq_refl eq_refl eq_refl eq_refl)
    end.
    split; [intros H; split; [exact H|]|tauto].
    intros Hin. cbn in Hin. repeat (destruct Hin as [Hin|Hin]; [discriminate Hin|]).
    contradiction.
  - match goal with
    | |- context [conforms ?s args] =>
        rewrite (refined_accepts_iff (shape_of DownloadMultipleFilesSchema)
                   "Either user_id or project_id is required" s args
                   eq_refl eq_refl eq_refl eq_refl eq_refl eq_refl)
    end.
    split; [tauto|]. intros [H Ht]. split; [exact H|]. apply Ht. in_list.
Qed.

(** X1: for every tool, the arguments pass the schema the handler parses
    with exactly when they conform to the shape the registry advertises
    for the tool and, for the tools with the either/or refinement, one of
    [user_id] and [project_id] is truthy. *)
Theorem validation_accepts_exactly_conforming tool t S args :
  In (tool, t) TOOLS -> In (tool, S) tool_schemas ->
  (exists validated, safeParse S args = inr validated)
  <-> conforms (inputSchema t) args = true
      /\ (In tool either_or_tools ->
          truthy (or_else (get args "user_id") (get args "project_id"))
          = true).
Proof. exact (schema_accepts_iff tool t S args). Qed.

Lemma validation_accepts_exactly_conforming_witness :
  (exists validated,
     safeParse ListSavedFlowsSchema (VObj [("project_id", VStr "p1")])
     = inr validated)
  <-> conforms (inputSchema sample_tool) (VObj [("project_id", VStr "p1")])
      = true
      /\ (In "listSavedFlows" either_or_tools ->
          truthy (or_else (get (VObj [("project_id", VStr "p1")]) "user_id")
                          (get (VObj [("project_id", VStr "p1")]) "project_id"))
          = true).
Proof.
  apply (validation_accepts_exactly_conforming "listSavedFlows" sample_tool
           ListSavedFlowsSchema (VObj [("project_id", VStr "p1")])).
  - right. right. left. reflexivity.
  - right. right. left. reflexivity.
Defined.

(** ** Calls that are rejected, calls that reach the network *)

Lemma safeParse_inl_nonempty t v issues :
  safeParse t v = inl issues -> issues <> [].
Proof.
  unfold safeParse. destruct (_parse t [] v) as [iss [x|]] eqn:E.
  - destruct iss; intros H; inversion H. discriminate.
  - intros H. apply aborted_has_issue in E.
    destruct iss; inversion H; subst; assumption.
Qed.

Lemma tool_has_schema tool t :
  In (tool, t) TOOLS -> exists S, In (tool, S) tool_schemas.
Proof.
  intros H. unfold TOOLS in H. cbn [In] in H.
  repeat (destruct H as [H|H];
          [inversion H; subst; eexists; cbn; tauto|]).
  contradiction.
Qed.

Lemma advertised_has_schema tool :
  existsb (String.eqb tool) (map fst TOOLS) = true ->
  exists S, In (tool, S) tool_schemas.
Proof.
  intros H. apply existsb_exists in H. destruct H as (k & Hin & Hk).
  apply String.eqb_eq in Hk. subst k. apply in_map_iff in Hin.
  destruct Hin as ([k t] & Ek & Hin). cbn [fst] in Ek. subst k.
  exact (tool_has_schema tool t Hin).
Qed.

Lemma unknown_call fetch api tool args :
  existsb (String.eqb tool) (map fst TOOLS) = false ->
  call_tool fetch api {| name := tool; arguments := args |}
  = ([], inr (error_result ("Unknown tool: " ++ tool))).
Proof.
  intros H. cbn [TOOLS map fst existsb] in H.
  repeat (apply orb_false_elim in H;
          let E := fresh "E" in destruct H as [E H]).
  unfold call_tool. cbn [name arguments].
  rewrite E, E0, E1, E2, E3, E4, E5, E6, E7. reflexivity.
Qed.

(** X2: for every tool, arguments that do not conform to the shape the
    registry advertises (a required field missing, a declared field of
    another type, [null] for an optional field) are rejected with a
    [ZodError] before any effect: the result is error-flagged and the
    trace is empty. *)
Theorem nonconforming_call_is_rejected fetch api tool t args :
  In (tool, t) TOOLS ->
  conforms (inputSchema t) args = false ->
  exists issues,
    issues <> []
    /\ handler fetch api {| name := tool; arguments := args |}
       = ({| content :=
               [{| type := "text";
                   text := Some ("API error: " ++ ZodError_message issues) |}];
             isError := Some true |}, []).
Proof.
  intros HT Hc. destruct (tool_has_schema tool t HT) as [S HS].
  destruct (safeParse S args) as [issues|validated] eqn:E.
  - exists issues. split; [exact (safeParse_inl_nonempty _ _ _ E)|].
    exact (proj2 (rejected_call fetch api tool S args issues HS E)).
  - assert (C : conforms (inputSchema t) args = true).
    { apply (schema_accepts_iff tool t S args HT HS). eauto. }
    congruence.
Qed.

Lemma nonconforming_call_is_rejected_witness :
  exists issues,
    issues <> []
    /\ handler (always sample_json_response) sample_api
         {| name := "listSavedFlows";
            arguments := VObj [("user_id", VNum 7)] |}
       = ({| content :=
               [{| type := "text";
                   text := Some ("API error: " ++ ZodError_message issues) |}];
             isError := Some true |}, []).
Proof.
  apply (nonconforming_call_is_rejected (always sample_json_response)
           sample_api "listSavedFlows" sample_tool
           (VObj [("user_id", VNum 7)])).
  - right. right. left. reflexivity.
  - reflexivity.
Defined.

Lemma prefix_append a b : String.prefix a (a ++ b) = true.
Proof.
  induction a as [|c a IH]; cbn; [now destruct b|].
  destruct (ascii_dec c c); [exact IH|congruence].
Qed.

(** The trace and the request of [makeRequest]: one fetch with the two
    fixed headers to an address under the base address, then nothing
    (when it throws before reading) or one read of the body. *)
Lemma makeRequest_trace fetch api endpoint m data :
  exists url options rest outcome,
    makeRequest fetch api endpoint m data
    = (EvFetch url options :: rest, outcome)
    /\ headers options = [("Authorization", "Bearer " ++ apiKey api);
                          ("Content-Type", "application/json")]
    /\ String.prefix (baseUrl api) url = true
    /\ ((rest = [] /\ exists e, outcome = inl e)
        \/ exists ev, rest = [ev] /\ body_read ev).
Proof.
  unfold makeRequest. cbv zeta.
  match goal with
  | |- context [await_fetch _ ?u ?o] =>
      remember u as url eqn:Eu; remember o as options eqn:Eo
  end.
  assert (Hh : headers options = [("Authorization", "Bearer " ++ apiKey api);
                                  ("Content-Type", "application/json")])
    by (subst options; reflexivity).
  assert (Hp : String.prefix (baseUrl api) url = true).
  { subst url. destruct m, (truthy data); cbn [fst];
      rewrite ?append_assoc; try apply prefix_append.
    destruct (is_empty _); rewrite ?append_assoc; apply prefix_append. }
  clear Eu Eo. unfold bind, await_fetch.
  destruct (fetch url options) as [e|response].
  - exists url, options, [], (inl (Error e)). repeat split; eauto.
  - destruct (negb (ok response)).
    + do 4 eexists. split; [reflexivity|].
      split; [exact Hh|]. split; [exact Hp|].
      left. split; [reflexivity|eexists; reflexivity].
    + destruct (content_type response) as [ct|];
        [destruct (negb (is_empty ct) && includes "application/json" ct)|];
        unfold response_json, response_arrayBuffer; cbn [fst snd app];
        do 4 eexists; (split; [reflexivity|]);
        (split; [exact Hh|]); (split; [exact Hp|]);
        right; eexists; (split; [reflexivity|]); unfold body_read; tauto.
Qed.

(** X3: whatever the request, a call performs at most one fetch, and it is
    the first effect: the trace is empty, or it is one fetch that carries
    the bearer credential and the JSON content type to an address under
    the base address, followed by at most one read of the body. A result
    that is not error-flagged always comes from a fetch and a read of the
    body. *)
Theorem call_performs_at_most_one_fetch fetch api request :
  (snd (handler fetch api request) = []
   /\ isError (fst (handler fetch api request)) = Some true)
  \/ exists url options rest,
       snd (handler fetch api request) = EvFetch url options :: rest
       /\ headers options = [("Authorization", "Bearer " ++ apiKey api);
                             ("Content-Type", "application/json")]
       /\ String.prefix (baseUrl api) url = true
       /\ ((rest = [] /\ isError (fst (handler fetch api request)) = Some true)
           \/ exists ev, rest = [ev] /\ body_read ev).
Proof.
  destruct request as [tool args]. rewrite handler_of_call_tool.
  destruct (existsb (String.eqb tool) (map fst TOOLS)) eqn:Ex.
  - destruct (advertised_has_schema tool Ex) as [S HS].
    destruct (schema_has_route tool S HS) as (m & p & HR).
    rewrite (call_tool_dispatch _ _ _ _ _ _ _ HS HR). unfold parse.
    destruct (safeParse S args) as [issues|validated].
    + left. split; reflexivity.
    + right. rewrite bind_ret.
      destruct (makeRequest_trace fetch api p m validated)
        as (url & options & rest & outcome & E & Hh & Hp & Hr).
      rewrite E. exists url, options, rest.
      destruct Hr as [[-> [e ->]]|[ev [-> Hev]]].
      * cbn. repeat split; try assumption. left. split; reflexivity.
      * destruct outcome as [e|result]; cbn;
          repeat split; try assumption; right; exists ev; split;
          trivial.
  - left. rewrite (unknown_call fetch api tool args Ex). split; reflexivity.
Qed.

(** ** The query string of the GET tools *)

Lemma refine_accepts_inv inner check msg args v :
  safeParse (z_refine inner check msg) args = inr v ->
  _parse inner [] args = ([], Some v) /\ truthy (check v) = true.
Proof.
  intros H. apply safeParse_inr in H. rewrite parse_refine_eq in H.
  destruct (_parse inner [] args) as [iss [x|]]; cbn [fst snd] in H;
    [|discriminate H].
  destruct (truthy (check x)) eqn:T.
  - inversion H; subst. now split.
  - destruct iss; discriminate H.
Qed.

Lemma string_validator_parse t p v x :
  string_validator t = true -> _parse t p v = ([], Some x) ->
  x = v /\ (v = VUndefined \/ exists s, v = VStr s).
Proof.
  intros Ht H. destruct t as [|[| | | |]| | |]; try discriminate Ht;
    destruct v; cbn in H; inversion H; subst; split; eauto.
Qed.

(** The query parameters of the output of a string-only object schema are
    the declared fields the input gives as strings. *)
Lemma string_shape_query shape p m out :
  string_shape shape = true ->
  _parse (z_object shape) p (VObj m) = ([], Some out) ->
  query_params out = string_fields (VObj m) (map fst shape).
Proof.
  intros Hs H. rewrite parse_object_eq in H. inversion H as [[H1 H2]].
  clear H. destruct (mergeObject _) as [mo|] eqn:E in H2; [|discriminate H2].
  inversion H2; subst out. clear H2.
  unfold query_params. cbn [Object_entries].
  rewrite query_params_fold. cbn [app].
  revert mo H1 E. induction shape as [|[k t] shape IH]; intros mo H1 E.
  - cbn in E. inversion E. reflexivity.
  - cbn [string_shape forallb fst snd] in Hs. apply andb_prop in Hs.
    destruct Hs as [Hk Hs]. apply andb_prop in Hk. destruct Hk as [Ht Hk].
    cbn [parse_keys map fst snd concat] in H1, E.
    apply app_eq_nil in H1. destruct H1 as [Hx Hl].
    destruct (_parse t (p ++ [PKey k])%list (get (VObj m) k)) as [iss r] eqn:P.
    cbn [fst snd] in Hx, E. subst iss.
    cbn [mergeObject] in E. destruct r as [x|]; [|discriminate E].
    destruct (mergeObject _) as [mr|] eqn:Er in E; [|discriminate E].
    specialize (IH Hs mr Hl Er).
    destruct (string_validator_parse t _ _ x Ht P) as [-> Hv].
    unfold string_fields in *. cbn [map flat_map fst]. rewrite Hk in E.
    destruct Hv as [Hv|[s Hv]]; rewrite Hv in E |- *; cbn [andb orb] in E.
    + destruct (has_key (VObj m) k); inversion E; subst mo;
        cbn [filter snd is_present app]; exact IH.
    + inversion E; subst mo. cbn [filter snd is_present map fst ToString app].
      now rewrite IH.
Qed.

Lemma object_output shape p v iss out :
  _parse (z_object shape) p v = (iss, Some out) ->
  exists m mo, v = VObj m /\ out = VObj mo.
Proof.
  intros H. destruct v as [| | | | | |m]; try (cbn in H; discriminate H).
  rewrite parse_object_eq in H. inversion H as [[H1 H2]].
  destruct (mergeObject _) as [mo|] in H2; [|discriminate H2].
  inversion H2. eauto.
Qed.

Lemma makeRequest_get fetch api endpoint data :
  truthy data = true ->
  exists rest outcome,
    makeRequest fetch api endpoint GET data
    = (EvFetch
         (baseUrl api ++ endpoint
          ++ (if is_empty (URLSearchParams_toString (query_params data))
              then ""
              else "?" ++ URLSearchParams_toString (query_params data)))
         {| method := GET;
            headers := [("Authorization", "Bearer " ++ apiKey api);
                        ("Content-Type", "application/json")];
            body := None |} :: rest, outcome).
Proof.
  intros Ht. unfold makeRequest. cbv zeta. rewrite Ht. cbn [fst snd].
  destruct (is_empty (URLSearchParams_toString (query_params data)));
    rewrite ?append_nil_r, ?append_assoc; unfold bind, await_fetch;
    match goal with
    | |- context [fetch ?u ?o] => destruct (fetch u o) as [e|response]
    end; do 2 eexists; reflexivity.
Qed.

(** The four GET tools parse with a refined object schema whose fields
    are all strings. *)
Lemma get_tool_schema tool S path :
  In (tool, S) tool_schemas -> In (tool, (GET, path)) spec_routes ->
  S = z_refine (z_object (shape_of S))
        (fun data => or_else (get data "user_id") (get data "project_id"))
        "Either user_id or project_id is required"
  /\ string_shape (shape_of S) = true
  /\ In "user_id" (map fst (shape_of S))
  /\ In "project_id" (map fst (shape_of S)).
Proof.
  intros HS HR. unfold tool_schemas, spec_routes in *. cbn [In] in HS, HR.
  destruct HS as [HS|[HS|[HS|[HS|[HS|[HS|[HS|[HS|[HS|[]]]]]]]]]];
    inversion HS; subst; clear HS;
    destruct HR as [HR|[HR|[HR|[HR|[HR|[HR|[HR|[HR|[HR|[]]]]]]]]]];
    inversion HR; subst; clear HR;
    (split; [reflexivity|]); (split; [reflexivity|]); split; in_list.
Qed.

Lemma string_fields_in args keys k s :
  In k keys -> get args k = VStr s -> In (k, s) (string_fields args keys).
Proof.
  intros Hin Hg. unfold string_fields. apply in_flat_map.
  exists k. split; [exact Hin|]. rewrite Hg. now left.
Qed.

(** X4: for the four GET tools, a call that passes validation fetches the
    endpoint followed by ["?"] and the serialization of exactly the
    declared fields that the caller gave as strings, in the order the
    schema declares them; arguments the schema does not declare never
    reach the address, and the query is never empty. *)
Theorem get_query_holds_declared_string_fields
    fetch api tool S path args validated :
  In (tool, S) tool_schemas -> In (tool, (GET, path)) spec_routes ->
  safeParse S args = inr validated ->
  string_fields args (map fst (shape_of S)) <> []
  /\ exists rest outcome,
       call_tool fetch api {| name := tool; arguments := args |}
       = (EvFetch
            (baseUrl api ++ path ++ "?"
             ++ URLSearchParams_toString
                  (string_fields args (map fst (shape_of S))))
            {| method := GET;
               headers := [("Authorization", "Bearer " ++ apiKey api);
                           ("Content-Type", "application/json")];
               body := None |} :: rest, outcome).
Proof.
  intros HS HR Hv.
  destruct (get_tool_schema tool S path HS HR) as (ES & Hss & Hu & Hp).
  pose proof Hv as Hv'. rewrite ES in Hv'.
  apply refine_accepts_inv in Hv'. destruct Hv' as [E Ht].
  destruct (object_output _ _ _ _ _ E) as (m & mo & -> & ->).
  pose proof (string_shape_query _ _ _ _ Hss E) as Q.
  assert (Hne : string_fields (VObj m) (map fst (shape_of S)) <> []).
  { rewrite <- Q. unfold query_params.
    cbn [Object_entries]. rewrite query_params_fold. cbn [app].
    rewrite truthy_or_else in Ht. apply orb_true_iff in Ht.
    intros C. apply map_eq_nil in C.
    assert (F : forall k, truthy (get (VObj mo) k) = true ->
                          exists v, In (k, v) mo /\ is_present v = true).
    { intros k Hk. unfold get in Hk. destruct (lookup k mo) as [v|] eqn:L;
        [|discriminate Hk]. exists v. split; [|now destruct v].
      clear -L. induction mo as [|[k' v'] mo IH]; [discriminate L|].
      cbn [lookup] in L. destruct (String.eqb_spec k k') as [->|N].
      - inversion L. now left.
      - right. exact (IH L). }
    destruct Ht as [Ht|Ht]; destruct (F _ Ht) as (v & Hin & Hpv);
      assert (Hf : In (_, v) (filter (fun kv : string * value =>
                                       is_present (snd kv)) mo))
        by (apply filter_In; split; [exact Hin|exact Hpv]);
      rewrite C in Hf; exact Hf. }
  split; [exact Hne|].
  rewrite (call_tool_dispatch _ _ _ _ _ _ _ HS HR).
  rewrite (parse_accepts _ _ _ Hv), bind_ret.
  destruct (makeRequest_get fetch api path (VObj mo) eq_refl)
    as (rest & outcome & M).
  rewrite Q in M.
  assert (Ne : is_empty (URLSearchParams_toString
                           (string_fields (VObj m) (map fst (shape_of S))))
               = false).
  { destruct (string_fields (VObj m) (map fst (shape_of S)))
      as [|[k s] q]; [congruence|].
    unfold URLSearchParams_toString. cbn [map fst snd].
    destruct (map _ q); cbn [join]; destruct (urlencode k); reflexivity. }
  rewrite Ne in M. rewrite M. unfold bind.
  destruct outcome as [e|result]; do 2 eexists; cbn [fst snd ret];
    rewrite ?app_nil_r; reflexivity.
Qed.

Lemma get_query_holds_declared_string_fields_witness :
  string_fields
    (VObj [("verbose", VBool true); ("user_id", VStr "u 1");
           ("run_id", VStr "r1")])
    (map fst (shape_of RetrieveRunDetailsSchema)) <> []
  /\ exists rest outcome,
       call_tool (always sample_json_response) sample_api
         {| name := "retrieveRunDetails";
            arguments := VObj [("verbose", VBool true);
                               ("user_id", VStr "u 1");
                               ("run_id", VStr "r1")] |}
       = (EvFetch
            (baseUrl sample_api ++ "/get_pl_run" ++ "?"
             ++ URLSearchParams_toString
                  (string_fields
                     (VObj [("verbose", VBool true); ("user_id", VStr "u 1");
                            ("run_id", VStr "r1")])
                     (map fst (shape_of RetrieveRunDetailsSchema))))
            {| method := GET;
               headers := [("Authorization", "Bearer " ++ apiKey sample_api);
                           ("Content-Type", "application/json")];
               body := None |} :: rest, outcome).
Proof.
  apply (get_query_holds_declared_string_fields
           (always sample_json_response) sample_api "retrieveRunDetails"
           RetrieveRunDetailsSchema "/get_pl_run"
           (VObj [("verbose", VBool true); ("user_id", VStr "u 1");
                  ("run_id", VStr "r1")])
           (VObj [("run_id", VStr "r1"); ("user_id", VStr "u 1")])).
  - right. left. reflexivity.
  - right. left. reflexivity.
  - reflexivity.
Defined.

(** The query of the sample call lists the declared fields in schema
    order, percent-encoded, without the undeclared one. *)
Example sample_query_text :
  URLSearchParams_toString
    (string_fields
       (VObj [("verbose", VBool true); ("user_id", VStr "u 1");
              ("run_id", VStr "r1")])
       (map fst (shape_of RetrieveRunDetailsSchema)))
  = "run_id=r1&user_id=u+1".
Proof. reflexivity. Qed.

(** ** The body of the POST tools *)

Lemma parse_undefined t :
  forall p iss x, _parse t p VUndefined = (iss, Some x) -> x = VUndefined.
Proof.
  induction t as [|t IH|t IH|shape IH|t check msg IH] using ZodType_ind';
    intros p iss x H; try (cbn in H; inversion H; reflexivity).
  rewrite parse_refine_eq in H.
  destruct (_parse t p VUndefined) as [iss' [y|]] eqn:E; cbn [fst snd] in H;
    [|discriminate H].
  apply IH in E. subst y.
  destruct (truthy (check VUndefined)); inversion H; reflexivity.
Qed.

Lemma mergeObject_in pairs m k v :
  mergeObject pairs = Some m -> In (k, v) m ->
  exists b, In (k, Some v, b) pairs /\ (v <> VUndefined \/ b = true).
Proof.
  revert m. induction pairs as [|[[k0 [v0|]] b0] r IH]; cbn [mergeObject];
    intros m H Hin.
  - inversion H; subst. contradiction.
  - destruct (mergeObject r) as [mr|] eqn:E; [|discriminate H].
    destruct (negb (k0 =? "__proto__") && _) eqn:C; inversion H; subst.
    + destruct Hin as [Hin|Hin].
      * inversion Hin; subst. exists b0. split; [now left|].
        apply andb_prop in C. destruct C as [_ C].
        apply orb_true_iff in C. destruct C as [C|C]; [left|now right].
        intros ->. discriminate C.
      * destruct (IH mr eq_refl Hin) as (b & Hb & Hd). exists b.
        split; [now right|exact Hd].
    + destruct (IH m eq_refl Hin) as (b & Hb & Hd). exists b.
      split; [now right|exact Hd].
  - discriminate H.
Qed.

Lemma parse_keys_pairs shape p input k r b :
  In (k, r, b)
     (map (fun pr : string * ParseReturn * bool =>
             (fst (fst pr), snd (snd (fst pr)), snd pr))
          (parse_keys shape p input)) ->
  In k (map fst shape) /\ b = has_key input k
  /\ exists t, r = snd (_parse t (p ++ [PKey k])%list (get input k)).
Proof.
  induction shape as [|[k0 t0] shape IH]; cbn [parse_keys map fst snd In];
    [contradiction|].
  intros [H|H].
  - inversion H; subst. split; [now left|]. split; [reflexivity|eauto].
  - destruct (IH H) as (A & B & C). split; [now right|]. split; assumption.
Qed.

(** The output of an object schema has only declared keys that the input
    holds. *)
Lemma object_output_keys shape p m iss mo :
  _parse (z_object shape) p (VObj m) = (iss, Some (VObj mo)) ->
  forall k, In k (map fst mo) ->
            In k (map fst shape) /\ has_key (VObj m) k = true.
Proof.
  intros H k Hk. rewrite parse_object_eq in H. inversion H as [[H1 H2]].
  destruct (mergeObject _) as [mo'|] eqn:E in H2; [|discriminate H2].
  inversion H2; subst mo'. clear H H1 H2.
  apply in_map_iff in Hk. destruct Hk as ([k' v] & Ek & Hin).
  cbn [fst] in Ek. subst k'.
  destruct (mergeObject_in _ _ _ _ E Hin) as (b & Hb & Hd).
  destruct (parse_keys_pairs _ _ _ _ _ _ Hb) as (A & B & t & C).
  split; [exact A|]. destruct Hd as [Hd|Hd]; [|congruence].
  destruct (has_key (VObj m) k) eqn:K; [reflexivity|exfalso].
  assert (G : get (VObj m) k = VUndefined).
  { unfold has_key in K. unfold get. now destruct (lookup k m). }
  rewrite G in C.
  destruct (_parse t (p ++ [PKey k])%list VUndefined) as [iss' r] eqn:P.
  cbn [snd] in C. subst r. apply parse_undefined in P. contradiction.
Qed.

Lemma makeRequest_post fetch api endpoint data :
  truthy data = true ->
  exists rest outcome,
    makeRequest fetch api endpoint POST data
    = (EvFetch (baseUrl api ++ endpoint)
         {| method := POST;
            headers := [("Authorization", "Bearer " ++ apiKey api);
                        ("Content-Type", "application/json")];
            body := JSON_stringify data |} :: rest, outcome).
Proof.
  intros Ht. unfold makeRequest. cbv zeta. rewrite Ht. cbn [fst snd].
  unfold bind, await_fetch.
  match goal with
  | |- context [fetch ?u ?o] => destruct (fetch u o) as [e|response]
  end; do 2 eexists; reflexivity.
Qed.

(** Every schema of the handler is an object schema, bare or refined. *)
Lemma schema_form tool S :
  In (tool, S) tool_schemas ->
  unrefined S = z_object (shape_of S)
  /\ (S = unrefined S \/ exists check msg, S = z_refine (unrefined S) check msg).
Proof.
  intros H. unfold tool_schemas in H. cbn [In] in H.
  destruct H as [H|[H|[H|[H|[H|[H|[H|[H|[H|[]]]]]]]]]];
    inversion H; subst; (split; [reflexivity|]);
    first [left; reflexivity | right; do 2 eexists; reflexivity].
Qed.

Lemma validated_by_object tool S args validated :
  In (tool, S) tool_schemas -> safeParse S args = inr validated ->
  _parse (z_object (shape_of S)) [] args = ([], Some validated).
Proof.
  intros HS Hv. destruct (schema_form tool S HS) as [Eu [E|(check & msg & E)]].
  - rewrite <- Eu, <- E. now apply safeParse_inr.
  - rewrite E in Hv. apply refine_accepts_inv in Hv. rewrite <- Eu. tauto.
Qed.

(** X5: for the five POST tools, a call that passes validation fetches
    exactly the endpoint, without a query string, with the body
    [JSON.stringify] of the validated object; every key of that object is
    declared by the schema of the tool and was supplied by the caller, so
    undeclared arguments are never forwarded. *)
Theorem post_body_holds_declared_keys
    fetch api tool S path args validated :
  In (tool, S) tool_schemas -> In (tool, (POST, path)) spec_routes ->
  safeParse S args = inr validated ->
  exists mo rest outcome,
    validated = VObj mo
    /\ (forall k, In k (map fst mo) ->
                  In k (map fst (shape_of S)) /\ has_key args k = true)
    /\ call_tool fetch api {| name := tool; arguments := args |}
       = (EvFetch (baseUrl api ++ path)
            {| method := POST;
               headers := [("Authorization", "Bearer " ++ apiKey api);
                           ("Content-Type", "application/json")];
               body := JSON_stringify (VObj mo) |} :: rest, outcome).
Proof.
  intros HS HR Hv. pose proof (validated_by_object tool S args validated HS Hv) as E.
  destruct (object_output _ _ _ _ _ E) as (m & mo & -> & ->).
  destruct (makeRequest_post fetch api path (VObj mo) eq_refl)
    as (rest & outcome & M).
  exists mo. rewrite (call_tool_dispatch _ _ _ _ _ _ _ HS HR).
  rewrite (parse_accepts _ _ _ Hv), bind_ret, M. unfold bind.
  destruct outcome as [e|result]; do 2 eexists;
    (split; [reflexivity|]);
    (split; [exact (object_output_keys _ _ _ _ _ E)|]);
    cbn [fst snd ret]; rewrite ?app_nil_r; reflexivity.
Qed.

Lemma post_body_holds_declared_keys_witness :
  exists mo rest outcome,
    VObj [("user_id", VStr "u1"); ("saved_item_id", VStr "s1")] = VObj mo
    /\ (forall k, In k (map fst mo) ->
                  In k (map fst (shape_of StartAutomationSchema))
                  /\ has_key (VObj [("saved_item_id", VStr "s1");
                                    ("trace", VBool true);
                                    ("user_id", VStr "u1")]) k = true)
    /\ call_tool (always sample_json_response) sample_api
         {| name := "startAutomation";
            arguments := VObj [("saved_item_id", VStr "s1");
                               ("trace", VBool true);
                               ("user_id", VStr "u1")] |}
       = (EvFetch (baseUrl sample_api ++ "/start_pipeline")
            {| method := POST;
               headers := [("Authorization", "Bearer " ++ apiKey sample_api);
                           ("Content-Type", "application/json")];
               body := JSON_stringify (VObj mo) |} :: rest, outcome).
Proof.
  apply (post_body_holds_declared_keys (always sample_json_response)
           sample_api "startAutomation" StartAutomationSchema
           "/start_pipeline"
           (VObj [("saved_item_id", VStr "s1"); ("trace", VBool true);
                  ("user_id", VStr "u1")])
           (VObj [("user_id", VStr "u1"); ("saved_item_id", VStr "s1")])).
  - left. reflexivity.
  - left. reflexivity.
  - reflexivity.
Defined.

(** ** Start-up, in full *)

(** X6: [main] ends in a serving process exactly when the environment
    holds a non-empty [GUMLOOP_API_KEY] and the transport connects; the
    gateway then holds that key and the fixed base address. In every
    other case (key unset, key empty, transport failure) the process
    exits with status 1 after exactly one message on standard error. *)
Theorem main_serves_exactly_with_key_and_transport env connect :
  (forall api,
     main env connect = Serving api
     <-> env "GUMLOOP_API_KEY" = Some (apiKey api)
         /\ apiKey api <> ""
         /\ baseUrl api = "https://api.gumloop.com/api/v1"
         /\ connect = None)
  /\ (forall code stderr,
        main env connect = Exited code stderr ->
        code = 1%Z /\ length stderr = 1).
Proof.
  unfold main, new_GumloopAPI. split.
  - intros [base key]. cbn [apiKey baseUrl].
    destruct (env "GUMLOOP_API_KEY") as [k|] eqn:E.
    + unfold is_empty. destruct (String.eqb_spec k "") as [->|N].
      * split; [discriminate|]. intros (H & Hk & _). congruence.
      * destruct connect as [[| |]|]; split; try discriminate;
          try (intros (_ & _ & _ & C); discriminate C).
        -- intros H. inversion H; subst. repeat split; assumption.
        -- intros (H & _ & -> & _). inversion H. reflexivity.
    + split; [discriminate|]. intros (H & _). discriminate H.
  - intros code stderr.
    destruct (env "GUMLOOP_API_KEY") as [k|].
    + destruct (is_empty k).
      * intros H. inversion H. split; reflexivity.
      * destruct connect as [[| |]|]; intros H; inversion H;
          split; reflexivity.
    + intros H. inversion H. split; reflexivity.
Qed.

(** ** Failures of the network and of the body *)

Lemma makeRequest_fetch_rejects fetch api endpoint m data msg :
  (forall url options, fetch url options = inl msg) ->
  exists url options,
    makeRequest fetch api endpoint m data
    = ([EvFetch url options], inl (Error msg)).
Proof.
  intros Hf. unfold makeRequest, bind, await_fetch. rewrite Hf. eauto.
Qed.

(** X7: for every tool, when the arguments pass the schema and the fetch
    itself is rejected (no response arrives), the handler returns an
    error-flagged result holding the rejection message, and the trace is
    the fetch alone. *)
Theorem fetch_rejection_is_reported fetch api tool S args validated msg :
  In (tool, S) tool_schemas ->
  safeParse S args = inr validated ->
  (forall url options, fetch url options = inl msg) ->
  exists url options,
    handler fetch api {| name := tool; arguments := args |}
    = ({| content := [{| type := "text";
                         text := Some ("API error: " ++ msg) |}];
          isError := Some true |},
       [EvFetch url options]).
Proof.
  intros HS Hv Hf. destruct (schema_has_route tool S HS) as (m & p & HR).
  destruct (makeRequest_fetch_rejects fetch api p m validated msg Hf)
    as (url & options & E).
  exists url, options.
  rewrite handler_of_call_tool, (call_tool_dispatch _ _ _ _ _ _ _ HS HR).
  now rewrite (parse_accepts _ _ _ Hv), bind_ret, E.
Qed.

Lemma fetch_rejection_is_reported_witness :
  exists url options,
    handler (fun _ _ => inl "fetch failed") sample_api
      {| name := "listWorkbooks";
         arguments := VObj [("user_id", VStr "u1")] |}
    = ({| content := [{| type := "text";
                         text := Some ("API error: " ++ "fetch failed") |}];
          isError := Some true |},
       [EvFetch url options]).
Proof.
  apply (fetch_rejection_is_reported (fun _ _ => inl "fetch failed")
           sample_api "listWorkbooks" ListWorkbooksSchema
           (VObj [("user_id", VStr "u1")])
           (VObj [("user_id", VStr "u1")]) "fetch failed").
  - right. right. right. left. reflexivity.
  - reflexivity.
  - reflexivity.
Defined.

Lemma makeRequest_json_rejects
    fetch api endpoint m data response contentType msg :
  (forall url options, fetch url options = inr response) ->
  ok response = true ->
  content_type response = Some contentType ->
  includes "application/json" contentType = true ->
  json response = inl msg ->
  exists url options,
    makeRequest fetch api endpoint m data
    = ([EvFetch url options; EvJson], inl (Error msg)).
Proof.
  intros Hf Hok Hct Hinc Hj. unfold makeRequest, bind, await_fetch.
  rewrite Hf, Hok, Hct, Hinc.
  rewrite (includes_nonempty _ _ Hinc) by discriminate.
  unfold response_json. rewrite Hj. cbn. eauto.
Qed.

(** X8: for every tool, the two download tools included, a successful
    response that declares a JSON content type but whose body does not
    decode makes the call fail: the handler returns an error-flagged
    result holding the decoder's message, after the fetch and the read. *)
Theorem undecodable_json_body_is_an_error
    fetch api tool S args validated response contentType msg :
  In (tool, S) tool_schemas ->
  safeParse S args = inr validated ->
  (forall url options, fetch url options = inr response) ->
  ok response = true ->
  content_type response = Some contentType ->
  includes "application/json" contentType = true ->
  json response = inl msg ->
  exists url options,
    handler fetch api {| name := tool; arguments := args |}
    = ({| content := [{| type := "text";
                         text := Some ("API error: " ++ msg) |}];
          isError := Some true |},
       [EvFetch url options; EvJson]).
Proof.
  intros HS Hv Hf Hok Hct Hinc Hj.
  destruct (schema_has_route tool S HS) as (m & p & HR).
  destruct (makeRequest_json_rejects fetch api p m validated response
              contentType msg Hf Hok Hct Hinc Hj) as (url & options & E).
  exists url, options.
  rewrite handler_of_call_tool, (call_tool_dispatch _ _ _ _ _ _ _ HS HR).
  now rewrite (parse_accepts _ _ _ Hv), bind_ret, E.
Qed.

Lemma undecodable_json_body_is_an_error_witness :
  exists url options,
    handler (always sample_broken_json) sample_api
      {| name := "downloadFile";
         arguments := VObj [("file_name", VStr "out.csv");
                            ("run_id", VStr "r1");
                            ("saved_item_id", VStr "s1")] |}
    = ({| content := [{| type := "text";
                         text := Some ("API error: " ++ "Unexpected end of JSON input") |}];
          isError := Some true |},
       [EvFetch url options; EvJson]).
Proof.
  apply (undecodable_json_body_is_an_error (always sample_broken_json)
           sample_api "downloadFile" DownloadFileSchema
           (VObj [("file_name", VStr "out.csv"); ("run_id", VStr "r1");
                  ("saved_item_id", VStr "s1")])
           (VObj [("file_name", VStr "out.csv"); ("run_id", VStr "r1");
                  ("saved_item_id", VStr "s1")])
           sample_broken_json "application/json"
           "Unexpected end of JSON input").
  - do 7 right. left. reflexivity.
  - reflexivity.
  - reflexivity.
  - reflexivity.
  - reflexivity.
  - reflexivity.
  - reflexivity.
Defined.

Lemma makeRequest_binary fetch api endpoint m data response :
  (forall url options, fetch url options = inr response) ->
  ok response = true ->
  match content_type response with
  | Some contentType => includes "application/json" contentType
  | None => false
  end = false ->
  exists url options,
    makeRequest fetch api endpoint m data
    = ([EvFetch url options; EvArrayBuffer],
       inr (Binary (arrayBuffer response))).
Proof.
  intros Hf Hok Hct. unfold makeRequest, bind, await_fetch.
  rewrite Hf, Hok. cbn [negb].
  destruct (content_type response) as [ct|]; [rewrite Hct, andb_false_r|];
    unfold response_arrayBuffer; cbn; eauto.
Qed.

(** X9: for every tool other than the two download tools, a successful
    response whose content type is absent or is not JSON is read as raw
    bytes, and the result (not error-flagged) is the text of an empty
    JSON object: the payload is dropped. *)
Theorem binary_response_prints_empty_object
    fetch api tool S args validated response :
  In (tool, S) tool_schemas ->
  existsb (String.eqb tool) ["downloadFile"; "downloadMultipleFiles"] = false ->
  safeParse S args = inr validated ->
  (forall url options, fetch url options = inr response) ->
  ok response = true ->
  match content_type response with
  | Some contentType => includes "application/json" contentType
  | None => false
  end = false ->
  exists url options,
    handler fetch api {| name := tool; arguments := args |}
    = ({| content := [{| type := "text"; text := Some "{}" |}];
          isError := None |},
       [EvFetch url options; EvArrayBuffer]).
Proof.
  intros HS Hnd Hv Hf Hok Hct.
  destruct (schema_has_route tool S HS) as (m & p & HR).
  destruct (makeRequest_binary fetch api p m validated response Hf Hok Hct)
    as (url & options & E).
  cbn [existsb] in Hnd. apply orb_false_elim in Hnd. destruct Hnd as [N1 Hnd].
  apply orb_false_elim in Hnd. destruct Hnd as [N2 _].
  exists url, options.
  rewrite handler_of_call_tool, (call_tool_dispatch _ _ _ _ _ _ _ HS HR).
  rewrite (parse_accepts _ _ _ Hv), bind_ret, E.
  unfold bind, ret, success_text. cbn [fst snd app stringify_result].
  now rewrite N1, N2.
Qed.

Lemma binary_response_prints_empty_object_witness :
  exists url options,
    handler (always sample_binary_response) sample_api
      {| name := "listSavedFlows";
         arguments := VObj [("user_id", VStr "u1")] |}
    = ({| content := [{| type := "text"; text := Some "{}" |}];
          isError := None |},
       [EvFetch url options; EvArrayBuffer]).
Proof.
  apply (binary_response_prints_empty_object (always sample_binary_response)
           sample_api "listSavedFlows" ListSavedFlowsSchema
           (VObj [("user_id", VStr "u1")]) (VObj [("user_id", VStr "u1")])
           sample_binary_response).
  - right. right. left. reflexivity.
  - reflexivity.
  - reflexivity.
  - reflexivity.
  - reflexivity.
  - reflexivity.
Defined.

(** ** The registry and the switch *)

(** X10: the handler answers "Unknown tool" exactly for the names that the
    list of tools does not advertise: every tool of the registry has a
    case in the switch, and the switch has no case beyond the registry. *)
Theorem unknown_exactly_when_not_advertised fetch api tool args :
  snd (call_tool fetch api {| name := tool; arguments := args |})
  = inr (error_result ("Unknown tool: " ++ tool))
  <-> ~ In tool (map tool_name (map snd TOOLS)).
Proof.
  assert (N : map tool_name (map snd TOOLS) = map fst TOOLS) by reflexivity.
  rewrite N. destruct (existsb (String.eqb tool) (map fst TOOLS)) eqn:Ex.
  - split.
    + intros H. exfalso.
      destruct (advertised_has_schema tool Ex) as [S HS].
      destruct (schema_has_route tool S HS) as (m & p & HR).
      rewrite (call_tool_dispatch _ _ _ _ _ _ _ HS HR) in H. unfold parse in H.
      destruct (safeParse S args) as [issues|validated];
        [discriminate H|].
      rewrite bind_ret in H.
      destruct (makeRequest fetch api p m validated) as [trace [e|result]];
        cbn in H; [discriminate H|]. inversion H.
    + intros H. exfalso. apply H. apply existsb_exists in Ex.
      destruct Ex as (k & Hin & Hk). apply String.eqb_eq in Hk. now subst k.
  - split.
    + intros _. now apply distinct_not_in.
    + intros _. now rewrite (unknown_call fetch api tool args Ex).
Qed.

(** ** The text of a validation error *)

Lemma parse_issues_standard t :
  forall p v, Forall standard_issue (fst (_parse t p v)).
Proof.
  induction t as [|t IH|t IH|shape IH|t check msg IH] using ZodType_ind';
    intros p v.
  - destruct v; cbn [_parse OK INVALID fst]; try solve [constructor];
      (constructor; [left; do 3 eexists; reflexivity|constructor]).
  - destruct v; cbn [_parse OK fst]; try apply IH. constructor.
  - destruct v as [| | | | |l|];
      try solve [cbn [_parse INVALID fst];
                 constructor; [left; do 3 eexists; reflexivity|constructor]].
    cbn [_parse fst]. unfold indexed. generalize 0 as i.
    induction l as [|x l IHl]; intros i; cbn [indexed_from map concat fst snd];
      [constructor|].
    apply Forall_app. split; [apply IH|apply IHl].
  - destruct v as [| | | | | |m];
      try solve [cbn [_parse INVALID fst];
                 constructor; [left; do 3 eexists; reflexivity|constructor]].
    rewrite parse_object_eq. cbn [fst].
    induction shape as [|[k t] shape' IHs];
      cbn [parse_keys map concat fst snd]; [constructor|].
    inversion IH as [|? ? IHt IHrest]; subst. cbn [snd] in IHt.
    apply Forall_app. split; [apply IHt|]. apply IHs; assumption.
  - rewrite parse_refine_eq. specialize (IH p v).
    destruct (_parse t p v) as [iss [x|]]; cbn [fst snd] in *; [|exact IH].
    destruct (truthy (check x)); cbn [fst]; [exact IH|].
    apply Forall_app. split; [exact IH|].
    constructor; [right; eauto|constructor].
Qed.

Lemma is_document_path p : is_document (path_value p) = true.
Proof.
  unfold path_value. cbn [is_document].
  induction p as [|[k|i] p IH]; cbn [map forallb is_document]; auto.
  destruct (of_Z_number (Z.of_nat i)) as [Hn Hf]. now rewrite Hn, Hf.
Qed.

Lemma is_document_issue i :
  standard_issue i -> is_document (issue_value i) = true.
Proof.
  intros [(e & r & p & ->)|(msg & p & ->)]; unfold issue_value;
    cbn [code invalid_type_issue custom_issue expected received path message
         opt_type_value is_document map fst snd forallb];
    rewrite is_document_path; reflexivity.
Qed.

Lemma is_document_issues issues :
  Forall standard_issue issues ->
  is_document (VArr (map issue_value issues)) = true.
Proof.
  intros H. cbn [is_document].
  induction H as [|i l Hi Hl IH]; [reflexivity|].
  cbn [map forallb]. now rewrite (is_document_issue i Hi), IH.
Qed.

(** X11: when a call is rejected by the schema of its tool, the text of
    the error-flagged result is "API error: " followed by a JSON text
    that decodes to the list of the issues, each an object with its
    [code], [path] and [message] (and the expected and received types of
    a type issue): the report is machine-readable. *)
Theorem validation_error_text_is_json fetch api tool S args issues :
  In (tool, S) tool_schemas ->
  safeParse S args = inl issues ->
  exists t,
    handler fetch api {| name := tool; arguments := args |}
    = ({| content := [{| type := "text"; text := Some ("API error: " ++ t) |}];
          isError := Some true |}, [])
    /\ JSON_parse t = Some (VArr (map issue_value issues)).
Proof.
  intros HS E. exists (ZodError_message issues).
  split; [exact (proj2 (rejected_call fetch api tool S args issues HS E))|].
  assert (F : Forall standard_issue issues).
  { pose proof (parse_issues_standard S [] args) as F.
    unfold safeParse in E.
    destruct (_parse S [] args) as [[|i iss] [x|]]; inversion E; subst;
      exact F. }
  pose proof (is_document_issues issues F) as J.
  unfold ZodError_message.
  rewrite (serialize_print2 "" _ J : JSON_stringify_2 _ = _).
  apply JSON_parse_stringify; [exact J|]. exact (serialize_print2 "" _ J).
Qed.

Lemma validation_error_text_is_json_witness :
  exists t,
    handler (always sample_json_response) sample_api
      {| name := "uploadFile";
         arguments := VObj [("file_name", VStr "a.csv")] |}
    = ({| content := [{| type := "text"; text := Some ("API error: " ++ t) |}];
          isError := Some true |}, [])
    /\ JSON_parse t
       = Some (VArr (map issue_value
                         [invalid_type_issue PT_string PT_undefined
                            [PKey "file_content"]])).
Proof.
  apply (validation_error_text_is_json (always sample_json_response)
           sample_api "uploadFile" UploadFileSchema
           (VObj [("file_name", VStr "a.csv")])
           [invalid_type_issue PT_string PT_undefined [PKey "file_content"]]).
  - do 5 right. left. reflexivity.
  - reflexivity.
Defined.

(** ** The query string, read back *)

Ltac each_byte c :=
  destruct c as [b0 b1 b2 b3 b4 b5 b6 b7];
  destruct b0, b1, b2, b3, b4, b5, b6, b7.

Lemma urldecode_byte c tail :
  urldecode (urlencode_byte c ++ tail) = option_map (String c) (urldecode tail).
Proof. each_byte c; reflexivity. Qed.

Lemma urldecode_urlencode s : urldecode (urlencode s) = Some s.
Proof.
  induction s as [|c s IH]; [reflexivity|].
  change (urlencode (String c s)) with (urlencode_byte c ++ urlencode s).
  now rewrite urldecode_byte, IH.
Qed.

Lemma no_char_append sep a b :
  no_char sep (a ++ b) = no_char sep a && no_char sep b.
Proof.
  induction a as [|c a IH]; [reflexivity|].
  rewrite append_cons. cbn [no_char]. now rewrite IH, andb_assoc.
Qed.

Lemma query_text_append a b :
  query_text (a ++ b) = query_text a && query_text b.
Proof.
  induction a as [|c a IH]; [reflexivity|].
  rewrite append_cons. cbn [query_text]. now rewrite IH, andb_assoc.
Qed.

Lemma urlencode_byte_text c :
  no_char "&" (urlencode_byte c) = true
  /\ no_char "=" (urlencode_byte c) = true
  /\ query_text (urlencode_byte c) = true
  /\ urlencode_byte c <> "".
Proof. each_byte c; repeat split; discriminate. Qed.

Lemma urlencode_text s :
  no_char "&" (urlencode s) = true
  /\ no_char "=" (urlencode s) = true
  /\ query_text (urlencode s) = true.
Proof.
  induction s as [|c s (IH1 & IH2 & IH3)]; [repeat split|].
  change (urlencode (String c s)) with (urlencode_byte c ++ urlencode s).
  destruct (urlencode_byte_text c) as (H1 & H2 & H3 & _).
  rewrite !no_char_append, query_text_append, H1, H2, H3, IH1, IH2, IH3.
  repeat split.
Qed.

Lemma break_at_append sep a b :
  no_char sep a = true -> break_at sep (a ++ String sep b) = (a, Some b).
Proof.
  induction a as [|c a IH]; intros H.
  - cbn. now rewrite Ascii.eqb_refl.
  - cbn [no_char] in H. apply andb_prop in H. destruct H as [Hc Ha].
    rewrite append_cons. cbn [break_at].
    apply negb_true_iff in Hc. rewrite Hc, (IH Ha). reflexivity.
Qed.

Lemma split_on_nonempty sep s : split_on sep s <> [].
Proof.
  destruct s as [|c s]; cbn; [discriminate|].
  destruct (Ascii.eqb c sep); [discriminate|].
  destruct (split_on sep s); discriminate.
Qed.

Lemma split_on_single sep a : no_char sep a = true -> split_on sep a = [a].
Proof.
  induction a as [|c a IH]; intros H; [reflexivity|].
  cbn [no_char] in H. apply andb_prop in H. destruct H as [Hc Ha].
  apply negb_true_iff in Hc. cbn [split_on]. now rewrite Hc, (IH Ha).
Qed.

Lemma split_on_append sep a b :
  no_char sep a = true ->
  split_on sep (a ++ String sep b) = a :: split_on sep b.
Proof.
  induction a as [|c a IH]; intros H.
  - cbn. now rewrite Ascii.eqb_refl.
  - cbn [no_char] in H. apply andb_prop in H. destruct H as [Hc Ha].
    apply negb_true_iff in Hc. rewrite append_cons. cbn [split_on].
    now rewrite Hc, (IH Ha).
Qed.

Lemma split_on_join sep segments :
  segments <> [] ->
  Forall (fun s => no_char sep s = true) segments ->
  split_on sep (join (str1 sep) segments) = segments.
Proof.
  intros Hne H. induction H as [|x l Hx Hl IH]; [contradiction|].
  destruct l as [|y l'].
  - cbn [join]. now apply split_on_single.
  - change (join (str1 sep) (x :: y :: l'))
      with (x ++ String sep (join (str1 sep) (y :: l'))).
    rewrite (split_on_append sep x _ Hx), IH; [reflexivity|discriminate].
Qed.

Lemma pair_text_facts kv :
  no_char "&" (pair_text kv) = true
  /\ query_text (pair_text kv) = true
  /\ pair_text kv <> ""
  /\ parse_pair (pair_text kv) = Some kv.
Proof.
  destruct kv as [k v]. unfold pair_text. cbn [fst snd].
  destruct (urlencode_text k) as (K1 & K2 & K3).
  destruct (urlencode_text v) as (V1 & V2 & V3).
  repeat split.
  - rewrite !no_char_append, K1, V1. reflexivity.
  - rewrite !query_text_append, K3, V3. reflexivity.
  - destruct (urlencode k); discriminate.
  - unfold parse_pair.
    change (urlencode k ++ "=" ++ urlencode v)
      with (urlencode k ++ String "=" (urlencode v)).
    rewrite (break_at_append "=" _ _ K2). cbn [fst snd].
    now rewrite !urldecode_urlencode.
Qed.

Lemma parse_segments q :
  sequence
    (map parse_pair
         (filter (fun segment => negb (String.eqb segment ""))
                 (map pair_text q))) = Some q.
Proof.
  induction q as [|kv q IH]; [reflexivity|].
  destruct (pair_text_facts kv) as (_ & _ & Hne & Hp).
  cbn [map filter].
  apply String.eqb_neq in Hne. rewrite Hne. cbn [negb map sequence].
  now rewrite Hp, IH.
Qed.

Lemma URLSearchParams_round_trip q :
  URLSearchParams_parse (URLSearchParams_toString q) = Some q.
Proof.
  unfold URLSearchParams_parse, URLSearchParams_toString.
  change (fun kv : string * string => urlencode (fst kv) ++ "=" ++ urlencode (snd kv))
    with pair_text.
  destruct q as [|kv q]; [reflexivity|].
  change (join "&") with (join (str1 "&"%char)).
  rewrite split_on_join.
  - apply parse_segments.
  - discriminate.
  - apply Forall_forall. intros s Hs. apply in_map_iff in Hs.
    destruct Hs as (kv' & <- & _). apply pair_text_facts.
Qed.

Lemma query_text_join l :
  Forall (fun s => query_text s = true) l -> query_text (join "&" l) = true.
Proof.
  induction 1 as [|x l Hx Hl IH]; [reflexivity|].
  destruct l as [|y l']; [exact Hx|].
  change (join "&" (x :: y :: l')) with (x ++ "&" ++ join "&" (y :: l')).
  rewrite !query_text_append, Hx, IH. reflexivity.
Qed.

(** X12: the query string [URLSearchParams.toString] builds is
    unambiguous: the form-urlencoded parser of the URL standard reads
    back exactly the names and values that were appended, in order, so
    two different lists never serialize to the same text; and the text
    holds only ASCII alphanumerics and [* - . _ + % & =], whatever the
    strings the caller supplied. *)
Theorem query_string_reads_back q :
  URLSearchParams_parse (URLSearchParams_toString q) = Some q
  /\ (forall q',
        URLSearchParams_toString q' = URLSearchParams_toString q -> q' = q)
  /\ query_text (URLSearchParams_toString q) = true.
Proof.
  split; [apply URLSearchParams_round_trip|]. split.
  - intros q' E.
    pose proof (URLSearchParams_round_trip q') as R'.
    rewrite E, URLSearchParams_round_trip in R'. now inversion R'.
  - unfold URLSearchParams_toString. apply query_text_join.
    apply Forall_forall. intros s Hs. apply in_map_iff in Hs.
    destruct Hs as (kv & <- & _). apply (pair_text_facts kv).
Qed.

(** ** The request body, read back *)

Lemma serialize_print0 v :
  is_document v = true -> serialize "" "" v = Some (print0 v).
Proof. destruct v as [| |[]| | | |]; intros H; try reflexivity. discriminate H. Qed.

Lemma print0_array l :
  print0 (VArr l) = wrap "[" "]" "" "" "" (map print0 l).
Proof. reflexivity. Qed.

Lemma print0_object m :
  forallb (fun kv => is_document (snd kv)) m = true ->
  print0 (VObj m) = wrap "{" "}" "" "" "" (map member0 m).
Proof.
  intros H. unfold print0 at 1. cbn [serialize]. f_equal.
  induction m as [|[k x] m IH]; [reflexivity|].
  cbn [forallb snd] in H. apply andb_prop in H. destruct H as [Hx Hm].
  cbn [flat_map map fst snd]. change ("" ++ "") with "".
  rewrite (serialize_print0 _ Hx).
  change ("" ++ "") with "" in IH. rewrite (IH Hm). reflexivity.
Qed.

Lemma wrap0_cons {A : Type} opening closing (g : A -> string) x l :
  wrap opening closing "" "" "" (map g (x :: l))
  = opening ++ join "," (map g (x :: l)) ++ closing.
Proof. reflexivity. Qed.

Lemma print0_starts_value v :
  is_document v = true -> starts_value (print0 v) = true.
Proof.
  intros Hv. unfold print0. destruct v as [| |[]|n|s|l|m]; try reflexivity.
  - destruct (document_number n Hv) as (_ & Hf & Hs).
    cbn [serialize]. rewrite Hf.
    destruct (Number_toString_head n Hs) as (c & r & E & Hc).
    rewrite E. cbn [starts_value]. unfold value_start. now rewrite Hc.
  - cbn [serialize]. unfold wrap.
    destruct (map _ l); [reflexivity|]. reflexivity.
  - cbn [serialize]. unfold wrap.
    destruct (flat_map _ m); [reflexivity|]. reflexivity.
Qed.

Lemma parse_elements_compact f rest :
  forall l,
    Forall round_trips0 l -> forallb is_document l = true ->
    list_sum (map size l) <= f -> l <> [] ->
    forall n, length l <= n ->
    parse_elements (parse_value f) n
      (join "," (map print0 l) ++ "]" ++ rest)
    = Some (l, rest).
Proof.
  induction l as [|x l IH]; [congruence|].
  intros HF Hj Hs _ n Hn.
  inversion HF as [|? ? Hx HFl]; subst.
  cbn [forallb] in Hj. apply andb_prop in Hj. destruct Hj as [Hjx Hjl].
  cbn [map] in Hs. rewrite list_sum_cons in Hs.
  destruct n as [|n]; [cbn in Hn; lia|]. cbn [length] in Hn.
  rewrite parse_elements_S. destruct l as [|y l'].
  - cbn [map join].
    rewrite (Hx ("]" ++ rest) f Hjx ltac:(lia) eq_refl).
    reflexivity.
  - rewrite join_cons_map, !append_assoc.
    match goal with
    | |- context [parse_value f (print0 x ++ ?t)] =>
        rewrite (Hx t f Hjx ltac:(lia) eq_refl)
    end.
    cbn [append]. rewrite skip_ws_cons.
    change (is_ws ",") with false. cbv iota.
    change (Ascii.eqb "," ",") with true. cbv iota.
    specialize (IH HFl Hjl ltac:(lia) ltac:(discriminate) n).
    cbn [append] in IH. rewrite IH; [reflexivity|cbn in Hn; cbn; lia].
Qed.

Lemma parse_members_compact f rest :
  forall m,
    Forall (fun kv => round_trips0 (snd kv)) m ->
    forallb (fun kv => is_document (snd kv)) m = true ->
    list_sum (map (fun kv => size (snd kv)) m) <= f -> m <> [] ->
    forall n, length m <= n ->
    parse_members (parse_value f) n
      (join "," (map member0 m) ++ "}" ++ rest)
    = Some (m, rest).
Proof.
  induction m as [|[k x] m IH]; [congruence|].
  intros HF Hj Hs _ n Hn.
  inversion HF as [|? ? Hx HFm]; subst. cbn [snd] in Hx.
  cbn [forallb snd] in Hj. apply andb_prop in Hj. destruct Hj as [Hjx Hjm].
  cbn [map snd] in Hs. rewrite list_sum_cons in Hs.
  destruct n as [|n]; [cbn in Hn; lia|]. cbn [length] in Hn.
  rewrite parse_members_S.
  destruct m as [|kv' m'].
  - cbn [map join]. unfold member0 at 1. cbn [fst snd]. unfold Quote.
    rewrite !append_cons, skip_ws_cons.
    change (is_ws dquote) with false. cbv iota.
    change (Ascii.eqb dquote dquote) with true. cbv iota.
    rewrite !append_assoc. cbn [str1 append].
    rewrite parse_chars_quote, skip_ws_cons.
    change (is_ws ":") with false. cbv iota.
    change (Ascii.eqb ":" ":") with true. cbv iota.
    rewrite (Hx (String "}" rest) f Hjx ltac:(lia) eq_refl).
    reflexivity.
  - rewrite join_cons_map. unfold member0 at 1. cbn [fst snd]. unfold Quote.
    rewrite !append_cons, skip_ws_cons.
    change (is_ws dquote) with false. cbv iota.
    change (Ascii.eqb dquote dquote) with true. cbv iota.
    rewrite !append_assoc. cbn [str1 append].
    rewrite parse_chars_quote, skip_ws_cons.
    change (is_ws ":") with false. cbv iota.
    change (Ascii.eqb ":" ":") with true. cbv iota.
    match goal with
    | |- context [parse_value f (print0 x ++ ?t)] =>
        rewrite (Hx t f Hjx ltac:(lia) eq_refl)
    end.
    rewrite skip_ws_cons.
    change (is_ws ",") with false. cbv iota.
    change (Ascii.eqb "," ",") with true. cbv iota.
    specialize (IH HFm Hjm ltac:(lia) ltac:(discriminate) n).
    cbn [append] in IH. rewrite IH; [reflexivity|cbn in Hn; cbn; lia].
Qed.

(** Every value [JSON.parse] can produce prints, without indentation, to
    a text that decodes to it. *)
Lemma serialize_round_trips0 v : round_trips0 v.
Proof.
  induction v as [| |b|n|s|l IH|m IH] using value_ind';
    intros rest fuel Hj Hs Hd;
    (destruct fuel as [|f]; [cbn in Hs; lia|]).
  - discriminate Hj.
  - reflexivity.
  - destruct b; reflexivity.
  - destruct (document_number n Hj) as (Hn & Hf & Hsf).
    unfold print0. cbn [serialize]. rewrite Hf.
    destruct (Number_toString_head n Hsf) as (c & r & E & Hc).
    rewrite E, append_cons, (parse_value_number _ _ _ Hc), <- append_cons, <- E.
    now apply parse_number_toString.
  - unfold print0. cbn [serialize]. unfold Quote.
    rewrite append_cons, append_assoc. cbn [str1 append].
    now rewrite parse_value_string, parse_chars_quote.
  - rewrite print0_array. cbn [is_document] in Hj. cbn [size] in Hs.
    destruct l as [|x l]; [reflexivity|].
    assert (Hjx : is_document x = true)
      by (cbn [forallb] in Hj; apply andb_prop in Hj; tauto).
    rewrite wrap0_cons, !append_assoc. cbn [append].
    rewrite parse_value_array.
    match goal with
    | |- context [skip_ws ?t] =>
        assert (Hv : starts_value t = true)
          by (apply starts_value_append, starts_value_join,
                print0_starts_value; exact Hjx);
        rewrite (skip_ws_value _ Hv); destruct t as [|c' r'] eqn:Et;
          [discriminate Hv|]
    end.
    cbn [starts_value] in Hv.
    destruct (value_start_not_closing _ Hv) as [-> _]. rewrite <- Et.
    pose proof (parse_elements_compact f rest (x :: l) IH Hj ltac:(lia)
                  ltac:(discriminate) f) as P.
    cbn [append] in P. rewrite P; [reflexivity|].
    assert (length (x :: l) <= list_sum (map size (x :: l)))
      by exact (length_le_size_sum (fun a => a) (x :: l)).
    lia.
  - cbn [is_document] in Hj. apply andb_prop in Hj. destruct Hj as [Hk Hj].
    apply andb_prop in Hk. destruct Hk as [Hk Ho].
    rewrite (print0_object _ Hj). cbn [size] in Hs.
    destruct m as [|kx m]; [reflexivity|].
    rewrite wrap0_cons, !append_assoc. cbn [append].
    rewrite parse_value_object.
    match goal with
    | |- context [skip_ws ?t] =>
        assert (Hv : starts_value t = true)
          by (apply starts_value_append, starts_value_join; reflexivity);
        rewrite (skip_ws_value _ Hv); destruct t as [|c' r'] eqn:Et;
          [discriminate Hv|]
    end.
    cbn [starts_value] in Hv.
    destruct (value_start_not_closing _ Hv) as [_ ->]. rewrite <- Et.
    pose proof (parse_members_compact f rest (kx :: m) IH Hj ltac:(lia)
                  ltac:(discriminate) f) as P.
    cbn [append] in P. rewrite P.
    + now rewrite (make_object_distinct _ Hk Ho).
    + assert (length (kx :: m)
              <= list_sum (map (fun kv => size (snd kv)) (kx :: m)))
        by exact (length_le_size_sum (fun kv : string * value => snd kv)
                    (kx :: m)).
      lia.
Qed.

Lemma size_le_length0 v :
  is_document v = true -> size v <= String.length (print0 v).
Proof.
  induction v as [| |b|n|s|l IH|m IH] using value_ind'; intros Hj.
  - discriminate Hj.
  - cbn. lia.
  - destruct b; cbn; lia.
  - destruct (document_number n Hj) as (_ & Hf & Hsf).
    unfold print0. cbn [serialize size]. rewrite Hf.
    destruct (Number_toString_head n Hsf) as (c & r & -> & _). cbn. lia.
  - cbn. lia.
  - rewrite print0_array. cbn [size is_document] in *.
    pose proof (wrap_length "[" "]" "" "" "" (map print0 l)) as W.
    assert (list_sum (map size l)
            <= list_sum (map String.length (map print0 l))).
    { clear W. induction l as [|x l IHl]; [cbn; lia|].
      inversion IH as [|? ? Hx Hl]; subst.
      cbn [forallb] in Hj. apply andb_prop in Hj. destruct Hj as [Hjx Hjl].
      cbn [map]. rewrite !list_sum_cons.
      specialize (Hx Hjx). specialize (IHl Hl Hjl). lia. }
    cbn [String.length] in W. lia.
  - cbn [is_document] in Hj. apply andb_prop in Hj. destruct Hj as [_ Hj].
    rewrite (print0_object _ Hj). cbn [size].
    pose proof (wrap_length "{" "}" "" "" "" (map member0 m)) as W.
    assert (list_sum (map (fun kv => size (snd kv)) m)
            <= list_sum (map String.length (map member0 m))).
    { clear W. induction m as [|[k x] m IHm]; [cbn; lia|].
      inversion IH as [|? ? Hx Hm]; subst. cbn [snd] in Hx.
      cbn [forallb snd] in Hj. apply andb_prop in Hj.
      destruct Hj as [Hjx Hjm].
      cbn [map snd]. rewrite !list_sum_cons.
      specialize (Hx Hjx). specialize (IHm Hm Hjm).
      unfold member0 at 1. cbn [fst snd]. rewrite !length_append. lia. }
    cbn [String.length] in W. lia.
Qed.

(** The decoder reads back every document [JSON.stringify(d)] prints. *)
Lemma JSON_parse_compact d t :
  is_document d = true -> JSON_stringify d = Some t -> JSON_parse t = Some d.
Proof.
  intros Hj Ht. unfold JSON_stringify in Ht.
  rewrite (serialize_print0 d Hj) in Ht. inversion Ht; subst t. clear Ht.
  unfold JSON_parse.
  pose proof (size_le_length0 d Hj) as Hsz.
  pose proof (serialize_round_trips0 d "" (S (String.length (print0 d)))
                Hj ltac:(lia) eq_refl) as E.
  rewrite append_nil_r in E. rewrite E. reflexivity.
Qed.

Lemma lookup_json m k v :
  forallb (fun kv => is_json (snd kv)) m = true ->
  lookup k m = Some v -> is_json v = true.
Proof.
  induction m as [|[k' v'] m IH]; cbn [lookup forallb snd]; [discriminate|].
  intros H L. apply andb_prop in H. destruct H as [Hv Hm].
  destruct (String.eqb k k'); [now inversion L; subst|now apply IH].
Qed.

Lemma lookup_in_keys m k : In k (map fst m) -> lookup k m <> None.
Proof.
  induction m as [|[k' v'] m IH]; cbn [map fst In lookup]; [contradiction|].
  intros [->|H].
  - now rewrite String.eqb_refl.
  - destruct (String.eqb k k'); [discriminate|now apply IH].
Qed.

(** An object schema outputs its keys in the order it declares them, each
    once. *)
Lemma mergeObject_distinct pairs :
  forall mo,
    mergeObject pairs = Some mo ->
    distinct (map (fun pr => fst (fst pr)) pairs) = true ->
    distinct (map fst mo) = true.
Proof.
  induction pairs as [|[[k r] b] pairs IH]; intros mo H Hd.
  - inversion H; subst. reflexivity.
  - cbn [map fst distinct] in Hd. apply andb_prop in Hd.
    destruct Hd as [Hk Hd]. apply negb_true_iff in Hk.
    cbn [mergeObject] in H. destruct r as [x|]; [|discriminate H].
    destruct (mergeObject pairs) as [m'|] eqn:E; [|discriminate H].
    specialize (IH m' eq_refl Hd).
    destruct (negb (k =? "__proto__") && _); inversion H; subst; [|exact IH].
    cbn [map fst distinct]. rewrite IH, andb_true_r.
    apply negb_true_iff. destruct (existsb (String.eqb k) (map fst m')) eqn:X;
      [exfalso|reflexivity].
    apply existsb_exists in X. destruct X as (k' & Hin & Ek).
    apply String.eqb_eq in Ek. subst k'.
    apply (distinct_not_in _ _ Hk).
    apply (mergeObject_keys pairs m' k E). now apply lookup_in_keys.
Qed.

(** Keys that are not array indices are in enumeration order as they
    stand. *)
Lemma names_property_order keys :
  forallb is_name keys = true -> property_order keys = true.
Proof.
  induction keys as [|k keys IH]; [reflexivity|].
  cbn [forallb property_order]. intros H. apply andb_prop in H.
  destruct H as [Hk Hr]. rewrite (IH Hr), andb_true_r.
  unfold is_name in Hk. destruct (array_index k); [discriminate Hk|].
  exact Hr.
Qed.

(** Validation turns a JSON value into a document: the output holds
    strings, arrays and objects with the declared keys only. *)
Lemma parse_is_document t :
  forall p v iss x,
    distinct_shape t = true -> is_json v = true ->
    _parse t p v = (iss, Some x) -> is_document x = true.
Proof.
  induction t as [|t IH|t IH|shape IH|t check msg IH] using ZodType_ind';
    intros p v iss x Hd Hj H.
  - destruct v; cbn in H; inversion H; subst; reflexivity.
  - destruct v; try discriminate Hj; cbn [_parse] in H;
      exact (IH _ _ _ _ Hd Hj H).
  - destruct v as [| | | | |l|]; try (cbn in H; discriminate H).
    cbn [_parse] in H. inversion H as [[H1 H2]]. clear H H1.
    destruct (mergeArray _) as [l'|] eqn:E in H2; [|discriminate H2].
    inversion H2; subst x. clear H2. cbn [is_json] in Hj.
    cbn [is_document].
    cbn [distinct_shape] in Hd. unfold indexed in E.
    revert l' E Hj. generalize 0 as i.
    induction l as [|y l IHl]; intros i l' E Hj.
    + inversion E; subst. reflexivity.
    + cbn [indexed_from map fst snd] in E.
      cbn [forallb] in Hj. apply andb_prop in Hj. destruct Hj as [Hy Hl].
      destruct (mergeArray_cons_some _ _ _ E) as [[y' Ey] [l'' El]].
      cbn [mergeArray] in E. rewrite Ey, El in E. inversion E; subst l'.
      cbn [forallb]. rewrite (IHl _ _ El Hl), andb_true_r.
      destruct (_parse t (p ++ [PIndex i])%list y) as [iss' r] eqn:P.
      cbn [snd] in Ey. subst r. exact (IH _ _ _ _ Hd Hy P).
  - destruct v as [| | | | | |m]; try (cbn in H; discriminate H).
    rewrite parse_object_eq in H. inversion H as [[H1 H2]]. clear H H1.
    destruct (mergeObject _) as [mo|] eqn:E in H2; [|discriminate H2].
    inversion H2; subst x. clear H2.
    cbn [distinct_shape] in Hd. apply andb_prop in Hd.
    destruct Hd as [Hk Hs]. apply andb_prop in Hk. destruct Hk as [Hk Hn].
    cbn [is_json] in Hj. apply andb_prop in Hj. destruct Hj as [_ Hj].
    cbn [is_document].
    apply andb_true_intro. split; [apply andb_true_intro; split|].
    + apply (mergeObject_distinct _ mo E). now rewrite parse_keys_names.
    + apply names_property_order. apply forallb_forall. intros k Hin.
      assert (Hs' : In k (map fst shape)).
      { rewrite <- (parse_keys_names shape p (VObj m)).
        apply (mergeObject_keys _ mo k E). now apply lookup_in_keys. }
      exact (proj1 (forallb_forall _ _) Hn k Hs').
    + clear Hk Hn. revert mo E.
      induction shape as [|[k t] shape IHs]; intros mo E.
      * inversion E; subst. reflexivity.
      * inversion IH as [|? ? IHt IHrest]; subst. cbn [snd] in IHt.
        cbn [forallb snd] in Hs. apply andb_prop in Hs.
        destruct Hs as [Ht Hs].
        cbn [parse_keys map fst snd] in E.
        destruct (mergeObject_cons_some _ _ _ _ _ E) as [[x Ex] [m' Em]].
        specialize (IHs IHrest Hs m' Em).
        cbn [mergeObject] in E. rewrite Ex, Em in E.
        destruct (negb (k =? "__proto__") && _) eqn:C; inversion E; subst;
          [|exact IHs].
        cbn [forallb snd]. rewrite IHs, andb_true_r.
        destruct (_parse t (p ++ [PKey k])%list (get (VObj m) k))
          as [iss' r] eqn:P.
        cbn [snd] in Ex. subst r.
        unfold get in P. unfold has_key in C.
        destruct (lookup k m) as [v|] eqn:L.
        -- exact (IHt _ _ _ _ Ht (lookup_json _ _ _ Hj L) P).
        -- apply parse_undefined in P. subst x.
           rewrite andb_false_r in C. discriminate C.
  - rewrite parse_refine_eq in H. cbn [distinct_shape] in Hd.
    destruct (_parse t p v) as [iss' [y|]] eqn:P; cbn [fst snd] in H;
      [|discriminate H].
    destruct (truthy (check y)); inversion H; subst;
      exact (IH _ _ _ _ Hd Hj P).
Qed.

Lemma schema_distinct_shape tool S :
  In (tool, S) tool_schemas -> distinct_shape (z_object (shape_of S)) = true.
Proof.
  intros H. unfold tool_schemas in H. cbn [In] in H.
  destruct H as [H|[H|[H|[H|[H|[H|[H|[H|[H|[]]]]]]]]]];
    inversion H; subst; reflexivity.
Qed.

(** X13: for the five POST tools, when the arguments are a JSON value (as
    the transport delivers them) and pass the schema, the request body is
    a JSON text that decodes to exactly the validated object: what the
    remote side reads is the arguments stripped of undeclared keys,
    nothing lost and nothing added by the serialization. *)
Theorem post_body_decodes_to_validated
    fetch api tool S path args validated :
  In (tool, S) tool_schemas -> In (tool, (POST, path)) spec_routes ->
  is_json args = true ->
  safeParse S args = inr validated ->
  exists text rest outcome,
    call_tool fetch api {| name := tool; arguments := args |}
    = (EvFetch (baseUrl api ++ path)
         {| method := POST;
            headers := [("Authorization", "Bearer " ++ apiKey api);
                        ("Content-Type", "application/json")];
            body := Some text |} :: rest, outcome)
    /\ JSON_parse text = Some validated.
Proof.
  intros HS HR Hj Hv.
  pose proof (validated_by_object tool S args validated HS Hv) as E.
  pose proof (parse_is_document _ _ _ _ _ (schema_distinct_shape tool S HS)
                Hj E) as Jv.
  destruct (object_output _ _ _ _ _ E) as (m & mo & -> & ->).
  destruct (makeRequest_post fetch api path (VObj mo) eq_refl)
    as (rest & outcome & M).
  rewrite (serialize_print0 _ Jv : JSON_stringify (VObj mo) = _) in M.
  exists (print0 (VObj mo)).
  rewrite (call_tool_dispatch _ _ _ _ _ _ _ HS HR).
  rewrite (parse_accepts _ _ _ Hv), bind_ret, M. unfold bind.
  destruct outcome as [e|result]; do 2 eexists;
    (split; [cbn [fst snd ret]; rewrite ?app_nil_r; reflexivity|]);
    exact (JSON_parse_compact _ _ Jv (serialize_print0 _ Jv)).
Qed.

Lemma post_body_decodes_to_validated_witness :
  exists text rest outcome,
    call_tool (always sample_json_response) sample_api
      {| name := "uploadMultipleFiles";
         arguments :=
           VObj [("files",
                  VArr [VObj [("file_name", VStr "a.csv");
                              ("file_content", VStr "QQ==");
                              ("mime", VStr "text/csv")]]);
                 ("user_id", VStr "u1"); ("dry_run", VBool true)] |}
    = (EvFetch (baseUrl sample_api ++ "/upload_files")
         {| method := POST;
            headers := [("Authorization", "Bearer " ++ apiKey sample_api);
                        ("Content-Type", "application/json")];
            body := Some text |} :: rest, outcome)
    /\ JSON_parse text
       = Some (VObj [("files",
                      VArr [VObj [("file_name", VStr "a.csv");
                                  ("file_content", VStr "QQ==")]]);
                     ("user_id", VStr "u1")]).
Proof.
  apply (post_body_decodes_to_validated (always sample_json_response)
           sample_api "uploadMultipleFiles" UploadMultipleFilesSchema
           "/upload_files").
  - do 6 right. left. reflexivity.
  - do 6 right. left. reflexivity.
  - reflexivity.
  - reflexivity.
Defined.

(** ** What a rejection reports *)

Lemma safeParse_inl_fst t v issues :
  safeParse t v = inl issues -> issues = fst (_parse t [] v).
Proof.
  unfold safeParse. destruct (_parse t [] v) as [[|i iss] [x|]];
    intros H; inversion H; reflexivity.
Qed.

(** Without refinements an issue always aborts the parse: a value comes
    out only when nothing was reported. *)
Lemma plain_output_no_issue t :
  plain t = true ->
  forall p v iss x, _parse t p v = (iss, Some x) -> iss = [].
Proof.
  induction t as [|t IH|t IH|shape IH|t check msg IH] using ZodType_ind';
    intros Hp p v iss x H.
  - destruct v; cbn in H; inversion H; reflexivity.
  - destruct v; cbn [_parse] in H;
      try exact (IH Hp _ _ _ _ H); inversion H; reflexivity.
  - destruct v as [| | | | |l|]; try (cbn in H; discriminate H).
    cbn [_parse] in H. inversion H as [[H1 H2]]. clear H.
    destruct (mergeArray _) as [l'|] eqn:E in H2; [|discriminate H2].
    clear H2 H1. cbn [plain] in Hp. unfold indexed in *.
    revert l' E. generalize 0 as i.
    induction l as [|y l IHl]; intros i l' E; [reflexivity|].
    cbn [indexed_from map fst snd concat] in E |- *.
    destruct (mergeArray_cons_some _ _ _ E) as [[y' Ey] [l'' El]].
    rewrite (IHl _ _ El), app_nil_r.
    destruct (_parse t (p ++ [PIndex i])%list y) as [iss' r] eqn:P.
    cbn [snd] in Ey. subst r. exact (IH Hp _ _ _ _ P).
  - destruct v as [| | | | | |m]; try (cbn in H; discriminate H).
    rewrite parse_object_eq in H. inversion H as [[H1 H2]]. clear H.
    destruct (mergeObject _) as [mo|] eqn:E in H2; [|discriminate H2].
    clear H2 H1. revert mo E.
    induction shape as [|[k t] shape IHs]; intros mo E; [reflexivity|].
    inversion IH as [|? ? IHt IHrest]; subst. cbn [snd] in IHt.
    cbn [plain] in Hp. apply andb_prop in Hp. destruct Hp as [Ht Hs].
    cbn [parse_keys map fst snd concat] in E |- *.
    destruct (mergeObject_cons_some _ _ _ _ _ E) as [[x' Ex] [m' Em]].
    rewrite (IHs IHrest Hs m' Em), app_nil_r.
    destruct (_parse t (p ++ [PKey k])%list (get (VObj m) k))
      as [iss' r] eqn:P.
    cbn [snd] in Ex. subst r. exact (IHt Ht _ _ _ _ P).
  - discriminate Hp.
Qed.

Lemma registry_well_declared tool t :
  In (tool, t) TOOLS -> well_declared (inputSchema t) = true.
Proof.
  intros H. unfold TOOLS in H. cbn [In] in H.
  destruct H as [H|[H|[H|[H|[H|[H|[H|[H|[H|[]]]]]]]]]];
    inversion H; subst; reflexivity.
Qed.

Lemma schema_unrefined tool S :
  In (tool, S) tool_schemas ->
  plain (unrefined S) = true /\ elements_required (unrefined S) = true.
Proof.
  intros H. unfold tool_schemas in H. cbn [In] in H.
  destruct H as [H|[H|[H|[H|[H|[H|[H|[H|[H|[]]]]]]]]]];
    inversion H; subst; split; reflexivity.
Qed.

(** X14: a rejection reports one kind of issue, never both. When the
    arguments do not conform to the advertised shape the report lists
    type issues only (the either/or refinement is not evaluated, even if
    both ids are missing); when they conform, the tool is one of the
    seven with the refinement and the report is the single either/or
    issue. *)
Theorem rejection_reports_one_kind tool t S args issues :
  In (tool, t) TOOLS -> In (tool, S) tool_schemas ->
  safeParse S args = inl issues ->
  (conforms (inputSchema t) args = false
   /\ issues <> []
   /\ Forall (fun i => code i = invalid_type) issues)
  \/ (conforms (inputSchema t) args = true
      /\ In tool either_or_tools
      /\ issues = [either_or_issue]).
Proof.
  intros HT HS E.
  destruct (schema_unrefined tool S HS) as [Hpl Her].
  destruct (schema_form tool S HS) as [Eu Hform].
  pose proof (registry_compatible tool t S HT HS) as Hc.
  pose proof (registry_well_declared tool t HT) as Hw.
  destruct (conforms (inputSchema t) args) eqn:C.
  - right. split; [reflexivity|].
    assert (R : ~ exists validated, safeParse S args = inr validated)
      by (intros [v Hv]; congruence).
    rewrite (schema_accepts_iff tool t S args HT HS) in R.
    destruct (in_dec string_dec tool either_or_tools) as [Hin|Hout];
      [|exfalso; apply R; split; [exact C|]; intros Hin; contradiction].
    split; [exact Hin|].
    destruct (truthy (or_else (get args "user_id") (get args "project_id")))
      eqn:T; [exfalso; apply R; split; [exact C|reflexivity]|].
    destruct (either_or_rejected (fun _ _ => inl "") sample_api tool args
                Hin T) as (issues' & _ & Hcall & _ & Hone & _).
    destruct (rejected_call (fun _ _ => inl "") sample_api tool S args issues
                HS E) as [Hcall' _].
    rewrite Hcall' in Hcall. inversion Hcall; subst issues'.
    exact (Hone t HT C).
  - left. split; [reflexivity|].
    split; [exact (safeParse_inl_nonempty _ _ _ E)|].
    rewrite (safeParse_inl_fst _ _ _ E).
    destruct Hform as [ES|(check & msg & ES)].
    + rewrite ES. now apply plain_issue_codes.
    + rewrite ES, parse_refine_eq.
      pose proof (plain_issue_codes _ Hpl [] args) as F.
      destruct (_parse (unrefined S) [] args) as [iss [x|]] eqn:P;
        cbn [fst snd] in *; [exfalso|exact F].
      pose proof (plain_output_no_issue _ Hpl _ _ _ _ P) as ->.
      destruct (parse_conforms _ _ _ _ _ Hc Hw Her P) as [[_ O]|C'];
        [rewrite Eu in O; discriminate O|congruence].
Qed.

Lemma rejection_reports_one_kind_witness :
  (conforms (inputSchema sample_tool) (VObj [("user_id", VNull)]) = false
   /\ [invalid_type_issue PT_string PT_null [PKey "user_id"]] <> []
   /\ Forall (fun i => code i = invalid_type)
             [invalid_type_issue PT_string PT_null [PKey "user_id"]])
  \/ (conforms (inputSchema sample_tool) (VObj [("user_id", VNull)]) = true
      /\ In "listSavedFlows" either_or_tools
      /\ [invalid_type_issue PT_string PT_null [PKey "user_id"]]
         = [either_or_issue]).
Proof.
  apply (rejection_reports_one_kind "listSavedFlows" sample_tool
           ListSavedFlowsSchema (VObj [("user_id", VNull)])
           [invalid_type_issue PT_string PT_null [PKey "user_id"]]).
  - do 2 right. left. reflexivity.
  - do 2 right. left. reflexivity.
  - reflexivity.
Defined.

(** ** A whole run *)

Lemma fetches_app a b : fetches (a ++ b)%list = fetches a + fetches b.
Proof. unfold fetches. now rewrite filter_app, length_app. Qed.

Lemma handler_fetches fetch api request :
  fetches (snd (handler fetch api request)) <= 1.
Proof.
  destruct request as [tool args]. rewrite handler_of_call_tool.
  destruct (existsb (String.eqb tool) (map fst TOOLS)) eqn:Ex.
  - destruct (advertised_has_schema tool Ex) as [S HS].
    destruct (schema_has_route tool S HS) as (m & p & HR).
    rewrite (call_tool_dispatch _ _ _ _ _ _ _ HS HR). unfold parse.
    destruct (safeParse S args) as [issues|validated].
    + cbn. lia.
    + rewrite bind_ret.
      destruct (makeRequest_trace fetch api p m validated)
        as (url & options & rest & outcome & E & _ & _ & Hr).
      rewrite E.
      destruct Hr as [[-> [e ->]]|[ev [-> [->| ->]]]];
        try (destruct outcome as [e|result]); cbn; lia.
  - rewrite (unknown_call fetch api tool args Ex). cbn. lia.
Qed.

Lemma serve_bounds fetch api requests :
  length (fst (serve fetch api requests)) = length requests
  /\ fetches (snd (serve fetch api requests)) <= calls requests.
Proof.
  induction requests as [|r requests [IHl IHf]]; [split; reflexivity|].
  cbn [serve fst snd length]. rewrite fetches_app, IHl.
  split; [reflexivity|]. unfold calls in *. cbn [filter].
  destruct r as [|request]; cbn [dispatch is_call fst snd length].
  - cbn. exact IHf.
  - pose proof (handler_fetches fetch api request). lia.
Qed.

(** X15: over a whole run, whatever the environment, the transport and
    the stream of requests: a process that failed at start-up answers
    nothing and touches no network; a serving process answers every
    request, and the number of fetches never exceeds the number of tool
    calls, so listing the tools costs no request and nothing is retried. *)
Theorem run_fetches_at_most_once_per_call fetch env connect requests :
  match run fetch env connect requests with
  | (Exited _ _, replies, trace) => replies = [] /\ trace = []
  | (Serving _, replies, trace) =>
      length replies = length requests /\ fetches trace <= calls requests
  end.
Proof.
  unfold run. destruct (main env connect) as [code stderr|api].
  - split; reflexivity.
  - apply serve_bounds.
Qed.
